(** * Chunk / embed / upload / validate pipeline

    A shallow embedding of [upload.py] (class [TextUploader]) and
    [validate_pinecone.py] (class [PineconeValidator]), with the Python
    built-ins and library calls they rely on.

    - Python [str] is a list of Unicode code points ([N]); [int] is [Z].
    - Exceptions are values: a computation that may raise returns [result].
    - The tokenizer (tiktoken), the embedding service (OpenAI), the vector
      index (Pinecone) and the file system are interfaces ([Class]es); the
      code is embedded once, for every implementation of them.
    - Calls to the outside world are threaded through an explicit state that
      also records the observable events (requests, sleeps, printed lines). *)

From Stdlib Require Import ZArith NArith List Lia String Ascii Bool DecimalN.
From stdpp Require Import base option list countable gmap.
From Equations Require Import Equations.
Import ListNotations.

Local Open Scope Z_scope.

(** ** Python values *)

Abbreviation str := (list N).

Module Py.

(** A string literal of the source, as code points. *)
Definition lit (s : string) : str :=
  List.map N_of_ascii (list_ascii_of_string s).

(** An exception (an instance of [Exception]): its class name and [str(e)]. *)
Record pyexn := PyExn { exn_class : string; exn_msg : str }.

Inductive result (A : Type) : Type :=
| Ok (a : A)
| Raise (e : pyexn).
Arguments Ok {A} a.
Arguments Raise {A} e.

(** [len(x)] as a Python int. *)
Definition len {A} (l : list A) : Z := Z.of_nat (length l).

(** [l[i:j]] with Python's treatment of negative and out-of-range bounds. *)
Definition clamp_index (n i : Z) : Z :=
  if i <? 0 then Z.max 0 (i + n) else Z.min i n.

Definition slice {A} (l : list A) (i j : Z) : list A :=
  let lo := clamp_index (len l) i in
  let hi := clamp_index (len l) j in
  take (Z.to_nat (hi - lo)) (drop (Z.to_nat lo) l).

(** [l[:n]] *)
Definition prefix {A} (l : list A) (n : Z) : list A := slice l 0 n.

(** [str.isspace] on one code point (the 29 whitespace code points). *)
Definition isspace (c : N) : bool :=
  let c := Z.of_N c in
  ((0x09 <=? c) && (c <=? 0x0D)) || ((0x1C <=? c) && (c <=? 0x20))
  || (c =? 0x85) || (c =? 0xA0) || (c =? 0x1680)
  || ((0x2000 <=? c) && (c <=? 0x200A))
  || (c =? 0x2028) || (c =? 0x2029) || (c =? 0x202F) || (c =? 0x205F)
  || (c =? 0x3000).

Fixpoint lstrip (s : str) : str :=
  match s with
  | c :: s' => if isspace c then lstrip s' else s
  | [] => []
  end.

Fixpoint rstrip (s : str) : str :=
  match s with
  | [] => []
  | c :: s' =>
      match rstrip s' with
      | [] => if isspace c then [] else [c]
      | r => c :: r
      end
  end.

(** [s.strip()] *)
Definition strip (s : str) : str := rstrip (lstrip s).

(** Truthiness of a string: non-empty. *)
Definition truthy {A} (l : list A) : bool :=
  match l with [] => false | _ => true end.

(** The part of the Unicode character database the code consults through
    [str.isalnum] and [str.lower], for code points outside ASCII. *)
Class Unicode := {
  uc_isalnum : N -> bool;
  uc_lower : N -> str
}.

Definition ascii_isalnum (c : N) : bool :=
  let c := Z.of_N c in
  ((0x30 <=? c) && (c <=? 0x39)) || ((0x41 <=? c) && (c <=? 0x5A))
  || ((0x61 <=? c) && (c <=? 0x7A)).

(** [c.isalnum()] for a one-character string. *)
Definition isalnum `{Unicode} (c : N) : bool :=
  if (c <? 128)%N then ascii_isalnum c else uc_isalnum c.

Definition lower_char `{Unicode} (c : N) : str :=
  if (c <? 128)%N
  then (if ((0x41 <=? c) && (c <=? 0x5A))%N then [(c + 32)%N] else [c])
  else uc_lower c.

(** [s.lower()] *)
Definition lower `{Unicode} (s : str) : str := flat_map lower_char s.

Fixpoint startswith (p s : str) : bool :=
  match p, s with
  | [], _ => true
  | a :: p', b :: s' => (a =? b)%N && startswith p' s'
  | _ :: _, [] => false
  end.

(** [needle in hay] for strings. *)
Fixpoint contains (needle hay : str) : bool :=
  startswith needle hay ||
  match hay with
  | [] => false
  | _ :: hay' => contains needle hay'
  end.

(** [s.rfind(c)] for a one-character [c]: index of the last occurrence,
    [-1] when there is none. *)
Fixpoint rfind_from (c : N) (s : str) (i : Z) (last : Z) : Z :=
  match s with
  | [] => last
  | x :: s' => rfind_from c s' (i + 1) (if (x =? c)%N then i else last)
  end.

Definition rfind (s : str) (c : N) : Z := rfind_from c s 0 (-1).

(** Decimal digits of a non-negative int, as [str(n)] prints them. *)
Fixpoint uint_digits (d : Decimal.uint) : str :=
  match d with
  | Decimal.Nil => []
  | Decimal.D0 d => 48%N :: uint_digits d
  | Decimal.D1 d => 49%N :: uint_digits d
  | Decimal.D2 d => 50%N :: uint_digits d
  | Decimal.D3 d => 51%N :: uint_digits d
  | Decimal.D4 d => 52%N :: uint_digits d
  | Decimal.D5 d => 53%N :: uint_digits d
  | Decimal.D6 d => 54%N :: uint_digits d
  | Decimal.D7 d => 55%N :: uint_digits d
  | Decimal.D8 d => 56%N :: uint_digits d
  | Decimal.D9 d => 57%N :: uint_digits d
  end.

Definition digits (n : N) : str := uint_digits (N.to_uint n).

(** [str(n)] *)
Definition str_of_int (n : Z) : str :=
  if n <? 0 then 45%N :: digits (Z.to_N (- n)) else digits (Z.to_N n).

Definition zero_pad (width : nat) (s : str) : str :=
  repeat 48%N (width - length s) ++ s.

(** [f"{n:03d}"]: sign-aware zero padding to a minimum width of 3. *)
Definition format_03d (n : Z) : str :=
  if n <? 0 then 45%N :: zero_pad 2 (digits (Z.to_N (- n)))
  else zero_pad 3 (digits (Z.to_N n)).

(** [s.encode("utf-8")]: surrogates and values past U+10FFFF cannot be
    encoded ([UnicodeEncodeError]). *)
Definition utf8_char (c : N) : option (list Z) :=
  let c := Z.of_N c in
  if c <? 0x80 then Some [c]
  else if c <? 0x800 then
    Some [Z.lor 0xC0 (Z.shiftr c 6); Z.lor 0x80 (Z.land c 0x3F)]
  else if (0xD800 <=? c) && (c <=? 0xDFFF) then None
  else if c <? 0x10000 then
    Some [Z.lor 0xE0 (Z.shiftr c 12);
          Z.lor 0x80 (Z.land (Z.shiftr c 6) 0x3F);
          Z.lor 0x80 (Z.land c 0x3F)]
  else if c <? 0x110000 then
    Some [Z.lor 0xF0 (Z.shiftr c 18);
          Z.lor 0x80 (Z.land (Z.shiftr c 12) 0x3F);
          Z.lor 0x80 (Z.land (Z.shiftr c 6) 0x3F);
          Z.lor 0x80 (Z.land c 0x3F)]
  else None.

Definition UnicodeEncodeError : pyexn :=
  PyExn "UnicodeEncodeError" (lit "'utf-8' codec can't encode character").

Fixpoint encode_utf8 (s : str) : result (list Z) :=
  match s with
  | [] => Ok []
  | c :: s' =>
      match utf8_char c with
      | None => Raise UnicodeEncodeError
      | Some bs =>
          match encode_utf8 s' with
          | Ok rest => Ok (bs ++ rest)
          | Raise e => Raise e
          end
      end
  end.

(** A lowercase hexadecimal digit. *)
Definition is_hex (c : N) : bool :=
  ((48 <=? c) && (c <=? 57))%N || ((97 <=? c) && (c <=? 102))%N.

(** Reading a decimal string back. *)
Fixpoint parse_uint (s : str) : option Decimal.uint :=
  match s with
  | [] => Some Decimal.Nil
  | c :: s' =>
      match parse_uint s' with
      | None => None
      | Some d =>
          match c with
          | 48%N => Some (Decimal.D0 d) | 49%N => Some (Decimal.D1 d)
          | 50%N => Some (Decimal.D2 d) | 51%N => Some (Decimal.D3 d)
          | 52%N => Some (Decimal.D4 d) | 53%N => Some (Decimal.D5 d)
          | 54%N => Some (Decimal.D6 d) | 55%N => Some (Decimal.D7 d)
          | 56%N => Some (Decimal.D8 d) | 57%N => Some (Decimal.D9 d)
          | _ => None
          end
      end
  end.

Definition int_of_str (s : str) : option Z :=
  match parse_uint s with
  | Some d => Some (Z.of_N (N.of_uint d))
  | None => None
  end.

(** The last and the first [k] elements of a list. *)
Definition last_tokens {A} (k : Z) (l : list A) : list A :=
  drop (length l - Z.to_nat k) l.

Definition first_tokens {A} (k : Z) (l : list A) : list A :=
  take (Z.to_nat k) l.

End Py.

(** ** [hashlib.md5] (RFC 1321), on bytes given as integers 0..255 *)

Module MD5.

Definition mask32 : Z := 0xFFFFFFFF.
Definition add32 (a b : Z) : Z := Z.land (a + b) mask32.
Definition not32 (a : Z) : Z := Z.lxor a mask32.
Definition rotl32 (x c : Z) : Z :=
  Z.lor (Z.land (Z.shiftl x c) mask32) (Z.shiftr x (32 - c)).

Definition K : list Z :=
  [ 0xd76aa478; 0xe8c7b756; 0x242070db; 0xc1bdceee;
    0xf57c0faf; 0x4787c62a; 0xa8304613; 0xfd469501;
    0x698098d8; 0x8b44f7af; 0xffff5bb1; 0x895cd7be;
    0x6b901122; 0xfd987193; 0xa679438e; 0x49b40821;
    0xf61e2562; 0xc040b340; 0x265e5a51; 0xe9b6c7aa;
    0xd62f105d; 0x02441453; 0xd8a1e681; 0xe7d3fbc8;
    0x21e1cde6; 0xc33707d6; 0xf4d50d87; 0x455a14ed;
    0xa9e3e905; 0xfcefa3f8; 0x676f02d9; 0x8d2a4c8a;
    0xfffa3942; 0x8771f681; 0x6d9d6122; 0xfde5380c;
    0xa4beea44; 0x4bdecfa9; 0xf6bb4b60; 0xbebfbc70;
    0x289b7ec6; 0xeaa127fa; 0xd4ef3085; 0x04881d05;
    0xd9d4d039; 0xe6db99e5; 0x1fa27cf8; 0xc4ac5665;
    0xf4292244; 0x432aff97; 0xab9423a7; 0xfc93a039;
    0x655b59c3; 0x8f0ccc92; 0xffeff47d; 0x85845dd1;
    0x6fa87e4f; 0xfe2ce6e0; 0xa3014314; 0x4e0811a1;
    0xf7537e82; 0xbd3af235; 0x2ad7d2bb; 0xeb86d391 ].

Definition S : list Z :=
  [ 7; 12; 17; 22; 7; 12; 17; 22; 7; 12; 17; 22; 7; 12; 17; 22;
    5; 9; 14; 20; 5; 9; 14; 20; 5; 9; 14; 20; 5; 9; 14; 20;
    4; 11; 16; 23; 4; 11; 16; 23; 4; 11; 16; 23; 4; 11; 16; 23;
    6; 10; 15; 21; 6; 10; 15; 21; 6; 10; 15; 21; 6; 10; 15; 21 ].

Record regs := Regs { rA : Z; rB : Z; rC : Z; rD : Z }.

Definition init : regs :=
  Regs 0x67452301 0xefcdab89 0x98badcfe 0x10325476.

(** Little-endian 32-bit words of a block of bytes. *)
Fixpoint words (bs : list Z) : list Z :=
  match bs with
  | b0 :: b1 :: b2 :: b3 :: rest =>
      (b0 + Z.shiftl b1 8 + Z.shiftl b2 16 + Z.shiftl b3 24) :: words rest
  | _ => []
  end.

Definition round (M : list Z) (r : regs) (i : nat) : regs :=
  let '(Regs a b c d) := r in
  let iz := Z.of_nat i in
  let '(f, g) :=
    if iz <? 16 then (Z.lor (Z.land b c) (Z.land (not32 b) d), iz)
    else if iz <? 32 then
      (Z.lor (Z.land d b) (Z.land (not32 d) c), (5 * iz + 1) mod 16)
    else if iz <? 48 then (Z.lxor b (Z.lxor c d), (3 * iz + 5) mod 16)
    else (Z.lxor c (Z.lor b (not32 d)), (7 * iz) mod 16) in
  let f' := add32 (add32 (add32 f a) (nth i K 0)) (nth (Z.to_nat g) M 0) in
  Regs d (add32 b (rotl32 f' (nth i S 0))) b c.

Definition process_block (r : regs) (block : list Z) : regs :=
  let r' := fold_left (round (words block)) (seq 0 64) r in
  Regs (add32 (rA r) (rA r')) (add32 (rB r) (rB r'))
       (add32 (rC r) (rC r')) (add32 (rD r) (rD r')).

Definition le_bytes (n : nat) (x : Z) : list Z :=
  List.map (fun k => Z.land (Z.shiftr x (8 * Z.of_nat k)) 0xFF) (seq 0 n).

Definition pad (msg : list Z) : list Z :=
  let l := Z.of_nat (length msg) in
  msg ++ [0x80] ++ repeat 0 (Z.to_nat ((55 - l) mod 64))
      ++ le_bytes 8 ((8 * l) mod 2 ^ 64).

Fixpoint blocks (fuel : nat) (bs : list Z) : list (list Z) :=
  match fuel with
  | O => []
  | Datatypes.S fuel' =>
      match bs with
      | [] => []
      | _ => take 64 bs :: blocks fuel' (drop 64 bs)
      end
  end.

Definition digest (msg : list Z) : list Z :=
  let p := pad msg in
  let r := fold_left process_block (blocks (length p) p) init in
  le_bytes 4 (rA r) ++ le_bytes 4 (rB r) ++ le_bytes 4 (rC r)
    ++ le_bytes 4 (rD r).

Definition hex_digit (d : Z) : N :=
  if d <? 10 then Z.to_N (48 + d) else Z.to_N (87 + d).

Definition hex_byte (b : Z) : str :=
  [hex_digit (Z.shiftr b 4); hex_digit (Z.land b 0xF)].

(** [hashlib.md5(data).hexdigest()] *)
Definition hexdigest (msg : list Z) : str := flat_map hex_byte (digest msg).

End MD5.

Import Py.

(** ** [os.path] *)

Class OsPath := {
  basename : str -> str;
  splitext : str -> str * str
}.

Module PosixPath.

(** [posixpath.basename]: [i = p.rfind('/') + 1; return p[i:]]. *)
Definition basename (p : str) : str :=
  let i := rfind p 47%N + 1 in
  slice p i (len p).

(** [genericpath._splitext(p, '/', None, '.')]: the extension starts at the
    last dot of the last path component, unless that component has only
    dots before it. *)
Definition splitext (p : str) : str * str :=
  let sepIndex := rfind p 47%N in
  let dotIndex := rfind p 46%N in
  if (dotIndex >? sepIndex)
     && existsb (fun c => negb (c =? 46)%N) (slice p (sepIndex + 1) dotIndex)
  then (slice p 0 dotIndex, slice p dotIndex (len p))
  else (p, []).

Definition os_path : OsPath := Build_OsPath basename splitext.

End PosixPath.

(** ** tiktoken *)

(** [tk_encode t] is [tokenizer.encode(t)], which raises [ValueError] when
    [t] contains the text of a special token; [tk_encode_ordinary t] is
    [tokenizer.encode(t, disallowed_special=())]. *)
Class Tokenizer := {
  tk_encode : str -> result (list Z);
  tk_encode_ordinary : str -> result (list Z);
  tk_decode : list Z -> str
}.

(** ** The outside world *)

(** The metadata dict of one vector; [chunk] and [total_chunks] are present
    only for documents with more than one chunk. *)
Record metadata := Metadata {
  md_source : str;
  md_text : str;
  md_chunk : option Z;
  md_total_chunks : option Z
}.

Record vector (E : Type) := Vector {
  v_id : str;
  v_values : E;
  v_metadata : metadata
}.
Arguments Vector {E} _ _ _.
Arguments v_id {E} _.
Arguments v_values {E} _.
Arguments v_metadata {E} _.

(** The services the two scripts call, as transitions of a [world]:
    - [embeddings_create input model] is [client.embeddings.create(...)]
      followed by [response.data[0].embedding];
    - [index_upsert] and [index_fetch] are [index.upsert(vectors=...)] and
      [index.fetch(ids=...)['vectors']];
    - [open_read path encoding] is [open(path, 'r', encoding=...).read()];
    - [glob_txt dir] is [sorted(list(Path(dir).glob("*.txt")))], as strings. *)
Class Services := {
  embedding : Type;
  world : Type;
  embeddings_create : str -> str -> world -> result embedding * world;
  time_sleep : Z -> world -> world;
  index_upsert : list (vector embedding) -> world -> result unit * world;
  index_fetch :
    list str -> world -> result (gmap str (vector embedding)) * world;
  open_read : str -> str -> world -> result str * world;
  glob_txt : str -> world -> list str
}.

Section Effects.
Context `{Services}.

Inductive event :=
| EvEmbed (input model : str)
| EvSleep (seconds : Z)
| EvPrint (line : str)
| EvUpsert (vectors : list (vector embedding))
| EvFetch (ids : list str)
| EvRead (path encoding : str).

Record state := State { st_world : world; st_trace : list event }.

(** Computations: a state transformer that may raise. *)
Definition M (A : Type) : Type := state -> result A * state.

Definition ret {A} (a : A) : M A := fun s => (Ok a, s).

Definition bind {A B} (m : M A) (k : A -> M B) : M B :=
  fun s =>
    match m s with
    | (Ok a, s') => k a s'
    | (Raise e, s') => (Raise e, s')
    end.

(** A pure computation that may raise, run inside [M]. *)
Definition lift {A} (r : result A) : M A := fun s => (r, s).

(** [try: m except Exception as e: ...], the handler being the caller's
    match on the returned [result]. *)
Definition try {A} (m : M A) : M (result A) :=
  fun s => let '(r, s') := m s in (Ok r, s').

Definition emit (e : event) : M unit :=
  fun s => (Ok tt, State (st_world s) (st_trace s ++ [e])).

(** [print(line)] on a standard output that accepts every line: the line
    is recorded and nothing is raised.  (A strict UTF-8 output refuses a
    line that holds a lone surrogate; of the lines the two scripts print,
    those with the name of a file can hold one, when the path is one that
    [encode_utf8] refuses.  The properties that depend on it are stated
    for paths that can be encoded.) *)
Definition print (line : str) : M unit := emit (EvPrint line).

Definition call {A} (e : event) (f : world -> result A * world) : M A :=
  fun s =>
    let '(r, w) := f (st_world s) in
    (r, State w (st_trace s ++ [e])).

Definition sleep (seconds : Z) : M unit :=
  fun s =>
    (Ok tt, State (time_sleep seconds (st_world s))
                  (st_trace s ++ [EvSleep seconds])).

End Effects.

Declare Scope py_scope.
Delimit Scope py_scope with py.
Notation "x <- m ;; k" := (bind m (fun x => k))
  (at level 20, m at level 99, k at level 200, only parsing) : py_scope.
Notation "m ;; k" := (bind m (fun _ => k))
  (at level 100, k at level 200, right associativity, only parsing)
  : py_scope.
Notation "' p <- m ;; k" := (bind m (fun x => let p := x in k))
  (at level 20, p pattern, m at level 99, k at level 200, only parsing)
  : py_scope.

(** [range(n)] and [enumerate(l)] *)
Definition range (n : Z) : list Z := List.map Z.of_nat (seq 0 (Z.to_nat n)).

Definition enumerate {A} (l : list A) : list (Z * A) :=
  combine (range (len l)) l.

(** ** Index administration and configuration *)

(** What [getattr] reads off an index description: [None], a bool, a
    string, or some other object, given by its [str()]. *)
Inductive pyval :=
| PyNone
| PyBool (b : bool)
| PyStr (s : str)
| PyObject (shown : str).

(** [str(v)], as an f-string prints [v]. *)
Definition show (v : pyval) : str :=
  match v with
  | PyNone => lit "None"
  | PyBool true => lit "True"
  | PyBool false => lit "False"
  | PyStr s => s
  | PyObject shown => shown
  end.

(** [v is True] and [v == "Ready"] *)
Definition is_True (v : pyval) : bool :=
  match v with PyBool true => true | _ => false end.

Definition eq_str (v : pyval) (s : str) : bool :=
  match v with PyStr t => bool_decide (t = s) | _ => false end.

(** The calls of [create_index] and [_wait_until_ready] on the same
    [world]:
    - [list_index_names] is [pc.list_indexes().names()];
    - [pc_create_index name dimension metric cloud region] is
      [pc.create_index(...)];
    - [describe_index name] is [pc.describe_index(name)] followed by the
      three [getattr] lines, giving [(ready, state)];
    - [pc_Index name] is [pc.Index(name)];
    - [time_time] is [time.time()], and [elapsed_exceeds now start timeout]
      is [now - start > timeout]. *)
Class IndexAdmin `{Services} := {
  timestamp : Type;
  list_index_names : world -> result (list str) * world;
  pc_create_index :
    str -> Z -> str -> str -> str -> world -> result unit * world;
  describe_index : str -> world -> result (pyval * pyval) * world;
  pc_Index : str -> world -> result unit * world;
  time_time : world -> timestamp;
  elapsed_exceeds : timestamp -> timestamp -> Z -> bool
}.

Section AdminEffects.
Context `{IndexAdmin}.

(** The events of index set-up; a describe call is recorded with its
    outcome. *)
Inductive admin_event :=
| AdPrint (line : str)
| AdSleep (seconds : Z)
| AdList
| AdCreate (name : str) (dimension : Z) (metric cloud region : str)
| AdDescribe (name : str) (outcome : result (pyval * pyval))
| AdIndex (name : str).

Record admin_state :=
  AdminState { ad_world : world; ad_trace : list admin_event }.

Definition Adm (A : Type) : Type := admin_state -> result A * admin_state.

Definition aret {A} (a : A) : Adm A := fun s => (Ok a, s).

Definition abind {A B} (m : Adm A) (k : A -> Adm B) : Adm B :=
  fun s =>
    match m s with
    | (Ok a, s') => k a s'
    | (Raise e, s') => (Raise e, s')
    end.

Definition araise {A} (e : pyexn) : Adm A := fun s => (Raise e, s).

Definition atry {A} (m : Adm A) : Adm (result A) :=
  fun s => let '(r, s') := m s in (Ok r, s').

Definition aprint (line : str) : Adm unit :=
  fun s => (Ok tt, AdminState (ad_world s) (ad_trace s ++ [AdPrint line])).

Definition asleep (seconds : Z) : Adm unit :=
  fun s =>
    (Ok tt, AdminState (time_sleep seconds (ad_world s))
                       (ad_trace s ++ [AdSleep seconds])).

Definition acall {A} (ev : admin_event) (f : world -> result A * world)
    : Adm A :=
  fun s =>
    let '(r, w) := f (ad_world s) in
    (r, AdminState w (ad_trace s ++ [ev])).

Definition adescribe (name : str) : Adm (pyval * pyval) :=
  fun s =>
    let '(r, w) := describe_index name (ad_world s) in
    (r, AdminState w (ad_trace s ++ [AdDescribe name r])).

Definition anow : Adm timestamp :=
  fun s => (Ok (time_time (ad_world s)), s).

End AdminEffects.

Declare Scope adm_scope.
Delimit Scope adm_scope with adm.
Notation "x <- m ;; k" := (abind m (fun x => k))
  (at level 20, m at level 99, k at level 200, only parsing) : adm_scope.
Notation "m ;; k" := (abind m (fun _ => k))
  (at level 100, k at level 200, right associativity, only parsing)
  : adm_scope.
Notation "' p <- m ;; k" := (abind m (fun x => let p := x in k))
  (at level 20, p pattern, m at level 99, k at level 200, only parsing)
  : adm_scope.

(** ** upload.py *)

Module Upload.

Definition EMBEDDING_DIMENSION : Z := 3072.
Definition BATCH_SIZE : Z := 100.
Definition MAX_TOKENS : Z := 6000.
Definition OVERLAP_TOKENS : Z := 100.

Section Pure.
Context `{Unicode} `{OsPath} `{Tokenizer}.

(** [TextUploader.count_tokens] *)
Definition count_tokens (text : str) : Z :=
  match tk_encode_ordinary text with
  | Ok tokens => len tokens
  | Raise _ => len text / 3
  end.

(** The body of the [while] loop of [chunk_text_by_tokens] up to the
    [append]: the window, its decoded text, and the chunk list after it. *)
Definition chunk_tokens_at (tokens : list Z) (max_tokens start : Z) : list Z :=
  let end_ := Z.min (start + max_tokens) (len tokens) in
  slice tokens start end_.

Definition append_chunk (tokens : list Z) (max_tokens start : Z)
    (chunks : list str) : list str :=
  let chunk_text := tk_decode (chunk_tokens_at tokens max_tokens start) in
  if truthy (strip chunk_text) then chunks ++ [strip chunk_text] else chunks.

Equations? chunk_loop (tokens : list Z) (max_tokens overlap_tokens : Z)
    (start : Z) (chunks : list str) : list str
    by wf (Z.to_nat (len tokens - start)) lt :=
  chunk_loop tokens max_tokens overlap_tokens start chunks
    with Z_lt_dec start (len tokens) := {
    | right _ => chunks
    | left _ with Z_le_dec (max_tokens - overlap_tokens) 0 := {
        | left _ => append_chunk tokens max_tokens start chunks
        | right _ =>
            chunk_loop tokens max_tokens overlap_tokens
              (start + (max_tokens - overlap_tokens))
              (append_chunk tokens max_tokens start chunks) } }.
Proof. lia. Qed.

(** [TextUploader.chunk_text_by_tokens] *)
Definition chunk_text_by_tokens (text : str) (max_tokens overlap_tokens : Z)
    : result (list str) :=
  match tk_encode text with
  | Raise e => Raise e
  | Ok tokens =>
      if len tokens <=? max_tokens then Ok [text]
      else Ok (chunk_loop tokens max_tokens overlap_tokens 0 [])
  end.

(** The token windows ([chunk_tokens]) the loop visits from [start] on, in
    order: the same recursion as [chunk_loop], keeping the windows instead
    of their decoded text. *)
Equations? windows_from (tokens : list Z) (max_tokens overlap_tokens : Z)
    (start : Z) : list (list Z)
    by wf (Z.to_nat (len tokens - start)) lt :=
  windows_from tokens max_tokens overlap_tokens start
    with Z_lt_dec start (len tokens) := {
    | right _ => []
    | left _ with Z_le_dec (max_tokens - overlap_tokens) 0 := {
        | left _ => [chunk_tokens_at tokens max_tokens start]
        | right _ =>
            chunk_tokens_at tokens max_tokens start
            :: windows_from tokens max_tokens overlap_tokens
                 (start + (max_tokens - overlap_tokens)) } }.
Proof. lia. Qed.

Definition token_windows (tokens : list Z) (max_tokens overlap_tokens : Z)
    : list (list Z) :=
  windows_from tokens max_tokens overlap_tokens 0.

(** The chunks a list of windows contributes: decoded, stripped, dropped
    when empty. *)
Definition chunks_of_windows (ws : list (list Z)) : list str :=
  flat_map (fun w => if truthy (strip (tk_decode w))
                     then [strip (tk_decode w)] else []) ws.

(** *** The [while] loop, one step at a time

    The loop variables, and one pass through guard and body.  [run_loop]
    executes passes until the loop is left, within a given number of
    passes; it also counts the executions of the body. *)
Record loop_state := LoopState { ls_start : Z; ls_chunks : list str }.

Inductive step_result :=
| GuardFalse (s : loop_state)
| Break (s : loop_state)
| Next (s : loop_state).

Definition loop_step (tokens : list Z) (max_tokens overlap_tokens : Z)
    (s : loop_state) : step_result :=
  if ls_start s <? len tokens then
    let chunks := append_chunk tokens max_tokens (ls_start s) (ls_chunks s) in
    let step := max_tokens - overlap_tokens in
    let s' := LoopState (ls_start s + step) chunks in
    if step <=? 0 then Break s' else Next s'
  else GuardFalse s.

Fixpoint run_loop (fuel : nat) (tokens : list Z)
    (max_tokens overlap_tokens : Z) (s : loop_state)
    : option (loop_state * nat) :=
  match fuel with
  | O => None
  | Datatypes.S fuel' =>
      match loop_step tokens max_tokens overlap_tokens s with
      | GuardFalse s' => Some (s', O)
      | Break s' => Some (s', 1%nat)
      | Next s' =>
          match run_loop fuel' tokens max_tokens overlap_tokens s' with
          | Some (s'', n) => Some (s'', Datatypes.S n)
          | None => None
          end
      end
  end.

(** [TextUploader.generate_file_id] *)
Definition generate_file_id (file_path : str) (chunk_num : Z) : result str :=
  match encode_utf8 file_path with
  | Raise e => Raise e
  | Ok data =>
      let file_hash := prefix (MD5.hexdigest data) 8 in
      let filename := fst (splitext (basename file_path)) in
      let filename :=
        prefix (List.filter
                  (fun c => isalnum c || (c =? 45)%N || (c =? 95)%N)
                  filename) 50 in
      if chunk_num >? 0
      then Ok (file_hash ++ lit "_" ++ filename ++ lit "_chunk_"
                 ++ format_03d chunk_num)
      else Ok (file_hash ++ lit "_" ++ filename)
  end.

End Pure.

Section Effectful.
Context `{Unicode} `{OsPath} `{Tokenizer} `{Services}.
Local Open Scope py_scope.

Definition EMBEDDING_MODEL : str := lit "text-embedding-3-large".

(** The [for encoding in encodings] loop of [extract_text_from_file]:
    [Ok None] when every encoding failed with [UnicodeDecodeError]; any
    other exception leaves the loop for the outer [except]. *)
Fixpoint read_with_encodings (file_path : str) (encodings : list str)
    : M (option str) :=
  match encodings with
  | [] => ret None
  | encoding :: rest =>
      r <- try (call (EvRead file_path encoding)
                  (open_read file_path encoding)) ;;
      match r with
      | Ok text =>
          print (lit "  Successfully read with " ++ encoding
                   ++ lit " encoding") ;;
          ret (Some text)
      | Raise e =>
          if String.eqb (exn_class e) "UnicodeDecodeError"
          then read_with_encodings file_path rest
          else lift (Raise e)
      end
  end.

(** [TextUploader.extract_text_from_file] *)
Definition extract_text_from_file (file_path : str) : M str :=
  print (lit " Extracting text from file...") ;;
  r <- try (read_with_encodings file_path
              [lit "utf-8"; lit "utf-16"; lit "latin-1"; lit "cp1252"]) ;;
  match r with
  | Ok (Some text) => ret text
  | Ok None =>
      print (lit "  Could not decode file with standard encodings") ;;
      ret []
  | Raise e =>
      print (lit "  CRITICAL file reading error: " ++ exn_msg e) ;;
      ret []
  end.

(** The [for attempt in range(max_retries)] loop of [get_embedding]. *)
Fixpoint embedding_attempts (attempts : list Z) (max_retries retry_delay : Z)
    (text : str) : M (option embedding) :=
  match attempts with
  | [] => ret None
  | attempt :: rest =>
      r <- try (call (EvEmbed text EMBEDDING_MODEL)
                  (embeddings_create text EMBEDDING_MODEL)) ;;
      match r with
      | Ok emb => ret (Some emb)
      | Raise e =>
          if contains (lit "429") (exn_msg e)
             || contains (lit "quota") (lower (exn_msg e))
          then
            if attempt <? max_retries - 1 then
              let wait_time := retry_delay * (attempt + 1) in
              print (lit " Rate limit hit, waiting " ++ str_of_int wait_time
                       ++ lit "s...") ;;
              sleep wait_time ;;
              embedding_attempts rest max_retries retry_delay text
            else
              print (lit " Embedding error after " ++ str_of_int max_retries
                       ++ lit " attempts: " ++ exn_msg e) ;;
              ret None
          else if contains (lit "400") (exn_msg e)
                  || contains (lit "maximum context length") (exn_msg e)
          then
            print (lit " Token limit error: " ++ exn_msg e) ;;
            ret None
          else
            print (lit " Embedding error: " ++ exn_msg e) ;;
            ret None
      end
  end.

(** The token check at the head of [get_embedding]: the text the requests
    will carry. *)
Definition truncate_to_limit (text : str) : M str :=
  let token_count := count_tokens text in
  if token_count >? 8190 then
    print (lit " Warning: Text has " ++ str_of_int token_count
             ++ lit " tokens, truncating...") ;;
    tokens <- lift (tk_encode text) ;;
    ret (tk_decode (prefix tokens 8190))
  else ret text.

(** [TextUploader.get_embedding] *)
Definition get_embedding (text : str) : M (option embedding) :=
  text <- truncate_to_limit text ;;
  let max_retries := 3 in
  let retry_delay := 5 in
  embedding_attempts (range max_retries) max_retries retry_delay text.

(** The identifier [upload_text_file] gives to the chunk at [chunk_idx]. *)
Definition chunk_vid (file_path : str) (chunks : list str) (chunk_idx : Z)
    : result str :=
  if len chunks >? 1 then generate_file_id file_path (chunk_idx + 1)
  else generate_file_id file_path 0.

Definition chunk_metadata (file_path : str) (chunks : list str)
    (chunk_idx : Z) (chunk : str) : metadata :=
  if len chunks >? 1
  then Metadata (basename file_path) (prefix chunk 10000)
         (Some (chunk_idx + 1)) (Some (len chunks))
  else Metadata (basename file_path) (prefix chunk 10000) None None.

(** One iteration of the [for chunk_idx, chunk in enumerate(chunks)] loop
    of [upload_text_file], on the loop variables [vectors] and
    [successful_chunks]. *)
Definition upload_chunk (file_path : str) (chunks : list str)
    (chunk_idx : Z) (chunk : str)
    (vectors : list (vector embedding)) (successful_chunks : Z)
    : M (list (vector embedding) * Z) :=
  let chunk_tokens := count_tokens chunk in
  if chunk_tokens =? 0 then
    print (lit "  Chunk " ++ str_of_int (chunk_idx + 1)
             ++ lit " is empty, skipping...") ;;
    ret (vectors, successful_chunks)
  else if chunk_tokens >? 8190 then
    print (lit "  Chunk " ++ str_of_int (chunk_idx + 1) ++ lit " too large ("
             ++ str_of_int chunk_tokens ++ lit " tokens), skipping...") ;;
    ret (vectors, successful_chunks)
  else
    emb <- get_embedding chunk ;;
    match emb with
    | None =>
        print (lit "  Chunk " ++ str_of_int (chunk_idx + 1)
                 ++ lit " embedding failed, skipping...") ;;
        ret (vectors, successful_chunks)
    | Some emb =>
        vid <- lift (chunk_vid file_path chunks chunk_idx) ;;
        let metadata := chunk_metadata file_path chunks chunk_idx chunk in
        let vectors := vectors ++ [Vector vid emb metadata] in
        let successful_chunks := successful_chunks + 1 in
        if len vectors >=? BATCH_SIZE then
          r <- try (call (EvUpsert vectors) (index_upsert vectors)) ;;
          match r with
          | Ok _ =>
              print (lit "  " ++ [0x2192%N] ++ lit " Uploaded "
                       ++ str_of_int (len vectors) ++ lit " vectors") ;;
              ret ([], successful_chunks)
          | Raise e =>
              print (lit "  Upload error: " ++ exn_msg e) ;;
              ret ([], successful_chunks)
          end
        else ret (vectors, successful_chunks)
    end.

Fixpoint upload_chunks (file_path : str) (chunks : list str)
    (items : list (Z * str))
    (vectors : list (vector embedding)) (successful_chunks : Z)
    : M (list (vector embedding) * Z) :=
  match items with
  | [] => ret (vectors, successful_chunks)
  | (chunk_idx, chunk) :: rest =>
      ' (vectors, successful_chunks) <-
        upload_chunk file_path chunks chunk_idx chunk
          vectors successful_chunks ;;
      upload_chunks file_path chunks rest vectors successful_chunks
  end.

(** [TextUploader.upload_text_file] *)
Definition upload_text_file (file_path : str) : M unit :=
  print (lit "Processing: " ++ basename file_path) ;;
  full_text <- extract_text_from_file file_path ;;
  if negb (truthy (strip full_text)) then
    print (lit " No text extracted" ++ [10%N])
  else
    let total_tokens := count_tokens full_text in
    print (lit " Extracted text (" ++ str_of_int (len full_text)
             ++ lit " chars, ~" ++ str_of_int total_tokens
             ++ lit " tokens)") ;;
    chunks <- lift (chunk_text_by_tokens full_text MAX_TOKENS OVERLAP_TOKENS) ;;
    print (lit " Created " ++ str_of_int (len chunks) ++ lit " chunk"
             ++ (if len chunks >? 1 then lit "s" else [])) ;;
    ' (vectors, successful_chunks) <-
      upload_chunks file_path chunks (enumerate chunks) [] 0 ;;
    (if truthy vectors then
       r <- try (call (EvUpsert vectors) (index_upsert vectors)) ;;
       match r with
       | Ok _ =>
           print (lit "  " ++ [0x2192%N] ++ lit " Uploaded "
                    ++ str_of_int (len vectors) ++ lit " vectors")
       | Raise e => print (lit "  Upload error: " ++ exn_msg e)
       end
     else ret tt) ;;
    print (lit " Completed (" ++ str_of_int successful_chunks ++ lit "/"
             ++ str_of_int (len chunks) ++ lit " chunks uploaded)"
             ++ [10%N]).

(** One iteration of the loop of [upload_directory].  The progress prefix
    is printed with [end=""]; the trace records its text.  The
    [except KeyboardInterrupt] branch has no counterpart here: a [pyexn] is
    an instance of [Exception], and interrupts are not modelled. *)
Definition upload_one (n_files idx : Z) (file_path : str) : M unit :=
  print (lit "[" ++ str_of_int idx ++ lit "/" ++ str_of_int n_files
           ++ lit "] ") ;;
  r <- try (upload_text_file file_path) ;;
  match r with
  | Ok _ => ret tt
  | Raise e => print (lit " Error: " ++ exn_msg e ++ [10%N])
  end.

Fixpoint upload_files (n_files : Z) (files : list (Z * str)) : M unit :=
  match files with
  | [] => ret tt
  | (idx, file_path) :: rest =>
      upload_one n_files idx file_path ;;
      upload_files n_files rest
  end.

(** [TextUploader.upload_directory] *)
Definition upload_directory (directory_path : str) : M unit :=
  fun s =>
    let text_files := glob_txt directory_path (st_world s) in
    (print (lit "Found " ++ str_of_int (len text_files)
              ++ lit " text files" ++ [10%N]) ;;
     upload_files (len text_files)
       (combine (List.map (Z.add 1) (range (len text_files))) text_files)) s.

End Effectful.

(** *** Configuration and index set-up *)

(** [a or b] on the values [os.getenv] returns: a missing or empty value
    gives way to the next one. *)
Definition env_or (a : option str) (b : str) : str :=
  match a with
  | Some (c :: v) => c :: v
  | _ => b
  end.

(** [PINECONE_REGION], from the environment. *)
Definition PINECONE_REGION (getenv : str -> option str) : str :=
  env_or (getenv (lit "PINECONE_REGION"))
    (env_or (getenv (lit "PINECONE_ENVIRONMENT")) (lit "us-east-1")).

(** The checks at import: both keys must be set and not empty.  Returns
    the two keys and the region. *)
Definition load_config (getenv : str -> option str)
    : result (str * str * str) :=
  let OPENAI_API_KEY := getenv (lit "OPENAI_API_KEY") in
  let PINECONE_API_KEY := getenv (lit "PINECONE_API_KEY") in
  match OPENAI_API_KEY with
  | Some (c :: k) =>
      match PINECONE_API_KEY with
      | Some (c' :: k') =>
          Ok (c :: k, c' :: k', PINECONE_REGION getenv)
      | _ =>
          Raise (PyExn "ValueError"
                   (lit "PINECONE_API_KEY not found in environment"))
      end
  | _ =>
      Raise (PyExn "ValueError"
               (lit "OPENAI_API_KEY not found in environment"))
  end.

Section Admin.
Context `{IndexAdmin}.
Local Open Scope adm_scope.

Definition TimeoutError (index_name : str) (timeout : Z) : pyexn :=
  PyExn "TimeoutError"
    (lit "Index " ++ index_name ++ lit " not ready after "
       ++ str_of_int timeout ++ lit "s").

Definition UnboundLocalError : pyexn :=
  PyExn "UnboundLocalError"
    (lit "cannot access local variable 'state' where it is not associated with a value").

(** The part of the loop body of [_wait_until_ready] after the
    [try] statement: the timeout check, the progress line and the sleep.
    [vars] holds [(ready, state)] once the [try] block has assigned them;
    printing them before that raises [UnboundLocalError]. *)
Definition wait_tail (index_name : str) (timeout poll : Z)
    (start : timestamp) (vars : option (pyval * pyval)) : Adm unit :=
  now <- anow ;;
  if elapsed_exceeds now start timeout then
    araise (TimeoutError index_name timeout)
  else
    match vars with
    | None => araise UnboundLocalError
    | Some (ready, state) =>
        aprint (lit "Waiting for index... (State: " ++ show state
                  ++ lit ", Ready: " ++ show ready ++ lit ")") ;;
        asleep poll
    end.

(** The [while True] loop of [_wait_until_ready], for at most [passes]
    passes: [Ok None] means the loop is still running after them. *)
Fixpoint wait_loop (passes : nat) (index_name : str) (timeout poll : Z)
    (start : timestamp) (vars : option (pyval * pyval))
    : Adm (option unit) :=
  match passes with
  | O => aret None
  | Datatypes.S passes' =>
      r <- atry (adescribe index_name) ;;
      match r with
      | Ok (ready, state) =>
          if is_True ready || eq_str state (lit "Ready") then
            aprint (lit "Index " ++ index_name ++ lit " is ready.") ;;
            aret (Some tt)
          else
            wait_tail index_name timeout poll start (Some (ready, state)) ;;
            wait_loop passes' index_name timeout poll start
              (Some (ready, state))
      | Raise e =>
          aprint (lit "Error describing index (will retry): " ++ exn_msg e) ;;
          wait_tail index_name timeout poll start vars ;;
          wait_loop passes' index_name timeout poll start vars
      end
  end.

(** [TextUploader._wait_until_ready] *)
Definition wait_until_ready (passes : nat) (index_name : str)
    (timeout poll : Z) : Adm (option unit) :=
  start <- anow ;;
  wait_loop passes index_name timeout poll start None.

(** [TextUploader.create_index] *)
Definition create_index (passes : nat) (index_name region : str)
    : Adm (option unit) :=
  existing <- acall AdList list_index_names ;;
  waited <-
    (if negb (existsb (fun name => bool_decide (index_name = name)) existing)
     then
       aprint (lit "Creating new index: " ++ index_name) ;;
       acall (AdCreate index_name EMBEDDING_DIMENSION (lit "cosine")
                (lit "aws") region)
         (pc_create_index index_name EMBEDDING_DIMENSION (lit "cosine")
            (lit "aws") region) ;;
       wait_until_ready passes index_name 15 2
     else
       aprint (lit "Connecting to existing index: " ++ index_name) ;;
       aret (Some tt)) ;;
  match waited with
  | None => aret None
  | Some _ =>
      acall (AdIndex index_name) (pc_Index index_name) ;;
      aprint (lit "Index is ready.") ;;
      aret (Some tt)
  end.

End Admin.

End Upload.

(** ** validate_pinecone.py *)

Module Validate.

Section Pure.
Context `{Unicode} `{OsPath} `{Tokenizer}.

(** [PineconeValidator.generate_file_id] *)
Definition generate_file_id (file_path : str) (chunk_num : Z) : result str :=
  match encode_utf8 file_path with
  | Raise e => Raise e
  | Ok data =>
      let file_hash := prefix (MD5.hexdigest data) 8 in
      let filename := fst (splitext (basename file_path)) in
      let filename :=
        prefix (List.filter
                  (fun c => isalnum c || (c =? 45)%N || (c =? 95)%N)
                  filename) 50 in
      if chunk_num >? 0
      then Ok (file_hash ++ lit "_" ++ filename ++ lit "_chunk_"
                 ++ format_03d chunk_num)
      else Ok (file_hash ++ lit "_" ++ filename)
  end.

Equations? chunk_loop (tokens : list Z) (max_tokens overlap_tokens : Z)
    (start : Z) (chunks : list str) : list str
    by wf (Z.to_nat (len tokens - start)) lt :=
  chunk_loop tokens max_tokens overlap_tokens start chunks
    with Z_lt_dec start (len tokens) := {
    | right _ => chunks
    | left _ with Z_le_dec (max_tokens - overlap_tokens) 0 := {
        | left _ =>
            let end_ := Z.min (start + max_tokens) (len tokens) in
            let chunk_text := tk_decode (slice tokens start end_) in
            if truthy (strip chunk_text) then chunks ++ [strip chunk_text]
            else chunks
        | right _ =>
            let end_ := Z.min (start + max_tokens) (len tokens) in
            let chunk_text := tk_decode (slice tokens start end_) in
            chunk_loop tokens max_tokens overlap_tokens
              (start + (max_tokens - overlap_tokens))
              (if truthy (strip chunk_text) then chunks ++ [strip chunk_text]
               else chunks) } }.
Proof. lia. Qed.

(** [PineconeValidator.chunk_text_by_tokens] *)
Definition chunk_text_by_tokens (text : str) (max_tokens overlap_tokens : Z)
    : result (list str) :=
  match tk_encode text with
  | Raise e => Raise e
  | Ok tokens =>
      if len tokens <=? max_tokens then Ok [text]
      else Ok (chunk_loop tokens max_tokens overlap_tokens 0 [])
  end.

(** The [ids_to_check] list that [validate_directory] builds. *)
Fixpoint chunk_ids (file_path : str) (indices : list Z)
    : result (list str) :=
  match indices with
  | [] => Ok []
  | i :: rest =>
      match generate_file_id file_path (i + 1) with
      | Raise e => Raise e
      | Ok vid =>
          match chunk_ids file_path rest with
          | Raise e => Raise e
          | Ok ids => Ok (vid :: ids)
          end
      end
  end.

Definition ids_to_check (file_path : str) (chunks : list str)
    : result (list str) :=
  if len chunks >? 1 then chunk_ids file_path (range (len chunks))
  else match generate_file_id file_path 0 with
       | Raise e => Raise e
       | Ok vid => Ok [vid]
       end.

End Pure.

Section Effectful.
Context `{Unicode} `{OsPath} `{Tokenizer} `{Services}.
Local Open Scope py_scope.

Fixpoint read_with_encodings (file_path : str) (encodings : list str)
    : M (option str) :=
  match encodings with
  | [] => ret None
  | encoding :: rest =>
      r <- try (call (EvRead file_path encoding)
                  (open_read file_path encoding)) ;;
      match r with
      | Ok text => ret (Some text)
      | Raise e =>
          if String.eqb (exn_class e) "UnicodeDecodeError"
          then read_with_encodings file_path rest
          else lift (Raise e)
      end
  end.

(** [PineconeValidator.extract_text_from_file] *)
Definition extract_text_from_file (file_path : str) : M str :=
  r <- try (read_with_encodings file_path
              [lit "utf-8"; lit "utf-16"; lit "latin-1"; lit "cp1252"]) ;;
  match r with
  | Ok (Some text) => ret text
  | Ok None => ret []
  | Raise e => ret []
  end.

(** The head of an iteration of the loop of [validate_directory]: the
    progress line and the text of the file. *)
Definition begin_validation (n_files idx : Z) (file_path : str) : M str :=
  print (lit "[" ++ str_of_int idx ++ lit "/" ++ str_of_int n_files
           ++ lit "] Validating: " ++ basename file_path) ;;
  extract_text_from_file file_path.

(** One iteration of the [for idx, text_file in enumerate(text_files, 1)]
    loop of [validate_directory], on the two counters. *)
Definition validate_file (n_files idx : Z) (file_path : str)
    (found_count not_found_count : Z) : M (Z * Z) :=
  full_text <- begin_validation n_files idx file_path ;;
  if negb (truthy (strip full_text)) then
    print (lit "  - No text extracted, skipping." ++ [10%N]) ;;
    ret (found_count, not_found_count)
  else
    chunks <- lift (chunk_text_by_tokens full_text 6000 100) ;;
    ids <- lift (ids_to_check file_path chunks) ;;
    r <- try (call (EvFetch ids) (index_fetch ids)) ;;
    ' (found_count, not_found_count) <-
      match r with
      | Ok vectors =>
          if negb (bool_decide (vectors = ∅)) then
            print (lit "  - Found: " ++ basename file_path) ;;
            ret (found_count + 1, not_found_count)
          else
            print (lit "  - Not Found: " ++ basename file_path) ;;
            ret (found_count, not_found_count + 1)
      | Raise e =>
          print (lit "  - Error fetching file: " ++ exn_msg e) ;;
          ret (found_count, not_found_count + 1)
      end ;;
    print [] ;;
    ret (found_count, not_found_count).

Fixpoint validate_files (n_files : Z) (files : list (Z * str))
    (found_count not_found_count : Z) : M (Z * Z) :=
  match files with
  | [] => ret (found_count, not_found_count)
  | (idx, file_path) :: rest =>
      ' (found_count, not_found_count) <-
        validate_file n_files idx file_path found_count not_found_count ;;
      validate_files n_files rest found_count not_found_count
  end.

(** [PineconeValidator.validate_directory]; the two counters it prints are
    also returned. *)
Definition validate_directory (directory_path : str) : M (Z * Z) :=
  fun s =>
    let text_files := glob_txt directory_path (st_world s) in
    (print (lit "Found " ++ str_of_int (len text_files)
              ++ lit " text files to validate." ++ [10%N]) ;;
     ' (found_count, not_found_count) <-
       validate_files (len text_files)
         (combine (List.map (Z.add 1) (range (len text_files))) text_files)
         0 0 ;;
     print ([10%N] ++ lit "Validation Complete.") ;;
     print (lit "Found: " ++ str_of_int found_count) ;;
     print (lit "Not Found: " ++ str_of_int not_found_count) ;;
     ret (found_count, not_found_count)) s.

End Effectful.

End Validate.

(** ** Vocabulary of the properties *)

Section Vocabulary.
Context `{Unicode} `{OsPath} `{Tokenizer} `{Services}.
Local Open Scope py_scope.

(** The characters [generate_file_id] keeps in the file name. *)
Definition id_char (c : N) : bool :=
  isalnum c || (c =? 45)%N || (c =? 95)%N.

(** The identifier as the format describes it, from its parts. *)
Definition file_id_format (file_hash stem : str) (n : Z) : str :=
  if n =? 0 then file_hash ++ lit "_" ++ stem
  else file_hash ++ lit "_" ++ stem ++ lit "_chunk_" ++ format_03d n.

(** The classes of failure of the retry policy, by the message of the
    error.  The rate-limit signal ([429], or [quota] in any letter case)
    is looked for first: an error that carries it is a rate-limit error
    also when it carries a context-length signal ([400], or
    [maximum context length]) as well. *)
Inductive error_kind := RateLimit | ContextLength | OtherError.

Definition classify (e : pyexn) : error_kind :=
  if contains (lit "429") (exn_msg e)
     || contains (lit "quota") (lower (exn_msg e))
  then RateLimit
  else if contains (lit "400") (exn_msg e)
          || contains (lit "maximum context length") (exn_msg e)
  then ContextLength
  else OtherError.

(** One attempt: the request, with its exception caught. *)
Definition request (text : str) : M (result embedding) :=
  try (call (EvEmbed text Upload.EMBEDDING_MODEL)
         (embeddings_create text Upload.EMBEDDING_MODEL)).

(** The line printed when an attempt fails and there is no retry. *)
Definition failure_line (e : pyexn) : str :=
  match classify e with
  | RateLimit => lit " Embedding error after 3 attempts: " ++ exn_msg e
  | ContextLength => lit " Token limit error: " ++ exn_msg e
  | OtherError => lit " Embedding error: " ++ exn_msg e
  end.

(** The retry policy, with the classes of [classify]: attempt 1; on a
    rate-limit error wait 5 s and make attempt 2; on a rate-limit error
    again wait 10 s and make attempt 3; every other failure, and any
    failure of attempt 3, ends with [None]. *)
Definition retry_policy (text : str) : M (option embedding) :=
  r1 <- request text ;;
  match r1 with
  | Ok emb => ret (Some emb)
  | Raise e1 =>
      match classify e1 with
      | RateLimit =>
          print (lit " Rate limit hit, waiting 5s...") ;;
          sleep 5 ;;
          r2 <- request text ;;
          match r2 with
          | Ok emb => ret (Some emb)
          | Raise e2 =>
              match classify e2 with
              | RateLimit =>
                  print (lit " Rate limit hit, waiting 10s...") ;;
                  sleep 10 ;;
                  r3 <- request text ;;
                  match r3 with
                  | Ok emb => ret (Some emb)
                  | Raise e3 => print (failure_line e3) ;; ret None
                  end
              | _ => print (failure_line e2) ;; ret None
              end
          end
      | _ => print (failure_line e1) ;; ret None
      end
  end.

(** *** What a computation adds to the trace *)

(** The texts of the embedding requests in a trace, and its sleeps. *)
Definition requests_of (tr : list event) : list str :=
  flat_map (fun ev => match ev with EvEmbed t _ => [t] | _ => [] end) tr.

Definition sleeps_of (tr : list event) : list Z :=
  flat_map (fun ev => match ev with EvSleep n => [n] | _ => [] end) tr.

(** [emits P m]: from every state, [m] only appends events to the trace,
    and the texts of the embedding requests it appends satisfy [P]. *)
Definition emits {A} (P : str -> Prop) (m : M A) : Prop :=
  forall s, exists new,
    st_trace (snd (m s)) = st_trace s ++ new /\ Forall P (requests_of new).

(** Whether a fetch came back with at least one vector. *)
Definition fetched_any (r : result (gmap str (vector embedding))) : bool :=
  match r with
  | Ok vectors => negb (bool_decide (vectors = ∅))
  | Raise _ => false
  end.

(** The line [validate_file] prints for the outcome of the fetch. *)
Definition verdict_line (file_path : str)
    (r : result (gmap str (vector embedding))) : str :=
  match r with
  | Ok vectors =>
      if negb (bool_decide (vectors = ∅))
      then lit "  - Found: " ++ basename file_path
      else lit "  - Not Found: " ++ basename file_path
  | Raise e => lit "  - Error fetching file: " ++ exn_msg e
  end.

End Vocabulary.

(** ** Vocabulary of the further properties *)

Section TraceVocabulary.
Context `{Unicode} `{OsPath} `{Tokenizer} `{Services}.

(** [wp m post]: from every state, [m] only appends events to the trace,
    and the appended events and the result satisfy [post]. *)
Definition wp {A} (m : M A) (post : list event -> result A -> Prop) : Prop :=
  forall s, exists new,
    st_trace (snd (m s)) = st_trace s ++ new /\ post new (fst (m s)).

(** The batches handed to [index.upsert], the id lists handed to
    [index.fetch], and the (path, encoding) pairs of the file reads, in
    order. *)
Definition upserts_of (tr : list event) : list (list (vector embedding)) :=
  flat_map (fun ev => match ev with EvUpsert vs => [vs] | _ => [] end) tr.

Definition fetches_of (tr : list event) : list (list str) :=
  flat_map (fun ev => match ev with EvFetch ids => [ids] | _ => [] end) tr.

Definition reads_of (tr : list event) : list (str * str) :=
  flat_map (fun ev => match ev with EvRead p e => [(p, e)] | _ => [] end) tr.

(** A trace of prints and file reads only. *)
Definition quiet (tr : list event) : Prop :=
  Forall (fun ev => match ev with
                    | EvPrint _ | EvRead _ _ => True
                    | _ => False
                    end) tr.

(** The number of vectors handed to [index.upsert]. *)
Definition upserted_count (tr : list event) : Z :=
  len (concat (upserts_of tr)).

(** The encodings [extract_text_from_file] tries, in order. *)
Definition encodings : list str :=
  [lit "utf-8"; lit "utf-16"; lit "latin-1"; lit "cp1252"].

(** The last line [upload_text_file] prints for a processed document. *)
Definition completed_line (successful_chunks n_chunks : Z) : str :=
  lit " Completed (" ++ str_of_int successful_chunks ++ lit "/"
    ++ str_of_int n_chunks ++ lit " chunks uploaded)" ++ [10%N].

(** The exceptions that leave [upload_text_file] and [validate_directory]:
    the path cannot be encoded, or the tokenizer refused a text. *)
Definition escapes (e : pyexn) : Prop :=
  e = UnicodeEncodeError \/ exists text, tk_encode text = Raise e.

(** What the loop over the encodings does: it reads the file with the
    first [k] encodings, in order, and nothing else. *)
Definition reads_prefix (file_path : str) (encs : list str)
    (new : list event) : Prop :=
  quiet new
  /\ exists k, (k <= length encs)%nat /\ (encs <> [] -> (1 <= k)%nat)
               /\ reads_of new = List.map (pair file_path) (take k encs).

(** The specification both [extract_text_from_file] functions meet: a text
    is returned (never an exception); the file is read with the first [k]
    of the four encodings, [1 <= k <= 4], in order; nothing else happens
    but prints. *)
Definition extract_spec (file_path : str) (new : list event)
    (r : result str) : Prop :=
  (exists text, r = Ok text)
  /\ quiet new
  /\ exists k, (1 <= k <= 4)%nat
               /\ reads_of new = List.map (pair file_path) (take k encodings).

(** [wpw m post]: as [wp], with a postcondition that also sees the world
    [m] starts in. *)
Definition wpw {A} (m : M A)
    (post : world -> list event -> result A -> Prop) : Prop :=
  forall s, exists new,
    st_trace (snd (m s)) = st_trace s ++ new
    /\ post (st_world s) new (fst (m s)).

(** The text [extract_text_from_file] returns for a file in a world. *)
Definition file_text (file_path : str) (w : world) : str :=
  match fst (Upload.extract_text_from_file file_path (State w [])) with
  | Ok text => text
  | Raise _ => []
  end.

(** The files visited, in order: the paths of the reads made with utf-8,
    the first encoding tried on a file.  A file read again with the next
    encodings counts once here; [reads_of] has every read. *)
Definition opened (tr : list event) : list str :=
  List.map fst
    (List.filter (fun pe => bool_decide (snd pe = lit "utf-8"))
       (reads_of tr)).

(** The reads [extract_text_from_file] makes of one file: one [open] with
    each of the first [k] encodings, in order, for some [k] from 1 to 4. *)
Definition reads_file (file_path : str) (rs : list (str * str)) : Prop :=
  exists k, (1 <= k <= 4)%nat
            /\ rs = List.map (pair file_path) (take k encodings).

(** The reads of the files of a listing, file after file. *)
Fixpoint reads_files (files : list str) (rs : list (str * str)) : Prop :=
  match files with
  | [] => rs = []
  | file_path :: rest =>
      exists rs1 rs2,
        rs = rs1 ++ rs2 /\ reads_file file_path rs1 /\ reads_files rest rs2
  end.

(** [v] is the vector [upload_text_file] builds for the item
    [(chunk_idx, chunk)] of [enumerate(chunks)]: the chunk has between 1
    and 8190 tokens, and [v] carries the identifier and the metadata of
    that position. *)
Definition item_vector (file_path : str) (chunks : list str)
    (item : Z * str) (v : vector embedding) : Prop :=
  Upload.chunk_vid file_path chunks (fst item) = Ok (v_id v)
  /\ v_metadata v
     = Upload.chunk_metadata file_path chunks (fst item) (snd item)
  /\ 1 <= Upload.count_tokens (snd item) <= 8190.

(** [vs] are the vectors of some of the [items], in the order of the
    items, one vector for each item picked. *)
Definition vectors_of (file_path : str) (chunks : list str)
    (items : list (Z * str)) (vs : list (vector embedding)) : Prop :=
  exists picked,
    sublist picked items
    /\ Forall2 (item_vector file_path chunks) picked vs.

(** What the loop of [upload_text_file] does over [items], from the
    pending [vectors] and [successful_chunks = k]: it reads no file; each
    batch it sends has between 1 and [BATCH_SIZE] vectors; the batches,
    followed by the vectors left pending, are [vectors] followed by the
    vectors [added] for some of the items; the count goes up by their
    number; only the derivation of an identifier raises. *)
Definition loop_spec (file_path : str) (chunks : list str)
    (items : list (Z * str)) (vectors : list (vector embedding)) (k : Z)
    (new : list event) (r : result (list (vector embedding) * Z)) : Prop :=
  reads_of new = []
  /\ Forall (fun vs => 1 <= len vs <= Upload.BATCH_SIZE) (upserts_of new)
  /\ exists added pending,
       vectors_of file_path chunks items added
       /\ concat (upserts_of new) ++ pending = vectors ++ added
       /\ match r with
          | Ok (vectors', k') =>
              vectors' = pending /\ len pending < Upload.BATCH_SIZE
              /\ k' = k + len added
          | Raise e => exists n, Upload.generate_file_id file_path n = Raise e
          end.

(** What [upload_text_file] does in a world [w], by the text
    [file_text file_path w] of the file:
    - the file is the one file visited; every batch sent has between 1
      and [BATCH_SIZE] vectors;
    - a blank text: nothing is sent, the last line says so;
    - a text the tokenizer refuses: the exception leaves, nothing is sent;
    - otherwise the vectors sent, over all batches, are the vectors of some
      of the chunks, in order, one for each; the last line gives their
      number; the only exception is the one of a path that cannot be
      encoded, and then nothing was sent. *)
Definition file_spec (file_path : str) (w : world) (new : list event)
    (r : result unit) : Prop :=
  let text := file_text file_path w in
  opened new = [file_path]
  /\ Forall (fun vs => 1 <= len vs <= Upload.BATCH_SIZE) (upserts_of new)
  /\ if negb (truthy (strip text)) then
       r = Ok tt /\ upserts_of new = []
       /\ last new = Some (EvPrint (lit " No text extracted" ++ [10%N]))
     else
       match Upload.chunk_text_by_tokens text Upload.MAX_TOKENS
               Upload.OVERLAP_TOKENS with
       | Raise e => r = Raise e /\ upserts_of new = []
       | Ok chunks =>
           match r with
           | Ok _ =>
               vectors_of file_path chunks (enumerate chunks)
                 (concat (upserts_of new))
               /\ last new
                  = Some (EvPrint (completed_line (upserted_count new)
                                     (len chunks)))
           | Raise e => encode_utf8 file_path = Raise e /\ upserts_of new = []
           end
       end.

(** What one iteration of the loop of [validate_directory] does in a world
    [w], from the counters [found] and [not_found]:
    - the file is the one file visited; nothing is embedded or uploaded,
      and there is no sleep;
    - a blank text: no fetch, the counters are unchanged;
    - a text the tokenizer refuses, or a path that cannot be encoded: the
      exception leaves, and there was no fetch;
    - otherwise one fetch, of the identifiers of the chunks of the text,
      and one of the counters goes up by one. *)
Definition validate_spec (file_path : str) (found not_found : Z)
    (w : world) (new : list event) (r : result (Z * Z)) : Prop :=
  let text := file_text file_path w in
  opened new = [file_path]
  /\ requests_of new = [] /\ upserts_of new = [] /\ sleeps_of new = []
  /\ if negb (truthy (strip text)) then
       r = Ok (found, not_found) /\ fetches_of new = []
     else
       match Validate.chunk_text_by_tokens text 6000 100 with
       | Raise e => r = Raise e /\ fetches_of new = []
       | Ok chunks =>
           match Validate.ids_to_check file_path chunks with
           | Raise e => r = Raise e /\ fetches_of new = []
           | Ok ids =>
               fetches_of new = [ids]
               /\ (r = Ok (found + 1, not_found)
                   \/ r = Ok (found, not_found + 1))
           end
       end.

End TraceVocabulary.

Section AdminVocabulary.
Context `{IndexAdmin}.

Definition describes_of (tr : list admin_event)
    : list (result (pyval * pyval)) :=
  flat_map (fun ev => match ev with AdDescribe _ r => [r] | _ => [] end) tr.

Definition creates_of (tr : list admin_event) : list str :=
  flat_map (fun ev => match ev with
                      | AdCreate name _ _ _ _ => [name]
                      | _ => []
                      end) tr.

Definition admin_sleeps_of (tr : list admin_event) : list Z :=
  flat_map (fun ev => match ev with AdSleep n => [n] | _ => [] end) tr.

(** A describe outcome that ends the wait. *)
Definition reports_ready (r : result (pyval * pyval)) : bool :=
  match r with
  | Ok (ready, state) => is_True ready || eq_str state (lit "Ready")
  | Raise _ => false
  end.

(** A trace of describe calls, prints and sleeps only. *)
Definition waiting (tr : list admin_event) : Prop :=
  Forall (fun ev => match ev with
                    | AdPrint _ | AdSleep _ | AdDescribe _ _ => True
                    | _ => False
                    end) tr.

(** What the loop of [_wait_until_ready] does in [passes] passes, started
    with the local variables [vars]: it only describes, prints and
    sleeps, and
    - if it returns, the last describe call reported the index ready, no
      call before it did, and there was one sleep of [poll] seconds after
      each of those;
    - if it is still running, it made [passes] describe calls, none of
      which reported the index ready, each followed by one sleep;
    - if it raises, no describe call reported the index ready, there was
      one sleep after each but the last, and the exception is the timeout,
      or the [UnboundLocalError] of a first pass whose describe call
      raised;
    - started without local variables, if its first describe call raises
      there is no other call and no sleep: the loop raises. *)
Definition wait_spec (index_name : str) (timeout poll : Z) (passes : nat)
    (vars : option (pyval * pyval)) (new : list admin_event)
    (r : result (option unit)) : Prop :=
  waiting new
  /\ match r with
     | Ok (Some _) =>
         exists outcomes last,
           describes_of new = outcomes ++ [last]
           /\ reports_ready last = true
           /\ Forall (fun o => reports_ready o = false) outcomes
           /\ admin_sleeps_of new = repeat poll (length outcomes)
     | Ok None =>
         length (describes_of new) = passes
         /\ Forall (fun o => reports_ready o = false) (describes_of new)
         /\ admin_sleeps_of new = repeat poll passes
     | Raise e =>
         exists outcomes last,
           describes_of new = outcomes ++ [last]
           /\ Forall (fun o => reports_ready o = false) (outcomes ++ [last])
           /\ admin_sleeps_of new = repeat poll (length outcomes)
           /\ (e = Upload.TimeoutError index_name timeout
               \/ (e = Upload.UnboundLocalError /\ vars = None
                   /\ outcomes = [] /\ exists e', last = Raise e'))
     end
  /\ (vars = None ->
      forall e' rest, describes_of new = Raise e' :: rest ->
        rest = [] /\ admin_sleeps_of new = [] /\ exists e, r = Raise e).

End AdminVocabulary.

(** ** Implementations to run the code on *)

(** A tokenizer with one token per code point. *)
Definition char_tokenizer : Tokenizer :=
  {| tk_encode := fun s => Ok (List.map Z.of_N s);
     tk_encode_ordinary := fun s => Ok (List.map Z.of_N s);
     tk_decode := fun ts => List.map Z.to_N ts |}.

(** The Unicode tables for code points below U+0100 (Latin-1). *)
Definition latin1_isalnum (c : N) : bool :=
  let c := Z.of_N c in
  (c =? 0xAA) || (c =? 0xB2) || (c =? 0xB3) || (c =? 0xB5) || (c =? 0xB9)
  || (c =? 0xBA) || (c =? 0xBC) || (c =? 0xBD) || (c =? 0xBE)
  || ((0xC0 <=? c) && (c <=? 0xFF) && negb (c =? 0xD7) && negb (c =? 0xF7)).

Definition latin1_lower (c : N) : str :=
  let z := Z.of_N c in
  if (0xC0 <=? z) && (z <=? 0xDE) && negb (z =? 0xD7) then [(c + 32)%N]
  else [c].

Definition latin1 : Unicode := Build_Unicode latin1_isalnum latin1_lower.

(** A scripted world: embedding calls and fetch calls take their outcome
    from a script, the index is a finite map, files are a list of
    (path, text) pairs in directory order. *)
Record sim_world := SimWorld {
  sw_embed : list (result (list Z));
  sw_fetch_errors : list (option pyexn);
  sw_store : gmap str (vector (list Z));
  sw_files : list (str * str);
  sw_clock : Z
}.

Definition FileNotFoundError : pyexn :=
  PyExn "FileNotFoundError" (lit "No such file or directory").

Fixpoint assoc (k : str) (l : list (str * str)) : option str :=
  match l with
  | [] => None
  | (k', v) :: l' => if bool_decide (k = k') then Some v else assoc k l'
  end.

(** [fetch] on a stored index: the entries of [store] at the given ids. *)
Definition store_fetch {E} (store : gmap str (vector E)) (ids : list str)
    : gmap str (vector E) :=
  foldr (fun i acc => match store !! i with
                      | Some v => <[i := v]> acc
                      | None => acc
                      end) ∅ ids.

Definition store_upsert {E} (store : gmap str (vector E))
    (vs : list (vector E)) : gmap str (vector E) :=
  fold_left (fun acc v => <[v_id v := v]> acc) vs store.

Definition sim_services : Services :=
  {| embedding := list Z;
     world := sim_world;
     embeddings_create := fun _ _ w =>
       match sw_embed w with
       | r :: rest =>
           (r, SimWorld rest (sw_fetch_errors w) (sw_store w) (sw_files w)
                 (sw_clock w))
       | [] => (Ok [], w)
       end;
     time_sleep := fun n w =>
       SimWorld (sw_embed w) (sw_fetch_errors w) (sw_store w) (sw_files w)
         (sw_clock w + n);
     index_upsert := fun vs w =>
       (Ok tt, SimWorld (sw_embed w) (sw_fetch_errors w)
                 (store_upsert (sw_store w) vs) (sw_files w) (sw_clock w));
     index_fetch := fun ids w =>
       match sw_fetch_errors w with
       | Some e :: rest =>
           (Raise e, SimWorld (sw_embed w) rest (sw_store w) (sw_files w)
                       (sw_clock w))
       | None :: rest =>
           (Ok (store_fetch (sw_store w) ids),
            SimWorld (sw_embed w) rest (sw_store w) (sw_files w)
              (sw_clock w))
       | [] => (Ok (store_fetch (sw_store w) ids), w)
       end;
     open_read := fun path _ w =>
       match assoc path (sw_files w) with
       | Some text => (Ok text, w)
       | None => (Raise FileNotFoundError, w)
       end;
     glob_txt := fun _ w => List.map fst (sw_files w) |}.

(** The same world with files that are neither UTF-8 nor UTF-16: reading
    one with utf-8 or with utf-16 raises [UnicodeDecodeError], reading it
    with another encoding gives its text. *)
Definition UnicodeDecodeError : pyexn :=
  PyExn "UnicodeDecodeError"
    (lit "codec can't decode byte 0xe9 in position 0: invalid start byte").

Definition legacy_services : Services :=
  {| embedding := list Z;
     world := sim_world;
     embeddings_create := @embeddings_create sim_services;
     time_sleep := @time_sleep sim_services;
     index_upsert := @index_upsert sim_services;
     index_fetch := @index_fetch sim_services;
     open_read := fun path encoding w =>
       match assoc path (sw_files w) with
       | Some text =>
           if bool_decide (encoding = lit "utf-8")
              || bool_decide (encoding = lit "utf-16")
           then (Raise UnicodeDecodeError, w)
           else (Ok text, w)
       | None => (Raise FileNotFoundError, w)
       end;
     glob_txt := @glob_txt sim_services |}.

(** *** Inputs *)

Definition demo_path : str := lit "docs/report 2024.txt".

Definition demo_path_bytes : list Z :=
  Eval vm_compute in
    match encode_utf8 demo_path with Ok d => d | Raise _ => [] end.


(** A text of 15000 tokens. *)
Definition text_15000 : str := repeat 97%N 15000.

(** 15000 tokens whose last 9000 are spaces: the third window is blank. *)
Definition text_blank_tail : str := repeat 97%N 6000 ++ repeat 32%N 9000.


(** A context-length error as the embedding service words it: the number
    of tokens requested has the digits 429 in it. *)
Definition context_length_14290 : pyexn :=
  PyExn "BadRequestError"
    (lit "Error code: 400 - This model's maximum context length is 8192 tokens, however you requested 14290 tokens").

(** The embedding service answers every request with that error. *)
Definition context_length_start : @state sim_services :=
  @State sim_services
    (SimWorld [Raise context_length_14290; Raise context_length_14290;
               Raise context_length_14290] [] ∅ [] 0) [].


(** Two files. *)
Definition two_files_start : @state legacy_services :=
  @State legacy_services
    (SimWorld [] [] ∅
       [(demo_path, lit "first"); (lit "docs/second.txt", lit "second")] 0)
    [].

(** A document of two chunks of which only the second is in the index. *)
Definition two_chunk_text : str := repeat 97%N 6001.

Definition chunk_1_id : str := lit "f8b24b6a_report2024_chunk_001".
Definition chunk_2_id : str := lit "f8b24b6a_report2024_chunk_002".

Definition partial_world : sim_world :=
  SimWorld [] []
    {[ chunk_2_id := Vector chunk_2_id [] (Metadata [] [] None None) ]}
    [(demo_path, two_chunk_text)] 0.

Definition partial_start : @state sim_services :=
  @State sim_services partial_world [].

(** Two files; the fetch for the first one fails. *)
Definition outage : pyexn :=
  PyExn "PineconeApiException" (lit "(503) Service Unavailable").

Definition outage_world : sim_world :=
  SimWorld [] [Some outage] ∅
    [(demo_path, lit "first"); (lit "docs/second.txt", lit "second")] 0.

Definition outage_start : @state sim_services :=
  @State sim_services outage_world [].

(** * Properties *)

(** ** Python slices and formatting *)

Section PyFacts.

Lemma len_nonneg {A} (l : list A) : 0 <= len l.
Proof. unfold len. lia. Qed.

Lemma prefix_take {A} (l : list A) (n : Z) :
  0 <= n -> prefix l n = take (Z.to_nat n) l.
Proof.
  intros Hn. unfold prefix, slice, clamp_index, len.
  change (0 <? 0) with false. cbv iota.
  destruct (Z.ltb_spec n 0); [lia|].
  rewrite (Z.min_l 0) by lia. rewrite Z.sub_0_r.
  change (Z.to_nat 0) with 0%nat. rewrite drop_0.
  destruct (Z.le_ge_cases n (Z.of_nat (length l))).
  - rewrite Z.min_l by lia. reflexivity.
  - rewrite Z.min_r by lia. rewrite Nat2Z.id.
    rewrite !take_ge by lia. reflexivity.
Qed.

Lemma prefix_length_le {A} (l : list A) (n : Z) :
  0 <= n -> (length (prefix l n) <= Z.to_nat n)%nat.
Proof. intros Hn. rewrite prefix_take by lia. rewrite length_take. lia. Qed.

(** A window with non-negative bounds inside the list is [drop] then
    [take]. *)
Lemma slice_inside {A} (l : list A) (i j : Z) :
  0 <= i <= j -> j <= len l ->
  slice l i j = take (Z.to_nat (j - i)) (drop (Z.to_nat i) l).
Proof.
  intros Hij Hj. unfold slice, clamp_index.
  destruct (Z.ltb_spec i 0); [lia|].
  destruct (Z.ltb_spec j 0); [lia|].
  rewrite !Z.min_l by lia. reflexivity.
Qed.

Lemma slice_length {A} (l : list A) (i j : Z) :
  0 <= i <= j -> j <= len l -> len (slice l i j) = j - i.
Proof.
  intros Hij Hj. rewrite slice_inside by lia. unfold len in *.
  rewrite length_take, length_drop. lia.
Qed.

Lemma uint_digits_length (d : Decimal.uint) :
  length (uint_digits d) = Decimal.nb_digits d.
Proof. induction d; simpl; congruence. Qed.

Lemma parse_uint_digits (d : Decimal.uint) : parse_uint (uint_digits d) = Some d.
Proof. induction d; simpl; try rewrite IHd; reflexivity. Qed.

Lemma parse_uint_zeros (k : nat) (s : str) (d : Decimal.uint) :
  parse_uint s = Some d ->
  exists d', parse_uint (repeat 48%N k ++ s) = Some d'
             /\ N.of_uint d' = N.of_uint d.
Proof.
  intros Hs. induction k as [|k IH]; simpl.
  - eauto.
  - destruct IH as (d' & -> & Hd'). eexists; split; [reflexivity|].
    exact Hd'.
Qed.

Lemma int_of_str_format_03d (n : Z) :
  0 <= n -> int_of_str (format_03d n) = Some n.
Proof.
  intros Hn. unfold format_03d, int_of_str, zero_pad, digits.
  destruct (Z.ltb_spec n 0); [lia|].
  destruct (parse_uint_zeros (3 - length (uint_digits (N.to_uint (Z.to_N n))))
              _ _ (parse_uint_digits (N.to_uint (Z.to_N n))))
    as (d' & -> & Hd').
  rewrite Hd', DecimalN.Unsigned.of_to. f_equal. lia.
Qed.

Lemma format_03d_length (n : Z) :
  0 <= n -> (3 <= length (format_03d n))%nat.
Proof.
  intros Hn. unfold format_03d, zero_pad.
  destruct (Z.ltb_spec n 0); [lia|].
  rewrite length_app, repeat_length. lia.
Qed.

End PyFacts.

(** ** The MD5 hex digest is 32 lowercase hex digits *)

Section MD5Facts.

Lemma le_bytes_range (n : nat) (x : Z) :
  Forall (fun b => 0 <= b < 256) (MD5.le_bytes n x).
Proof.
  unfold MD5.le_bytes. apply Forall_forall. intros b Hb.
  apply list_elem_of_In, in_map_iff in Hb. destruct Hb as (k & <- & _).
  change 0xFF with (Z.ones 8). rewrite Z.land_ones by lia.
  apply Z.mod_pos_bound. reflexivity.
Qed.

Lemma digest_shape (msg : list Z) :
  length (MD5.digest msg) = 16%nat
  /\ Forall (fun b => 0 <= b < 256) (MD5.digest msg).
Proof.
  unfold MD5.digest.
  set (r := fold_left MD5.process_block _ _). split.
  - rewrite !length_app. unfold MD5.le_bytes.
    rewrite !length_map, !length_seq. reflexivity.
  - rewrite !Forall_app. repeat split; apply le_bytes_range.
Qed.

Lemma hex_digit_is_hex (d : Z) : 0 <= d < 16 -> is_hex (MD5.hex_digit d) = true.
Proof.
  intros Hd. unfold MD5.hex_digit, is_hex.
  destruct (Z.ltb_spec d 10).
  - apply orb_true_iff; left. apply andb_true_iff; split; apply N.leb_le; lia.
  - apply orb_true_iff; right. apply andb_true_iff; split; apply N.leb_le; lia.
Qed.

Lemma hex_byte_is_hex (b : Z) :
  0 <= b < 256 -> Forall (fun c => is_hex c = true) (MD5.hex_byte b).
Proof.
  intros Hb. unfold MD5.hex_byte.
  repeat constructor; apply hex_digit_is_hex.
  - rewrite Z.shiftr_div_pow2 by lia. change (2 ^ 4) with 16.
    split; [apply Z.div_pos; lia | apply Z.div_lt_upper_bound; lia].
  - change 0xF with (Z.ones 4). rewrite Z.land_ones by lia.
    apply Z.mod_pos_bound. reflexivity.
Qed.

Lemma flat_map_length_const {A B} (f : A -> list B) (k : nat) (l : list A) :
  (forall a, length (f a) = k) -> length (flat_map f l) = (length l * k)%nat.
Proof.
  intros Hf. induction l as [|a l IH]; simpl; [reflexivity|].
  rewrite length_app, Hf, IH. lia.
Qed.

Lemma hexdigest_length (msg : list Z) : length (MD5.hexdigest msg) = 32%nat.
Proof.
  unfold MD5.hexdigest.
  rewrite (flat_map_length_const _ 2) by reflexivity.
  rewrite (proj1 (digest_shape msg)). reflexivity.
Qed.

Lemma hexdigest_is_hex (msg : list Z) :
  Forall (fun c => is_hex c = true) (MD5.hexdigest msg).
Proof.
  unfold MD5.hexdigest.
  destruct (digest_shape msg) as [_ Hr].
  induction Hr as [|b l Hb _ IH]; cbn [flat_map]; [constructor|].
  apply Forall_app_2; [apply hex_byte_is_hex; exact Hb | exact IH].
Qed.

End MD5Facts.

(** ** Identifier derivation *)

Section Identifier.
Context `{Unicode} `{OsPath}.

Lemma generate_file_id_ok (file_path : str) (data : list Z) (n : Z) :
  encode_utf8 file_path = Ok data ->
  0 <= n ->
  Upload.generate_file_id file_path n
  = Ok (file_id_format (take 8 (MD5.hexdigest data))
          (take 50 (List.filter id_char
                      (fst (splitext (basename file_path))))) n).
Proof.
  intros Henc Hn.
  unfold Upload.generate_file_id, file_id_format. rewrite Henc.
  rewrite !prefix_take by lia.
  change (Z.to_nat 8) with 8%nat. change (Z.to_nat 50) with 50%nat.
  fold id_char.
  destruct (Z.eqb_spec n 0) as [->|Hne]; [reflexivity|].
  destruct (Z.gtb_spec n 0); [reflexivity | lia].
Qed.

(** C7. For a path that can be encoded as UTF-8 and a chunk index [n >= 0],
    [generate_file_id] returns [hash_stem] for [n = 0] and
    [hash_stem_chunk_NNN] for [n > 0], where [hash] is the first 8
    characters of the MD5 hex digest of the encoded path (8 hex digits),
    [stem] is the file name without its extension, with only alphanumeric
    characters, '-' and '_' kept, cut to at most 50 characters, and [NNN]
    is [n] in decimal, zero-padded to at least 3 digits. *)
Theorem C7_generate_file_id_format (file_path : str) (data : list Z) (n : Z) :
  encode_utf8 file_path = Ok data ->
  0 <= n ->
  let file_hash := take 8 (MD5.hexdigest data) in
  let stem :=
    take 50 (List.filter id_char (fst (splitext (basename file_path)))) in
  Upload.generate_file_id file_path n = Ok (file_id_format file_hash stem n)
  /\ length file_hash = 8%nat
  /\ Forall (fun c => is_hex c = true) file_hash
  /\ (length stem <= 50)%nat
  /\ Forall (fun c => id_char c = true) stem
  /\ (3 <= length (format_03d n))%nat
  /\ int_of_str (format_03d n) = Some n.
Proof.
  intros Henc Hn file_hash stem.
  repeat apply conj.
  - apply generate_file_id_ok; assumption.
  - subst file_hash. rewrite length_take, hexdigest_length. reflexivity.
  - subst file_hash. apply Forall_take, hexdigest_is_hex.
  - subst stem. rewrite length_take. lia.
  - subst stem. apply Forall_take. apply Forall_forall. intros c Hc.
    apply list_elem_of_In, filter_In in Hc. tauto.
  - apply format_03d_length, Hn.
  - apply int_of_str_format_03d, Hn.
Qed.

End Identifier.

(** ** The chunker *)

Section Chunker.
Context `{Tokenizer}.
Import Upload.

(** The three ways through one pass of the loop. *)
Lemma chunk_loop_exit tokens max_tokens overlap_tokens start chunks :
  len tokens <= start ->
  chunk_loop tokens max_tokens overlap_tokens start chunks = chunks.
Proof.
  intros Hs. rewrite chunk_loop_equation_1.
  destruct (Z_lt_dec start (len tokens)); [lia|]. now simp chunk_loop.
Qed.

Lemma chunk_loop_break tokens max_tokens overlap_tokens start chunks :
  start < len tokens -> max_tokens - overlap_tokens <= 0 ->
  chunk_loop tokens max_tokens overlap_tokens start chunks
  = append_chunk tokens max_tokens start chunks.
Proof.
  intros Hs Hstep. rewrite chunk_loop_equation_1.
  destruct (Z_lt_dec start (len tokens)); [|lia]. simp chunk_loop.
  destruct (Z_le_dec (max_tokens - overlap_tokens) 0); [|lia].
  now simp chunk_loop.
Qed.

Lemma chunk_loop_next tokens max_tokens overlap_tokens start chunks :
  start < len tokens -> 0 < max_tokens - overlap_tokens ->
  chunk_loop tokens max_tokens overlap_tokens start chunks
  = chunk_loop tokens max_tokens overlap_tokens
      (start + (max_tokens - overlap_tokens))
      (append_chunk tokens max_tokens start chunks).
Proof.
  intros Hs Hstep. rewrite chunk_loop_equation_1.
  destruct (Z_lt_dec start (len tokens)); [|lia]. simp chunk_loop.
  destruct (Z_le_dec (max_tokens - overlap_tokens) 0); [lia|].
  now simp chunk_loop.
Qed.

Lemma windows_from_exit tokens max_tokens overlap_tokens start :
  len tokens <= start ->
  windows_from tokens max_tokens overlap_tokens start = [].
Proof.
  intros Hs. rewrite windows_from_equation_1.
  destruct (Z_lt_dec start (len tokens)); [lia|]. now simp windows_from.
Qed.

Lemma windows_from_break tokens max_tokens overlap_tokens start :
  start < len tokens -> max_tokens - overlap_tokens <= 0 ->
  windows_from tokens max_tokens overlap_tokens start
  = [chunk_tokens_at tokens max_tokens start].
Proof.
  intros Hs Hstep. rewrite windows_from_equation_1.
  destruct (Z_lt_dec start (len tokens)); [|lia]. simp windows_from.
  destruct (Z_le_dec (max_tokens - overlap_tokens) 0); [|lia].
  now simp windows_from.
Qed.

Lemma windows_from_next tokens max_tokens overlap_tokens start :
  start < len tokens -> 0 < max_tokens - overlap_tokens ->
  windows_from tokens max_tokens overlap_tokens start
  = chunk_tokens_at tokens max_tokens start
    :: windows_from tokens max_tokens overlap_tokens
         (start + (max_tokens - overlap_tokens)).
Proof.
  intros Hs Hstep. rewrite windows_from_equation_1.
  destruct (Z_lt_dec start (len tokens)); [|lia]. simp windows_from.
  destruct (Z_le_dec (max_tokens - overlap_tokens) 0); [lia|].
  now simp windows_from.
Qed.

Lemma append_chunk_windows tokens max_tokens start chunks :
  append_chunk tokens max_tokens start chunks
  = chunks ++ chunks_of_windows [chunk_tokens_at tokens max_tokens start].
Proof.
  unfold append_chunk, chunks_of_windows. cbn [flat_map].
  rewrite app_nil_r.
  destruct (truthy _); [reflexivity | now rewrite app_nil_r].
Qed.

Lemma chunks_of_windows_cons w ws :
  chunks_of_windows (w :: ws)
  = chunks_of_windows [w] ++ chunks_of_windows ws.
Proof. unfold chunks_of_windows. cbn [flat_map]. now rewrite app_nil_r. Qed.

(** The chunks the loop returns are the decoded, stripped, non-empty
    windows it visits, after the chunks it started with. *)
Lemma chunk_loop_windows tokens max_tokens overlap_tokens start chunks :
  chunk_loop tokens max_tokens overlap_tokens start chunks
  = chunks
    ++ chunks_of_windows (windows_from tokens max_tokens overlap_tokens start).
Proof.
  remember (Z.to_nat (len tokens - start)) as m eqn:Hm.
  revert start chunks Hm.
  induction m as [m IH] using lt_wf_ind. intros start chunks Hm.
  destruct (Z_lt_dec start (len tokens)) as [Hlt|Hge].
  - destruct (Z_le_dec (max_tokens - overlap_tokens) 0) as [Hle|Hgt].
    + rewrite chunk_loop_break, windows_from_break by lia.
      apply append_chunk_windows.
    + rewrite chunk_loop_next, windows_from_next by lia.
      rewrite (IH (Z.to_nat (len tokens
                             - (start + (max_tokens - overlap_tokens)))))
        by lia.
      rewrite append_chunk_windows, (chunks_of_windows_cons _ (windows_from _ _ _ _)).
      now rewrite app_assoc.
  - rewrite chunk_loop_exit, windows_from_exit by lia.
    now rewrite app_nil_r.
Qed.

(** *** Termination of the loop *)

Lemma run_loop_mono fuel fuel' tokens max_tokens overlap_tokens s r :
  (fuel <= fuel')%nat ->
  run_loop fuel tokens max_tokens overlap_tokens s = Some r ->
  run_loop fuel' tokens max_tokens overlap_tokens s = Some r.
Proof.
  revert fuel' s r. induction fuel as [|fuel IH]; intros fuel' s r Hle Hrun.
  - discriminate.
  - destruct fuel' as [|fuel']; [lia|]. cbn [run_loop] in *.
    destruct (loop_step tokens max_tokens overlap_tokens s) as [s'|s'|s'];
      try exact Hrun.
    destruct (run_loop fuel tokens max_tokens overlap_tokens s')
      as [[s'' n]|] eqn:E; [|discriminate].
    now rewrite (IH fuel' s' (s'', n)) by (lia || assumption).
Qed.

(** From any state, more passes than there are tokens left are enough;
    the run ends in the chunks [chunk_loop] computes. *)
Lemma run_loop_from fuel tokens max_tokens overlap_tokens s :
  (Z.to_nat (len tokens - ls_start s) < fuel)%nat ->
  exists final iters,
    run_loop fuel tokens max_tokens overlap_tokens s = Some (final, iters)
    /\ (iters <= Z.to_nat (len tokens - ls_start s))%nat
    /\ ls_chunks final
       = chunk_loop tokens max_tokens overlap_tokens
           (ls_start s) (ls_chunks s)
    /\ (0 < max_tokens - overlap_tokens -> len tokens <= ls_start final)
    /\ (max_tokens - overlap_tokens <= 0 ->
        (iters <= 1)%nat
        /\ (length (ls_chunks final) <= 1 + length (ls_chunks s))%nat).
Proof.
  revert s. induction fuel as [|fuel IH]; intros [start chunks] Hfuel;
    cbn [ls_start ls_chunks] in *; [lia|].
  cbn [run_loop]. unfold loop_step. cbn [ls_start ls_chunks].
  destruct (Z.ltb_spec start (len tokens)) as [Hlt|Hge].
  - destruct (Z.leb_spec (max_tokens - overlap_tokens) 0) as [Hle|Hgt].
    + eexists _, _. split; [reflexivity|]. cbn [ls_start ls_chunks].
      rewrite chunk_loop_break by lia.
      repeat apply conj; try lia; try reflexivity.
      intros _. split; [lia|]. unfold append_chunk.
      destruct (truthy _); [rewrite length_app; simpl|]; lia.
    + destruct (IH (LoopState (start + (max_tokens - overlap_tokens))
                      (append_chunk tokens max_tokens start chunks)))
        as (final & iters & Hrun & Hiters & Hchunks & Hpos & Hneg).
      { cbn [ls_start]. lia. }
      cbn [ls_start ls_chunks] in *.
      exists final, (Datatypes.S iters). rewrite Hrun.
      rewrite (chunk_loop_next _ _ _ start) by lia.
      repeat apply conj; try lia; try assumption; reflexivity.
  - eexists _, _. split; [reflexivity|]. cbn [ls_start ls_chunks].
    rewrite chunk_loop_exit by lia.
    repeat apply conj; try lia; reflexivity.
Qed.

(** The validator's copy of the loop computes the same chunks. *)
Lemma validate_chunk_loop_eq tokens max_tokens overlap_tokens start chunks :
  Validate.chunk_loop tokens max_tokens overlap_tokens start chunks
  = chunk_loop tokens max_tokens overlap_tokens start chunks.
Proof.
  remember (Z.to_nat (len tokens - start)) as m eqn:Hm.
  revert start chunks Hm.
  induction m as [m IH] using lt_wf_ind. intros start chunks Hm.
  rewrite Validate.chunk_loop_equation_1.
  destruct (Z_lt_dec start (len tokens)) as [Hlt|Hge].
  - rewrite Validate.chunk_loop_clause_1_equation_1.
    destruct (Z_le_dec (max_tokens - overlap_tokens) 0) as [Hle|Hgt].
    + rewrite Validate.chunk_loop_clause_1_clause_2_equation_1.
      now rewrite chunk_loop_break by lia.
    + rewrite Validate.chunk_loop_clause_1_clause_2_equation_2. cbv zeta.
      rewrite (chunk_loop_next _ _ _ start) by lia.
      apply (IH (Z.to_nat (len tokens
                           - (start + (max_tokens - overlap_tokens)))));
        lia.
  - rewrite Validate.chunk_loop_clause_1_equation_2.
    now rewrite chunk_loop_exit by lia.
Qed.

Lemma validate_chunk_text_by_tokens_eq text max_tokens overlap_tokens :
  Validate.chunk_text_by_tokens text max_tokens overlap_tokens
  = chunk_text_by_tokens text max_tokens overlap_tokens.
Proof.
  unfold Validate.chunk_text_by_tokens, chunk_text_by_tokens.
  destruct (tk_encode text); [|reflexivity].
  now rewrite validate_chunk_loop_eq.
Qed.

(** C8. [chunk_text_by_tokens] terminates for every text and every
    [max_tokens] and [overlap_tokens]: on the tokens of the text, the loop,
    run from [start = 0] with no chunks, is left after at most
    [len(tokens)] executions of its body (any allowance of more passes than
    that gives the same final state), and the chunks it holds then are the
    ones the function returns.  When [max_tokens - overlap_tokens > 0] the
    loop is left with [start >= len(tokens)]; when
    [max_tokens - overlap_tokens <= 0] the body runs at most once and at
    most one chunk is emitted. *)
Theorem C8_chunk_loop_terminates (tokens : list Z)
    (max_tokens overlap_tokens : Z) :
  exists final iters,
    (forall fuel, (length tokens < fuel)%nat ->
       run_loop fuel tokens max_tokens overlap_tokens (LoopState 0 [])
       = Some (final, iters))
    /\ (iters <= length tokens)%nat
    /\ (forall text, tk_encode text = Ok tokens ->
          chunk_text_by_tokens text max_tokens overlap_tokens
          = if len tokens <=? max_tokens then Ok [text]
            else Ok (ls_chunks final))
    /\ (0 < max_tokens - overlap_tokens -> len tokens <= ls_start final)
    /\ (max_tokens - overlap_tokens <= 0 ->
        (iters <= 1)%nat /\ (length (ls_chunks final) <= 1)%nat).
Proof.
  destruct (run_loop_from (Datatypes.S (length tokens)) tokens max_tokens
              overlap_tokens (LoopState 0 []))
    as (final & iters & Hrun & Hiters & Hchunks & Hpos & Hneg).
  { cbn [ls_start]. unfold len. lia. }
  cbn [ls_start ls_chunks] in *. unfold len in Hiters.
  exists final, iters. repeat apply conj; try assumption; try lia.
  - intros fuel Hfuel.
    apply (run_loop_mono (Datatypes.S (length tokens))); [lia | exact Hrun].
  - intros text Henc. unfold chunk_text_by_tokens.
    now rewrite Henc, Hchunks.
Qed.

End Chunker.

(** ** Chunks and their identifiers *)

Section ChunkIds.
Context `{Unicode} `{OsPath} `{Tokenizer}.
Import Upload.

(** C4. A text whose token count is at most [max_tokens] gives exactly one
    chunk, the text itself, in the uploader and in the validator; the
    identifier given to that chunk is [generate_file_id] at chunk index 0,
    the form without suffix. *)
Theorem C4_single_chunk (text : str) (tokens : list Z)
    (max_tokens overlap_tokens : Z) (file_path : str) :
  tk_encode text = Ok tokens ->
  len tokens <= max_tokens ->
  chunk_text_by_tokens text max_tokens overlap_tokens = Ok [text]
  /\ Validate.chunk_text_by_tokens text max_tokens overlap_tokens = Ok [text]
  /\ enumerate [text] = [(0, text)]
  /\ chunk_vid file_path [text] 0 = generate_file_id file_path 0
  /\ Validate.ids_to_check file_path [text]
     = match generate_file_id file_path 0 with
       | Ok vid => Ok [vid]
       | Raise e => Raise e
       end
  /\ forall data, encode_utf8 file_path = Ok data ->
       generate_file_id file_path 0
       = Ok (take 8 (MD5.hexdigest data) ++ lit "_"
             ++ take 50 (List.filter id_char
                           (fst (splitext (basename file_path))))).
Proof.
  intros Henc Hlen.
  unfold chunk_text_by_tokens, Validate.chunk_text_by_tokens. rewrite Henc.
  destruct (Z.leb_spec (len tokens) max_tokens); [|lia].
  repeat apply conj; try reflexivity.
  intros data Hdata.
  now rewrite (generate_file_id_ok file_path data 0) by (assumption || lia).
Qed.

Lemma truthy_nonempty {A} (l : list A) : l <> [] -> truthy l = true.
Proof. destruct l; [congruence | reflexivity]. Qed.

(** The identifier with suffix, for a chunk index [n > 0]. *)
Lemma generate_file_id_chunk (file_path : str) (data : list Z) (n : Z) :
  encode_utf8 file_path = Ok data ->
  0 < n ->
  generate_file_id file_path n
  = Ok ((take 8 (MD5.hexdigest data) ++ lit "_"
         ++ take 50 (List.filter id_char
                       (fst (splitext (basename file_path)))))
        ++ lit "_chunk_" ++ format_03d n).
Proof.
  intros Hdata Hn.
  rewrite (generate_file_id_ok file_path data n) by (assumption || lia).
  unfold file_id_format. destruct (Z.eqb_spec n 0); [lia|].
  now rewrite <- !app_assoc.
Qed.

(** In a document with more than one chunk, the chunk at position
    [chunk_idx] of the list gets chunk index [chunk_idx + 1]. *)
Lemma chunk_vid_many (file_path : str) (chunks : list str) (chunk_idx : Z)
    (data : list Z) :
  encode_utf8 file_path = Ok data ->
  1 < len chunks ->
  0 <= chunk_idx ->
  chunk_vid file_path chunks chunk_idx
  = Ok ((take 8 (MD5.hexdigest data) ++ lit "_"
         ++ take 50 (List.filter id_char
                       (fst (splitext (basename file_path)))))
        ++ lit "_chunk_" ++ format_03d (chunk_idx + 1)).
Proof.
  intros Hdata Hlen Hidx. unfold chunk_vid.
  destruct (Z.gtb_spec (len chunks) 1); [|lia].
  apply generate_file_id_chunk; [assumption | lia].
Qed.

(** With 15000 tokens, [max_tokens = 6000] and [overlap_tokens = 100] the
    loop visits three windows. *)
Lemma windows_15000 (tokens : list Z) :
  len tokens = 15000 ->
  token_windows tokens 6000 100
  = [slice tokens 0 6000; slice tokens 5900 11900; slice tokens 11800 15000].
Proof.
  intros Hlen. unfold token_windows.
  rewrite (windows_from_next _ _ _ 0) by lia.
  rewrite (windows_from_next _ _ _ (0 + (6000 - 100))) by lia.
  rewrite (windows_from_next _ _ _ (0 + (6000 - 100) + (6000 - 100))) by lia.
  rewrite windows_from_exit by lia.
  unfold chunk_tokens_at. rewrite Hlen. reflexivity.
Qed.

(** C5 (as amended). For a text of exactly 15000 tokens, [max_tokens = 6000]
    and [overlap_tokens = 100], the loop visits exactly the token windows
    [0,6000), [5900,11900) and [11800,15000), and the chunks returned are
    the decoded windows, stripped of surrounding whitespace, without those
    that are empty after stripping. When none of the three is empty there
    are exactly 3 chunks, and the identifiers given to them end in
    [_chunk_001], [_chunk_002], [_chunk_003], in that order. *)
Theorem C5_three_windows (text : str) (tokens : list Z) (file_path : str)
    (data : list Z) :
  tk_encode text = Ok tokens ->
  len tokens = 15000 ->
  encode_utf8 file_path = Ok data ->
  let w1 := slice tokens 0 6000 in
  let w2 := slice tokens 5900 11900 in
  let w3 := slice tokens 11800 15000 in
  let c1 := strip (tk_decode w1) in
  let c2 := strip (tk_decode w2) in
  let c3 := strip (tk_decode w3) in
  let base := take 8 (MD5.hexdigest data) ++ lit "_"
              ++ take 50 (List.filter id_char
                            (fst (splitext (basename file_path)))) in
  token_windows tokens 6000 100 = [w1; w2; w3]
  /\ chunk_text_by_tokens text 6000 100 = Ok (chunks_of_windows [w1; w2; w3])
  /\ (c1 <> [] -> c2 <> [] -> c3 <> [] ->
      chunk_text_by_tokens text 6000 100 = Ok [c1; c2; c3]
      /\ enumerate [c1; c2; c3] = [(0, c1); (1, c2); (2, c3)]
      /\ chunk_vid file_path [c1; c2; c3] 0 = Ok (base ++ lit "_chunk_001")
      /\ chunk_vid file_path [c1; c2; c3] 1 = Ok (base ++ lit "_chunk_002")
      /\ chunk_vid file_path [c1; c2; c3] 2 = Ok (base ++ lit "_chunk_003")).
Proof.
  intros Henc Hlen Hdata w1 w2 w3 c1 c2 c3 base.
  assert (Hchunks :
            chunk_text_by_tokens text 6000 100
            = Ok (chunks_of_windows [w1; w2; w3])).
  { unfold chunk_text_by_tokens. rewrite Henc.
    destruct (Z.leb_spec (len tokens) 6000); [lia|].
    rewrite chunk_loop_windows. cbn [app].
    fold (token_windows tokens 6000 100).
    now rewrite windows_15000. }
  repeat apply conj.
  - apply windows_15000, Hlen.
  - exact Hchunks.
  - intros H1' H2' H3'. rewrite Hchunks.
    unfold chunks_of_windows. cbn [flat_map].
    fold c1 c2 c3.
    rewrite !truthy_nonempty by assumption. cbn [app].
    repeat apply conj; try reflexivity.
    all: rewrite (chunk_vid_many file_path _ _ data)
           by (assumption || reflexivity || lia);
      reflexivity.
Qed.

(** Above [max_tokens] tokens, the chunks are those of the windows. *)
Lemma chunk_text_by_tokens_windows (text : str) (tokens : list Z)
    (max_tokens overlap_tokens : Z) :
  tk_encode text = Ok tokens ->
  max_tokens < len tokens ->
  chunk_text_by_tokens text max_tokens overlap_tokens
  = Ok (chunks_of_windows (token_windows tokens max_tokens overlap_tokens)).
Proof.
  intros Henc Hlen. unfold chunk_text_by_tokens. rewrite Henc.
  destruct (Z.leb_spec (len tokens) max_tokens); [lia|].
  now rewrite chunk_loop_windows.
Qed.

(** Two windows in a row start [max_tokens - overlap_tokens] apart. *)
Lemma windows_from_consecutive tokens max_tokens overlap_tokens start i
    (wi wj : list Z) :
  0 <= start ->
  0 < max_tokens - overlap_tokens ->
  windows_from tokens max_tokens overlap_tokens start !! i = Some wi ->
  windows_from tokens max_tokens overlap_tokens start !! Datatypes.S i
  = Some wj ->
  exists s,
    0 <= s /\ s + (max_tokens - overlap_tokens) < len tokens
    /\ wi = chunk_tokens_at tokens max_tokens s
    /\ wj = chunk_tokens_at tokens max_tokens
              (s + (max_tokens - overlap_tokens)).
Proof.
  intros Hstart Hstep. revert start Hstart.
  induction i as [|i IH]; intros start Hstart Hi Hj.
  - destruct (Z_lt_dec start (len tokens)) as [Hlt|Hge].
    2: { rewrite windows_from_exit in Hi by lia. discriminate. }
    rewrite windows_from_next in Hi, Hj by lia.
    cbn [lookup list_lookup] in Hi, Hj.
    destruct (Z_lt_dec (start + (max_tokens - overlap_tokens)) (len tokens))
      as [Hlt'|Hge'].
    2: { rewrite windows_from_exit in Hj by lia. discriminate. }
    rewrite windows_from_next in Hj by lia. cbn in Hj.
    exists start. repeat apply conj; try lia; congruence.
  - destruct (Z_lt_dec start (len tokens)) as [Hlt|Hge].
    2: { rewrite windows_from_exit in Hi by lia. discriminate. }
    rewrite windows_from_next in Hi, Hj by lia.
    apply (IH (start + (max_tokens - overlap_tokens))); [lia | exact Hi
                                                         | exact Hj].
Qed.

Lemma overlap_slices tokens max_tokens overlap_tokens s :
  0 <= s ->
  0 < max_tokens - overlap_tokens ->
  s + (max_tokens - overlap_tokens) < len tokens ->
  overlap_tokens
  <= len (chunk_tokens_at tokens max_tokens
            (s + (max_tokens - overlap_tokens))) ->
  last_tokens overlap_tokens (chunk_tokens_at tokens max_tokens s)
  = first_tokens overlap_tokens
      (chunk_tokens_at tokens max_tokens
         (s + (max_tokens - overlap_tokens))).
Proof.
  intros Hs Hstep Hin Hov. unfold last_tokens, first_tokens.
  destruct (Z_le_dec overlap_tokens 0) as [Hle|Hgt].
  - replace (Z.to_nat overlap_tokens) with 0%nat by lia.
    rewrite Nat.sub_0_r, drop_all. reflexivity.
  - unfold chunk_tokens_at in *.
    rewrite slice_length in Hov by lia.
    rewrite (Z.min_l (s + max_tokens)) by lia.
    rewrite !slice_inside by lia.
    set (step := max_tokens - overlap_tokens) in *.
    rewrite length_take, length_drop.
    rewrite take_take.
    replace (Z.to_nat overlap_tokens
             `min` Z.to_nat ((s + step + max_tokens) `min` len tokens
                             - (s + step)))%nat
      with (Z.to_nat overlap_tokens) by lia.
    replace (Z.to_nat (s + max_tokens - s)
             `min` (length tokens - Z.to_nat s) - Z.to_nat overlap_tokens)%nat
      with (Z.to_nat step) by (unfold len in *; lia).
    replace (Z.to_nat (s + max_tokens - s))
      with (Z.to_nat step + Z.to_nat overlap_tokens)%nat by lia.
    rewrite <- take_drop_commute, drop_drop.
    replace (Z.to_nat s + Z.to_nat step)%nat with (Z.to_nat (s + step))
      by lia.
    reflexivity.
Qed.

(** C6 (as amended). With [overlap_tokens < max_tokens], for two windows in
    a row among the windows the loop visits (the returned chunks are their
    decoded, stripped, non-empty texts), if the later window holds at least
    [overlap_tokens] tokens then the last [overlap_tokens] tokens of the
    earlier window are the first [overlap_tokens] tokens of the later
    one. *)
Theorem C6_overlap_between_windows (tokens : list Z)
    (max_tokens overlap_tokens : Z) (i : nat) (wi wj : list Z) :
  overlap_tokens < max_tokens ->
  token_windows tokens max_tokens overlap_tokens !! i = Some wi ->
  token_windows tokens max_tokens overlap_tokens !! Datatypes.S i = Some wj ->
  overlap_tokens <= len wj ->
  last_tokens overlap_tokens wi = first_tokens overlap_tokens wj.
Proof.
  intros Hlt Hi Hj Hlen. unfold token_windows in *.
  destruct (windows_from_consecutive tokens max_tokens overlap_tokens 0 i
              wi wj) as (s & Hs & Hin & -> & ->); try assumption; try lia.
  apply overlap_slices; assumption || lia.
Qed.

End ChunkIds.

(** ** The embedding client *)

Section Embedding.
Context `{Unicode} `{OsPath} `{Tokenizer} `{Services}.
Import Upload.
Local Open Scope py_scope.

Lemma embedding_attempts_policy (text : str) (s : state) :
  embedding_attempts (range 3) 3 5 text s = retry_policy text s.
Proof.
  change (range 3) with [0; 1; 2]. cbn [embedding_attempts].
  change (0 <? 3 - 1) with true. change (1 <? 3 - 1) with true.
  change (2 <? 3 - 1) with false. cbv iota.
  change (5 * (0 + 1)) with 5. change (5 * (1 + 1)) with 10.
  change (lit " Rate limit hit, waiting " ++ str_of_int 5 ++ lit "s...")
    with (lit " Rate limit hit, waiting 5s...").
  change (lit " Rate limit hit, waiting " ++ str_of_int 10 ++ lit "s...")
    with (lit " Rate limit hit, waiting 10s...").
  change (lit " Embedding error after " ++ str_of_int 3 ++ lit " attempts: ")
    with (lit " Embedding error after 3 attempts: ").
  unfold retry_policy, request, bind, try, call, failure_line, classify,
    print, emit, sleep, ret.
  cbn [st_world st_trace].
  destruct (embeddings_create text EMBEDDING_MODEL (st_world s))
    as [[emb1|e1] w1]; [reflexivity|].
  destruct (contains (lit "429") (exn_msg e1)
            || contains (lit "quota") (lower (exn_msg e1))); cycle 1.
  { destruct (contains (lit "400") (exn_msg e1)
              || contains (lit "maximum context length") (exn_msg e1));
      reflexivity. }
  cbn [st_world st_trace].
  destruct (embeddings_create text EMBEDDING_MODEL (time_sleep 5 w1))
    as [[emb2|e2] w2]; [reflexivity|].
  destruct (contains (lit "429") (exn_msg e2)
            || contains (lit "quota") (lower (exn_msg e2))); cycle 1.
  { destruct (contains (lit "400") (exn_msg e2)
              || contains (lit "maximum context length") (exn_msg e2));
      reflexivity. }
  cbn [st_world st_trace].
  destruct (embeddings_create text EMBEDDING_MODEL (time_sleep 10 w2))
    as [[emb3|e3] w3]; [reflexivity|].
  destruct (contains (lit "429") (exn_msg e3)
            || contains (lit "quota") (lower (exn_msg e3))); cycle 1.
  { destruct (contains (lit "400") (exn_msg e3)
              || contains (lit "maximum context length") (exn_msg e3));
      reflexivity. }
  reflexivity.
Qed.

(** *** What a computation adds to the trace *)

Lemma requests_of_app tr1 tr2 :
  requests_of (tr1 ++ tr2) = requests_of tr1 ++ requests_of tr2.
Proof. unfold requests_of. now rewrite flat_map_app. Qed.

Lemma emits_ret {A} P (a : A) : emits P (ret a).
Proof. intros s. exists []. cbn. now rewrite app_nil_r. Qed.

Lemma emits_lift {A} P (r : result A) : emits P (lift r).
Proof. intros s. exists []. cbn. now rewrite app_nil_r. Qed.

Lemma emits_bind {A B} P (m : M A) (k : A -> M B) :
  emits P m -> (forall a, emits P (k a)) -> emits P (bind m k).
Proof.
  intros Hm Hk s. unfold bind.
  destruct (Hm s) as (new1 & Ht1 & HP1).
  destruct (m s) as [[a|e] s1]; cbn [snd] in *.
  - destruct (Hk a s1) as (new2 & Ht2 & HP2).
    exists (new1 ++ new2). rewrite Ht2, Ht1, app_assoc. split; [reflexivity|].
    rewrite requests_of_app. now apply Forall_app_2.
  - exists new1. now split.
Qed.

Lemma emits_try {A} P (m : M A) : emits P m -> emits P (try m).
Proof.
  intros Hm s. unfold try. destruct (Hm s) as (new & Ht & HP).
  destruct (m s) as [r s1]. exists new. now split.
Qed.

Lemma emits_print P (line : str) : emits P (print line).
Proof. intros s. exists [EvPrint line]. cbn. split; [reflexivity|constructor]. Qed.

Lemma emits_sleep P (n : Z) : emits P (sleep n).
Proof. intros s. exists [EvSleep n]. cbn. split; [reflexivity|constructor]. Qed.

Lemma emits_call {A} P (ev : event) (f : world -> result A * world) :
  Forall P (requests_of [ev]) -> emits P (call ev f).
Proof.
  intros Hev s. unfold call. destruct (f (st_world s)) as [r w].
  exists [ev]. now split.
Qed.

Lemma emits_weaken {A} (P Q : str -> Prop) (m : M A) :
  (forall t, P t -> Q t) -> emits P m -> emits Q m.
Proof.
  intros HPQ Hm s. destruct (Hm s) as (new & Ht & HP).
  exists new. split; [exact Ht|]. eapply Forall_impl; eauto.
Qed.

Ltac emits_step :=
  first [ apply emits_bind; [|intros ?]
        | apply emits_ret | apply emits_lift | apply emits_print
        | apply emits_sleep | apply emits_try
        | apply emits_call; now constructor
        | match goal with
          | |- emits _ (match ?x with _ => _ end) => destruct x eqn:?
          end ].

Ltac emits_auto := repeat emits_step.

(** What the three-attempt policy adds to the trace: one, two or three
    requests for the same text, with a 5 s sleep before the second and a
    10 s sleep before the third. *)
Lemma retry_policy_trace (text : str) (s : state) :
  exists new,
    st_trace (snd (retry_policy text s)) = st_trace s ++ new
    /\ ((requests_of new = [text] /\ sleeps_of new = [])
        \/ (requests_of new = [text; text] /\ sleeps_of new = [5])
        \/ (requests_of new = [text; text; text] /\ sleeps_of new = [5; 10])).
Proof.
  unfold retry_policy, request, bind, try, call, print, emit, sleep, ret.
  cbn [st_world st_trace].
  destruct (embeddings_create text EMBEDDING_MODEL (st_world s))
    as [[emb1|e1] w1].
  { eexists. split; [reflexivity|]. left. now split. }
  destruct (classify e1); cbn [st_world st_trace snd].
  2,3: eexists; split;
    [rewrite <- ?app_assoc; cbn [app]; reflexivity | left; now split].
  destruct (embeddings_create text EMBEDDING_MODEL (time_sleep 5 w1))
    as [[emb2|e2] w2].
  { eexists. split; [rewrite <- ?app_assoc; cbn [app]; reflexivity|].
    right; left. now split. }
  destruct (classify e2); cbn [st_world st_trace snd].
  2,3: eexists; split;
    [rewrite <- ?app_assoc; cbn [app]; reflexivity | right; left; now split].
  destruct (embeddings_create text EMBEDDING_MODEL (time_sleep 10 w2))
    as [[emb3|e3] w3]; cbn [st_world st_trace snd].
  all: eexists; split;
    [rewrite <- ?app_assoc; cbn [app]; reflexivity | right; right; now split].
Qed.

(** The result of the policy is an embedding or [None], never an
    exception. *)
Lemma retry_policy_no_raise (text : str) (s : state) :
  exists r, fst (retry_policy text s) = Ok r.
Proof.
  unfold retry_policy, request, bind, try, call, print, emit, sleep, ret.
  cbn [st_world st_trace].
  destruct (embeddings_create text EMBEDDING_MODEL (st_world s))
    as [[emb1|e1] w1]; [eexists; reflexivity|].
  destruct (classify e1); cbn [st_world st_trace];
    try (eexists; reflexivity).
  destruct (embeddings_create text EMBEDDING_MODEL (time_sleep 5 w1))
    as [[emb2|e2] w2]; [eexists; reflexivity|].
  destruct (classify e2); cbn [st_world st_trace];
    try (eexists; reflexivity).
  destruct (embeddings_create text EMBEDDING_MODEL (time_sleep 10 w2))
    as [[emb3|e3] w3]; eexists; reflexivity.
Qed.

(** C3 (as amended). The retry loop of [get_embedding] is the
    three-attempt policy, the rate-limit signal being looked for first:
    after the token check, [get_embedding] makes attempt 1; on an error
    whose message carries a rate-limit or quota signal (also when it
    carries a context-length signal as well) it waits 5 s and makes
    attempt 2, and on such an error again waits 10 s and makes attempt 3;
    it returns the embedding of the first attempt that succeeds; an error
    without a rate-limit signal (context length, or anything else) ends it
    with [None] at once, and so does any error of attempt 3.  So it makes
    at most 3 requests, all for the same text, and sleeps only 5 s and
    then 10 s. *)
Theorem C3_get_embedding_retry_policy (text : str) (s : state) :
  get_embedding text s
  = (sent <- truncate_to_limit text ;; retry_policy sent) s
  /\ (forall sent s1, exists new,
        st_trace (snd (embedding_attempts (range 3) 3 5 sent s1))
        = st_trace s1 ++ new
        /\ (length (requests_of new) <= 3)%nat
        /\ Forall (eq sent) (requests_of new)
        /\ (sleeps_of new = [] \/ sleeps_of new = [5]
            \/ sleeps_of new = [5; 10])
        /\ length (requests_of new) = Datatypes.S (length (sleeps_of new))).
Proof.
  split.
  - unfold get_embedding, bind.
    destruct (truncate_to_limit text s) as [[sent|e] s1]; [|reflexivity].
    apply embedding_attempts_policy.
  - intros sent s1. rewrite embedding_attempts_policy.
    destruct (retry_policy_trace sent s1) as (new & Ht & Hcases).
    exists new. split; [exact Ht|].
    destruct Hcases as [[Hr Hs]|[[Hr Hs]|[Hr Hs]]]; rewrite Hr, Hs;
      cbn [length]; repeat apply conj; auto 10.
Qed.

(** *** The token limit *)


Lemma truncate_to_limit_emits P text : emits P (truncate_to_limit text).
Proof. unfold truncate_to_limit. emits_auto. Qed.

(** Within the limit, the text is sent as it is. *)
Lemma get_embedding_within_limit text s :
  count_tokens text <= 8190 ->
  get_embedding text s = embedding_attempts (range 3) 3 5 text s.
Proof.
  intros Hle. unfold get_embedding, truncate_to_limit, bind.
  destruct (Z.gtb_spec (count_tokens text) 8190); [lia|]. reflexivity.
Qed.

(** Above the limit, the text sent is the decoded first 8190 tokens. *)
Lemma get_embedding_above_limit text tokens s :
  8190 < count_tokens text ->
  tk_encode text = Ok tokens ->
  get_embedding text s
  = retry_policy (tk_decode (prefix tokens 8190))
      (State (st_world s)
         (st_trace s
          ++ [EvPrint (lit " Warning: Text has "
                         ++ str_of_int (count_tokens text)
                         ++ lit " tokens, truncating...")])).
Proof.
  intros Hgt Henc. unfold get_embedding, truncate_to_limit, bind.
  destruct (Z.gtb_spec (count_tokens text) 8190); [|lia].
  unfold print, emit, lift, ret. rewrite Henc.
  apply embedding_attempts_policy.
Qed.






(** In [upload_text_file] the loop checks the count of a chunk itself,
    before the call of [get_embedding]: a chunk above the limit is skipped
    with a printed line. *)
Lemma upload_chunk_above_limit (text : str) (file_path : str)
    (chunks : list str) (chunk_idx : Z)
    (vectors : list (vector embedding)) (successful_chunks : Z)
    (s : state) :
  8190 < count_tokens text ->
  upload_chunk file_path chunks chunk_idx text vectors successful_chunks s
  = (Ok (vectors, successful_chunks),
     State (st_world s)
       (st_trace s
        ++ [EvPrint (lit "  Chunk " ++ str_of_int (chunk_idx + 1)
                       ++ lit " too large ("
                       ++ str_of_int (count_tokens text)
                       ++ lit " tokens), skipping...")])).
Proof.
  intros Hgt. unfold upload_chunk.
  destruct (Z.eqb_spec (count_tokens text) 0); [lia|].
  destruct (Z.gtb_spec (count_tokens text) 8190); [|lia].
  reflexivity.
Qed.


End Embedding.

(** ** The validator *)

Section Validator.
Context `{Unicode} `{OsPath} `{Tokenizer} `{Services}.
Import Validate.
Local Open Scope py_scope.

(** One validated document: the counters and the trace after it. *)
Lemma validate_file_fetch n_files idx file_path found_count not_found_count
    s text s1 chunks ids r w2 :
  begin_validation n_files idx file_path s = (Ok text, s1) ->
  truthy (strip text) = true ->
  chunk_text_by_tokens text 6000 100 = Ok chunks ->
  ids_to_check file_path chunks = Ok ids ->
  index_fetch ids (st_world s1) = (r, w2) ->
  validate_file n_files idx file_path found_count not_found_count s
  = (Ok (if fetched_any r then (found_count + 1, not_found_count)
         else (found_count, not_found_count + 1)),
     State w2 (st_trace s1
               ++ [EvFetch ids; EvPrint (verdict_line file_path r);
                   EvPrint []])).
Proof.
  intros Hbegin Htext Hchunks Hids Hfetch.
  unfold validate_file, bind at 1. rewrite Hbegin, Htext. cbn [negb].
  unfold bind at 1, lift. rewrite Hchunks.
  unfold bind at 1. rewrite Hids.
  unfold bind at 1, try, call. rewrite Hfetch.
  unfold fetched_any, verdict_line.
  destruct r as [vectors|e].
  - destruct (negb (bool_decide (vectors = ∅)));
      unfold bind, print, emit, ret; cbn [st_world st_trace];
      rewrite <- !app_assoc; reflexivity.
  - unfold bind, print, emit, ret; cbn [st_world st_trace].
    rewrite <- !app_assoc. reflexivity.
Qed.

Lemma fetched_any_true (r : result (gmap str (vector embedding))) :
  fetched_any r = true <-> exists vectors, r = Ok vectors /\ vectors <> ∅.
Proof.
  destruct r as [vectors|e]; cbn [fetched_any].
  - rewrite negb_true_iff, bool_decide_eq_false. split.
    + intros Hne. now exists vectors.
    + intros (v & [= <-] & Hne). exact Hne.
  - split; [discriminate | intros (v & [=] & _)].
Qed.

(** C9. A document that [validate_directory] validates (its text is not
    blank, and chunking and identifier derivation succeed) is counted as
    Found exactly when the fetch of the list of all its expected chunk
    identifiers returns at least one vector; otherwise (no vector, or the
    fetch raised) it is counted as Not Found.  Exactly one of the two
    counters goes up by one, and the loop goes on with the next file. *)
Theorem C9_found_iff_fetch_returns_a_vector
    n_files idx file_path found_count not_found_count
    s text s1 chunks ids r w2 :
  begin_validation n_files idx file_path s = (Ok text, s1) ->
  truthy (strip text) = true ->
  chunk_text_by_tokens text 6000 100 = Ok chunks ->
  ids_to_check file_path chunks = Ok ids ->
  index_fetch ids (st_world s1) = (r, w2) ->
  let found := exists vectors, r = Ok vectors /\ vectors <> ∅ in
  exists found_count' not_found_count' s',
    validate_file n_files idx file_path found_count not_found_count s
    = (Ok (found_count', not_found_count'), s')
    /\ (forall rest,
          validate_files n_files ((idx, file_path) :: rest)
            found_count not_found_count s
          = validate_files n_files rest found_count' not_found_count' s')
    /\ In (EvFetch ids) (st_trace s')
    /\ (found ->
        found_count' = found_count + 1 /\ not_found_count' = not_found_count
        /\ In (EvPrint (lit "  - Found: " ++ basename file_path))
             (st_trace s'))
    /\ (~ found ->
        found_count' = found_count /\ not_found_count' = not_found_count + 1).
Proof.
  intros Hbegin Htext Hchunks Hids Hfetch found.
  pose proof (validate_file_fetch n_files idx file_path found_count
                not_found_count s text s1 chunks ids r w2
                Hbegin Htext Hchunks Hids Hfetch) as Hrun.
  pose proof (fetched_any_true r) as Hany. fold found in Hany.
  destruct (fetched_any r) eqn:Hb.
  - eexists _, _, _. split; [exact Hrun|]. cbn [st_trace].
    split; [intros rest; cbn [validate_files]; unfold bind at 1;
            now rewrite Hrun|].
    split; [apply in_or_app; right; now left|].
    split.
    + intros _. repeat apply conj; try reflexivity.
      apply in_or_app; right. right; left.
      unfold verdict_line. destruct r as [vectors|e]; [|discriminate].
      cbn [fetched_any] in Hb. now rewrite Hb.
    + intros Hnot. exfalso. apply Hnot, Hany. reflexivity.
  - eexists _, _, _. split; [exact Hrun|]. cbn [st_trace].
    split; [intros rest; cbn [validate_files]; unfold bind at 1;
            now rewrite Hrun|].
    split; [apply in_or_app; right; now left|].
    split.
    + intros Hfound. apply Hany in Hfound. discriminate.
    + intros _. split; reflexivity.
Qed.

(** C10. When the fetch raises while a document is validated, the document
    is counted as Not Found, the error is printed, and the loop goes on
    with the next file from the state after the error: the exception does
    not leave [validate_file]. *)
Theorem C10_fetch_error_is_not_found
    n_files idx file_path rest found_count not_found_count
    s text s1 chunks ids e w2 :
  begin_validation n_files idx file_path s = (Ok text, s1) ->
  truthy (strip text) = true ->
  chunk_text_by_tokens text 6000 100 = Ok chunks ->
  ids_to_check file_path chunks = Ok ids ->
  index_fetch ids (st_world s1) = (Raise e, w2) ->
  let s' :=
    State w2 (st_trace s1
              ++ [EvFetch ids;
                  EvPrint (lit "  - Error fetching file: " ++ exn_msg e);
                  EvPrint []]) in
  validate_file n_files idx file_path found_count not_found_count s
  = (Ok (found_count, not_found_count + 1), s')
  /\ validate_files n_files ((idx, file_path) :: rest)
       found_count not_found_count s
     = validate_files n_files rest found_count (not_found_count + 1) s'.
Proof.
  intros Hbegin Htext Hchunks Hids Hfetch s'.
  pose proof (validate_file_fetch n_files idx file_path found_count
                not_found_count s text s1 chunks ids (Raise e) w2
                Hbegin Htext Hchunks Hids Hfetch) as Hrun.
  cbn [fetched_any verdict_line] in Hrun. fold s' in Hrun.
  split; [exact Hrun|].
  cbn [validate_files]. unfold bind at 1. now rewrite Hrun.
Qed.

(** *** The identifiers checked are the identifiers uploaded *)

Lemma range_lookup (n : Z) (i : nat) :
  (i < Z.to_nat n)%nat -> range n !! i = Some (Z.of_nat i).
Proof.
  intros Hi. unfold range.
  rewrite list_lookup_fmap, lookup_seq_lt by exact Hi. reflexivity.
Qed.

Lemma range_length (n : Z) : length (range n) = Z.to_nat n.
Proof. unfold range. now rewrite length_map, length_seq. Qed.

Lemma chunk_ids_lookup file_path indices ids (i : nat) (k : Z) :
  chunk_ids file_path indices = Ok ids ->
  indices !! i = Some k ->
  exists vid, ids !! i = Some vid
              /\ Validate.generate_file_id file_path (k + 1) = Ok vid.
Proof.
  revert ids i. induction indices as [|j rest IH]; intros ids i Hids Hk.
  - discriminate.
  - cbn [chunk_ids] in Hids.
    destruct (Validate.generate_file_id file_path (j + 1)) as [vid|e] eqn:Hj;
      [|discriminate].
    destruct (chunk_ids file_path rest) as [ids'|e] eqn:Hrest;
      [|discriminate].
    injection Hids as <-. destruct i as [|i].
    + injection Hk as <-. exists vid. now split.
    + apply (IH ids' i eq_refl Hk).
Qed.

(** For every chunk position of a document, the identifier the validator
    looks up is the identifier the uploader gives to that chunk. *)
Lemma ids_to_check_are_upload_ids file_path (chunks : list str) ids (i : nat) :
  ids_to_check file_path chunks = Ok ids ->
  (i < length chunks)%nat ->
  exists vid, ids !! i = Some vid
              /\ Upload.chunk_vid file_path chunks (Z.of_nat i) = Ok vid.
Proof.
  intros Hids Hi. unfold ids_to_check in Hids. unfold Upload.chunk_vid.
  destruct (Z.gtb_spec (len chunks) 1) as [Hmany|Hone].
  - apply (chunk_ids_lookup _ _ _ i (Z.of_nat i)) in Hids.
    + exact Hids.
    + apply range_lookup. unfold len. lia.
  - assert (i = 0%nat) as -> by (unfold len in Hone; lia).
    change (Upload.generate_file_id file_path 0)
      with (Validate.generate_file_id file_path 0).
    destruct (Validate.generate_file_id file_path 0) as [vid|e];
      [|discriminate].
    injection Hids as <-. exists vid. now split.
Qed.

(** C1. The identifier derivations of the upload path and of the validation
    path are the same function of the file path and the chunk index: on
    every [file_path] and [chunk_num] they return the same string (or raise
    the same exception).  So, for every chunk position of a document, the
    identifier [validate_directory] looks up is the identifier
    [upload_text_file] gives to that chunk. *)
Theorem C1_generate_file_id_upload_eq_validate (file_path : str)
    (chunk_num : Z) :
  Upload.generate_file_id file_path chunk_num
  = Validate.generate_file_id file_path chunk_num
  /\ forall (chunks : list str) ids (i : nat),
       ids_to_check file_path chunks = Ok ids ->
       (i < length chunks)%nat ->
       exists vid, ids !! i = Some vid
                   /\ Upload.chunk_vid file_path chunks (Z.of_nat i) = Ok vid.
Proof.
  split; [reflexivity|].
  intros chunks ids i. apply ids_to_check_are_upload_ids.
Qed.

End Validator.

(** ** A stored index *)

Section StoredIndex.
Context {E : Type}.

Lemma store_fetch_lookup (store : gmap str (vector E)) (ids : list str)
    (i : str) :
  store_fetch store ids !! i
  = if bool_decide (i ∈ ids) then store !! i else None.
Proof.
  induction ids as [|j ids IH]; cbn [store_fetch foldr].
  - rewrite lookup_empty. now rewrite bool_decide_eq_false_2 by apply not_elem_of_nil.
  - fold (store_fetch store ids).
    destruct (decide (i = j)) as [->|Hne].
    + rewrite bool_decide_eq_true_2 by (apply elem_of_cons; now left).
      destruct (store !! j) as [v|] eqn:Hj.
      * now rewrite lookup_insert_eq.
      * rewrite IH. now destruct (bool_decide (j ∈ ids)).
    + assert (Hmem : bool_decide (i ∈ j :: ids) = bool_decide (i ∈ ids)).
      { apply bool_decide_ext. rewrite elem_of_cons. tauto. }
      rewrite Hmem.
      destruct (store !! j) as [v|]; [rewrite lookup_insert_ne by congruence|];
        exact IH.
Qed.

(** A fetch on a stored index returns a vector as soon as one of the ids is
    stored; it does not need all of them. *)
Lemma store_fetch_nonempty (store : gmap str (vector E)) (ids : list str) :
  store_fetch store ids <> ∅
  <-> exists i, i ∈ ids /\ is_Some (store !! i).
Proof.
  split.
  - intros Hne. apply map_choose in Hne as (i & v & Hi).
    rewrite store_fetch_lookup in Hi.
    destruct (bool_decide (i ∈ ids)) eqn:Hmem; [|discriminate].
    apply bool_decide_eq_true_1 in Hmem. eauto.
  - intros (i & Hmem & [v Hv]) Hempty.
    assert (Hi : store_fetch store ids !! i = Some v).
    { rewrite store_fetch_lookup, bool_decide_eq_true_2 by exact Hmem.
      exact Hv. }
    rewrite Hempty, lookup_empty in Hi. discriminate.
Qed.

End StoredIndex.

(** * Further properties *)

(** ** [str.strip] *)

Section StripFacts.

Lemma lstrip_head (s : str) (c : N) :
  head (lstrip s) = Some c -> isspace c = false.
Proof.
  induction s as [|x s IH]; cbn [lstrip]; [discriminate|].
  destruct (isspace x) eqn:Hx; [exact IH|].
  cbn [head]. now intros [= <-].
Qed.

Lemma lstrip_fixed (s : str) :
  (forall c, head s = Some c -> isspace c = false) -> lstrip s = s.
Proof.
  destruct s as [|x s]; [reflexivity|]. intros Hh. cbn [lstrip].
  now rewrite (Hh x eq_refl).
Qed.

Lemma rstrip_head (s : str) (c : N) :
  isspace c = false -> head s = Some c -> head (rstrip s) = Some c.
Proof.
  destruct s as [|x s]; [discriminate|]. cbn [head]. intros Hc [= ->].
  cbn [rstrip]. destruct (rstrip s); [now rewrite Hc|reflexivity].
Qed.

Lemma rstrip_last (s : str) (c : N) :
  last (rstrip s) = Some c -> isspace c = false.
Proof.
  induction s as [|x s IH]; cbn [rstrip]; [discriminate|].
  destruct (rstrip s) as [|y r] eqn:Hr.
  - destruct (isspace x) eqn:Hx; [discriminate|].
    cbn. now intros [= <-].
  - exact IH.
Qed.

Lemma rstrip_idem (s : str) : rstrip (rstrip s) = rstrip s.
Proof.
  induction s as [|x s IH]; [reflexivity|]. cbn [rstrip].
  destruct (rstrip s) as [|y r] eqn:Hr.
  - destruct (isspace x) eqn:Hx; [reflexivity|].
    cbn [rstrip]. now rewrite Hx.
  - cbn [rstrip]. cbn [rstrip] in IH. rewrite IH. reflexivity.
Qed.

(** A stripped string neither begins nor ends with whitespace, and
    stripping it again changes nothing. *)
Lemma strip_head (s : str) (c : N) :
  head (strip s) = Some c -> isspace c = false.
Proof.
  unfold strip. intros Hh.
  destruct (lstrip s) as [|x t] eqn:Hl; [discriminate|].
  assert (Hx : isspace x = false) by (apply (lstrip_head s); now rewrite Hl).
  rewrite (rstrip_head (x :: t) x Hx eq_refl) in Hh. now injection Hh as <-.
Qed.

Lemma strip_last (s : str) (c : N) :
  last (strip s) = Some c -> isspace c = false.
Proof. unfold strip. apply rstrip_last. Qed.

Lemma strip_idem (s : str) : strip (strip s) = strip s.
Proof.
  unfold strip at 1.
  rewrite (lstrip_fixed (strip s)) by apply strip_head.
  unfold strip. apply rstrip_idem.
Qed.

End StripFacts.

(** ** More on the chunker *)

Section ChunkerMore.
Context `{Tokenizer}.
Import Upload.

Lemma chunks_of_windows_stripped (ws : list (list Z)) :
  Forall (fun c => c <> [] /\ strip c = c) (chunks_of_windows ws).
Proof.
  unfold chunks_of_windows. induction ws as [|w ws IH]; cbn [flat_map].
  - constructor.
  - destruct (strip (tk_decode w)) as [|x t] eqn:Hs; cbn [truthy app].
    + exact IH.
    + constructor; [|exact IH]. split; [discriminate|].
      rewrite <- Hs. apply strip_idem.
Qed.

(** X1. When a text has more tokens than [max_tokens], none of the chunks
    [chunk_text_by_tokens] returns is empty, and none begins or ends with
    whitespace (stripping a chunk again leaves it as it is). *)
Theorem X1_chunks_nonempty_and_stripped (text : str) (tokens : list Z)
    (max_tokens overlap_tokens : Z) (chunks : list str) :
  tk_encode text = Ok tokens ->
  max_tokens < len tokens ->
  chunk_text_by_tokens text max_tokens overlap_tokens = Ok chunks ->
  Forall (fun c =>
            c <> [] /\ strip c = c
            /\ (forall x, head c = Some x -> isspace x = false)
            /\ (forall x, last c = Some x -> isspace x = false)) chunks.
Proof.
  intros Henc Hlen Hchunks.
  rewrite (chunk_text_by_tokens_windows text tokens) in Hchunks
    by assumption.
  injection Hchunks as <-.
  eapply Forall_impl; [apply chunks_of_windows_stripped|].
  intros c [Hne Hst]. repeat apply conj; try assumption.
  - intros x. rewrite <- Hst. apply strip_head.
  - intros x. rewrite <- Hst. apply strip_last.
Qed.

Lemma chunk_tokens_at_length tokens max_tokens start :
  0 < max_tokens -> 0 <= start < len tokens ->
  len (chunk_tokens_at tokens max_tokens start)
  = Z.min max_tokens (len tokens - start).
Proof.
  intros Hmax Hs. unfold chunk_tokens_at.
  rewrite slice_length by lia. lia.
Qed.

Lemma windows_from_bounds tokens max_tokens overlap_tokens start :
  0 < max_tokens -> 0 <= start ->
  Forall (fun w => 1 <= len w <= max_tokens)
    (windows_from tokens max_tokens overlap_tokens start).
Proof.
  intros Hmax. remember (Z.to_nat (len tokens - start)) as m eqn:Hm.
  revert start Hm. induction m as [m IH] using lt_wf_ind.
  intros start Hm Hstart.
  destruct (Z_lt_dec start (len tokens)) as [Hlt|Hge].
  - assert (Hw : 1 <= len (chunk_tokens_at tokens max_tokens start)
                 <= max_tokens)
      by (rewrite chunk_tokens_at_length by lia; lia).
    destruct (Z_le_dec (max_tokens - overlap_tokens) 0) as [Hle|Hgt].
    + rewrite windows_from_break by lia. repeat constructor; lia.
    + rewrite windows_from_next by lia. constructor; [lia|].
      apply (IH (Z.to_nat (len tokens
                           - (start + (max_tokens - overlap_tokens)))));
        lia.
  - rewrite windows_from_exit by lia. constructor.
Qed.

(** X2. With [max_tokens > 0], every token window the loop decodes holds at
    least one and at most [max_tokens] tokens. *)
Theorem X2_window_size_bounds (tokens : list Z)
    (max_tokens overlap_tokens : Z) :
  0 < max_tokens ->
  Forall (fun w => 1 <= len w <= max_tokens)
    (token_windows tokens max_tokens overlap_tokens).
Proof. intros Hmax. apply windows_from_bounds; lia. Qed.

Lemma windows_from_cover tokens max_tokens overlap_tokens start :
  0 <= overlap_tokens < max_tokens -> 0 <= start ->
  flat_map (take (Z.to_nat (max_tokens - overlap_tokens)))
    (windows_from tokens max_tokens overlap_tokens start)
  = drop (Z.to_nat start) tokens.
Proof.
  intros Hov. remember (Z.to_nat (len tokens - start)) as m eqn:Hm.
  revert start Hm. induction m as [m IH] using lt_wf_ind.
  intros start Hm Hstart.
  destruct (Z_lt_dec start (len tokens)) as [Hlt|Hge].
  - rewrite windows_from_next by lia. cbn [flat_map].
    rewrite (IH (Z.to_nat (len tokens
                           - (start + (max_tokens - overlap_tokens)))))
      by lia.
    unfold chunk_tokens_at. rewrite slice_inside by lia.
    rewrite take_take.
    set (step := max_tokens - overlap_tokens) in *.
    replace (Z.to_nat (start + step))
      with (Z.to_nat start + Z.to_nat step)%nat by lia.
    rewrite <- drop_drop.
    set (rest := drop (Z.to_nat start) tokens).
    assert (Hrest : length rest = Z.to_nat (len tokens - start))
      by (subst rest; rewrite length_drop; unfold len; lia).
    destruct (Z_le_dec (start + max_tokens) (len tokens)) as [Hfull|Hshort].
    + rewrite Z.min_l by lia.
      replace (Z.to_nat step `min` Z.to_nat (start + max_tokens - start))%nat
        with (Z.to_nat step) by lia.
      apply take_drop.
    + rewrite Z.min_r by lia.
      destruct (Z_le_dec step (len tokens - start)) as [Hs|Hs].
      * replace (Z.to_nat step `min` Z.to_nat (len tokens - start))%nat
          with (Z.to_nat step) by lia.
        apply take_drop.
      * replace (Z.to_nat step `min` Z.to_nat (len tokens - start))%nat
          with (Z.to_nat (len tokens - start)) by lia.
        rewrite take_ge by lia. rewrite drop_ge by lia.
        apply app_nil_r.
  - rewrite windows_from_exit by lia. cbn [flat_map].
    rewrite drop_ge by (unfold len in *; lia). reflexivity.
Qed.

(** X3. With [0 <= overlap_tokens < max_tokens] no token is lost: the first
    [max_tokens - overlap_tokens] tokens of each window, put one after the
    other, are the token list of the text. *)
Theorem X3_windows_cover_all_tokens (tokens : list Z)
    (max_tokens overlap_tokens : Z) :
  0 <= overlap_tokens < max_tokens ->
  flat_map (take (Z.to_nat (max_tokens - overlap_tokens)))
    (token_windows tokens max_tokens overlap_tokens)
  = tokens.
Proof.
  intros Hov. unfold token_windows.
  rewrite windows_from_cover by lia. reflexivity.
Qed.

Lemma windows_from_count tokens max_tokens overlap_tokens start :
  0 < max_tokens - overlap_tokens ->
  length (windows_from tokens max_tokens overlap_tokens start)
  = Z.to_nat ((len tokens - start + (max_tokens - overlap_tokens) - 1)
              / (max_tokens - overlap_tokens)).
Proof.
  intros Hstep. remember (Z.to_nat (len tokens - start)) as m eqn:Hm.
  revert start Hm. induction m as [m IH] using lt_wf_ind.
  intros start Hm. set (step := max_tokens - overlap_tokens) in *.
  destruct (Z_lt_dec start (len tokens)) as [Hlt|Hge].
  - rewrite windows_from_next by lia. cbn [length]. fold step.
    rewrite (IH (Z.to_nat (len tokens - (start + step)))) by lia.
    replace (len tokens - start + step - 1)
      with (len tokens - (start + step) + step - 1 + 1 * step) by lia.
    rewrite Z.div_add by lia.
    assert (0 <= (len tokens - (start + step) + step - 1) / step)
      by (apply Z.div_pos; lia).
    lia.
  - rewrite windows_from_exit by lia. cbn [length].
    assert ((len tokens - start + step - 1) / step <= 0).
    { apply Z.lt_succ_r. apply Z.div_lt_upper_bound; lia. }
    lia.
Qed.

Lemma chunks_of_windows_length (ws : list (list Z)) :
  (length (chunks_of_windows ws) <= length ws)%nat.
Proof.
  unfold chunks_of_windows. induction ws as [|w ws IH]; cbn [flat_map length].
  - lia.
  - rewrite length_app. destruct (truthy _); cbn [length]; lia.
Qed.

(** X4. With [max_tokens - overlap_tokens > 0] the loop decodes exactly
    [ceil(len(tokens) / (max_tokens - overlap_tokens))] windows, so a text
    with more than [max_tokens] tokens gives at most that many chunks. *)
Theorem X4_window_count (text : str) (tokens : list Z)
    (max_tokens overlap_tokens : Z) (chunks : list str) :
  0 < max_tokens - overlap_tokens ->
  tk_encode text = Ok tokens ->
  max_tokens < len tokens ->
  chunk_text_by_tokens text max_tokens overlap_tokens = Ok chunks ->
  let step := max_tokens - overlap_tokens in
  len (token_windows tokens max_tokens overlap_tokens)
  = (len tokens + step - 1) / step
  /\ len chunks <= (len tokens + step - 1) / step.
Proof.
  intros Hstep Henc Hlen Hchunks step.
  rewrite (chunk_text_by_tokens_windows text tokens) in Hchunks
    by assumption.
  injection Hchunks as <-.
  pose proof (chunks_of_windows_length
                (token_windows tokens max_tokens overlap_tokens)) as Hle.
  unfold token_windows, len in *.
  rewrite windows_from_count in * by lia. fold step in Hle |- *.
  fold (len tokens) in *. rewrite Z.sub_0_r in *.
  assert (0 <= (len tokens + step - 1) / step)
    by (apply Z.div_pos; unfold len; lia).
  lia.
Qed.

(** X5. The validator's [chunk_text_by_tokens] returns what the uploader's
    returns, on every text and every [max_tokens] and [overlap_tokens]; its
    defaults (6000, 100) are the uploader's [MAX_TOKENS] and
    [OVERLAP_TOKENS]. *)
Theorem X5_validator_chunks_as_uploader (text : str)
    (max_tokens overlap_tokens : Z) :
  Validate.chunk_text_by_tokens text max_tokens overlap_tokens
  = chunk_text_by_tokens text max_tokens overlap_tokens
  /\ Validate.chunk_text_by_tokens text 6000 100
     = chunk_text_by_tokens text MAX_TOKENS OVERLAP_TOKENS.
Proof. split; apply validate_chunk_text_by_tokens_eq. Qed.

End ChunkerMore.

(** ** More on the identifiers *)

Section IdentifierMore.
Context `{Unicode} `{OsPath}.

Lemma Ok_inj {A} (a b : A) : Ok a = Ok b -> a = b.
Proof. now intros [= ->]. Qed.

Lemma generate_file_id_encodable (file_path : str) (n : Z) (vid : str) :
  Upload.generate_file_id file_path n = Ok vid ->
  exists data, encode_utf8 file_path = Ok data.
Proof.
  unfold Upload.generate_file_id.
  destruct (encode_utf8 file_path) as [data|e]; [eauto | discriminate].
Qed.

(** The only exception [generate_file_id] raises. *)
Lemma generate_file_id_raises (file_path : str) (n : Z) (e : pyexn) :
  Upload.generate_file_id file_path n = Raise e -> e = UnicodeEncodeError.
Proof.
  unfold Upload.generate_file_id.
  destruct (encode_utf8 file_path) as [data|e'] eqn:Henc.
  - destruct (n >? 0); discriminate.
  - intros [= <-]. clear n. induction file_path as [|c s IH]; [discriminate|].
    cbn [encode_utf8] in Henc. destruct (utf8_char c); [|congruence].
    destruct (encode_utf8 s); [discriminate|]. injection Henc as ->.
    now apply IH.
Qed.

Lemma generate_file_id_inj (file_path : str) (n m : Z) (vid : str) :
  0 <= n -> 0 <= m ->
  Upload.generate_file_id file_path n = Ok vid ->
  Upload.generate_file_id file_path m = Ok vid ->
  n = m.
Proof.
  intros Hn Hm Hidn Hidm.
  destruct (generate_file_id_encodable _ _ _ Hidn) as [data Hdata].
  rewrite (generate_file_id_ok file_path data) in Hidn, Hidm
    by assumption.
  rewrite <- Hidm in Hidn. injection Hidn as Heq. clear Hidm.
  unfold file_id_format in Heq.
  destruct (Z.eqb_spec n 0) as [->|Hn0], (Z.eqb_spec m 0) as [->|Hm0].
  - reflexivity.
  - exfalso. do 2 apply app_inv_head in Heq.
    rewrite <- (app_nil_r (take 50 _)) in Heq at 1.
    apply app_inv_head in Heq. discriminate.
  - exfalso. do 2 apply app_inv_head in Heq.
    rewrite <- (app_nil_r (take 50 _)) in Heq at 2.
    apply app_inv_head in Heq. discriminate.
  - do 4 apply app_inv_head in Heq.
    pose proof (int_of_str_format_03d n Hn) as Hin.
    rewrite Heq, int_of_str_format_03d in Hin by exact Hm.
    now injection Hin.
Qed.

(** X6. For one file path, different chunk indices (from 0 on) never give
    the same identifier: if [generate_file_id] returns the same string for
    [n] and [m], then [n = m]. *)
Theorem X6_identifier_determines_chunk_index (file_path : str) (n m : Z)
    (vid : str) :
  0 <= n -> 0 <= m ->
  Upload.generate_file_id file_path n = Ok vid ->
  Upload.generate_file_id file_path m = Ok vid ->
  n = m.
Proof. apply generate_file_id_inj. Qed.

Lemma chunk_ids_length file_path indices ids :
  Validate.chunk_ids file_path indices = Ok ids ->
  length ids = length indices.
Proof.
  revert ids. induction indices as [|j rest IH]; intros ids Hids;
    cbn [Validate.chunk_ids] in Hids.
  - now injection Hids as <-.
  - destruct (Validate.generate_file_id file_path (j + 1)); [|discriminate].
    destruct (Validate.chunk_ids file_path rest) as [ids'|]; [|discriminate].
    injection Hids as <-. cbn [length]. now rewrite (IH ids').
Qed.

Lemma ids_to_check_distinct (file_path : str) (chunks : list str)
    (ids : list str) :
  Validate.ids_to_check file_path chunks = Ok ids ->
  NoDup ids /\ length ids = Nat.max 1 (length chunks).
Proof.
  unfold Validate.ids_to_check. intros Hids.
  destruct (Z.gtb_spec (len chunks) 1) as [Hmany|Hone].
  - pose proof (chunk_ids_length _ _ _ Hids) as Hlen.
    rewrite range_length in Hlen. unfold len in *. split; [|lia].
    apply NoDup_alt. intros i j vid Hi Hj.
    assert (Hi' : (i < Z.to_nat (Z.of_nat (length chunks)))%nat)
      by (apply lookup_lt_Some in Hi; lia).
    assert (Hj' : (j < Z.to_nat (Z.of_nat (length chunks)))%nat)
      by (apply lookup_lt_Some in Hj; lia).
    destruct (chunk_ids_lookup file_path _ ids i (Z.of_nat i) Hids
                (range_lookup _ _ Hi')) as (vi & Hvi & Hgi).
    destruct (chunk_ids_lookup file_path _ ids j (Z.of_nat j) Hids
                (range_lookup _ _ Hj')) as (vj & Hvj & Hgj).
    assert (vi = vid) as -> by congruence.
    assert (vj = vid) as -> by congruence.
    assert (Z.of_nat i + 1 = Z.of_nat j + 1); [|lia].
    apply (generate_file_id_inj file_path _ _ vid); (lia || assumption).
  - destruct (Validate.generate_file_id file_path 0) as [vid|];
      [|discriminate].
    injection Hids as <-. split; [apply NoDup_singleton|].
    unfold len in Hone. cbn [length]. lia.
Qed.

(** X7. The list of identifiers [validate_directory] fetches for a document
    has one entry per chunk (a single entry when there is at most one
    chunk) and no identifier twice. *)
Theorem X7_ids_to_check_distinct (file_path : str) (chunks : list str)
    (ids : list str) :
  Validate.ids_to_check file_path chunks = Ok ids ->
  NoDup ids /\ length ids = Nat.max 1 (length chunks).
Proof. apply ids_to_check_distinct. Qed.

Lemma is_hex_id_char (c : N) : is_hex c = true -> id_char c = true.
Proof.
  unfold is_hex, id_char, isalnum, ascii_isalnum.
  rewrite !orb_true_iff, !andb_true_iff, !N.leb_le. intros Hc.
  destruct (N.ltb_spec c 128); [|lia].
  rewrite !orb_true_iff, !andb_true_iff, !Z.leb_le. lia.
Qed.

Lemma digit_id_char (c : N) : (48 <= c <= 57)%N -> id_char c = true.
Proof.
  unfold id_char, isalnum, ascii_isalnum. intros Hc.
  destruct (N.ltb_spec c 128); [|lia].
  rewrite !orb_true_iff, !andb_true_iff, !Z.leb_le. lia.
Qed.

Lemma uint_digits_are_digits (d : Decimal.uint) :
  Forall (fun c => (48 <= c <= 57)%N) (uint_digits d).
Proof. induction d; cbn [uint_digits]; constructor; (lia || assumption). Qed.

Lemma format_03d_id_chars (n : Z) :
  Forall (fun c => id_char c = true) (format_03d n).
Proof.
  assert (Hd : forall k, Forall (fun c => id_char c = true) (digits k)).
  { intros k. eapply Forall_impl; [apply uint_digits_are_digits|].
    apply digit_id_char. }
  assert (Hz : forall w k,
             Forall (fun c => id_char c = true) (zero_pad w (digits k))).
  { intros w k. unfold zero_pad. apply Forall_app_2; [|apply Hd].
    apply Forall_forall. intros c Hc.
    apply list_elem_of_In, repeat_spec in Hc. subst c. reflexivity. }
  unfold format_03d. destruct (n <? 0); [constructor|]; auto.
Qed.

(** Below 1000 the chunk number takes exactly three characters. *)
Lemma format_03d_three (n : Z) : 0 <= n < 1000 -> length (format_03d n) = 3%nat.
Proof.
  intros Hn.
  assert (Hall : forallb (fun k => (length (format_03d (Z.of_nat k)) =? 3)%nat)
                   (seq 0 1000) = true) by (vm_compute; reflexivity).
  rewrite forallb_forall in Hall.
  specialize (Hall (Z.to_nat n)). rewrite Z2Nat.id in Hall by lia.
  apply Nat.eqb_eq, Hall, in_seq. lia.
Qed.

(** X8. An identifier returned by [generate_file_id] contains only
    alphanumeric characters, '-' and '_'.  It has at least 9 characters,
    at most 59 for chunk index 0, and at most 69 for chunk indices from 1
    to 999. *)
Theorem X8_identifier_alphabet_and_length (file_path : str) (n : Z)
    (vid : str) :
  0 <= n < 1000 ->
  Upload.generate_file_id file_path n = Ok vid ->
  Forall (fun c => id_char c = true) vid
  /\ (9 <= length vid <= 69)%nat
  /\ (n = 0 -> (length vid <= 59)%nat).
Proof.
  intros Hn Hid.
  destruct (generate_file_id_encodable _ _ _ Hid) as [data Hdata].
  rewrite (generate_file_id_ok file_path data) in Hid by (assumption || lia).
  apply Ok_inj in Hid. subst vid.
  set (file_hash := take 8 (MD5.hexdigest data)).
  set (stem := take 50 (List.filter id_char _)).
  assert (Hh : length file_hash = 8%nat)
    by (subst file_hash; rewrite length_take, hexdigest_length; reflexivity).
  assert (Hs : (length stem <= 50)%nat)
    by (subst stem; rewrite length_take; lia).
  assert (Hhc : Forall (fun c => id_char c = true) file_hash).
  { subst file_hash. apply Forall_take.
    eapply Forall_impl; [apply hexdigest_is_hex|]. apply is_hex_id_char. }
  assert (Hsc : Forall (fun c => id_char c = true) stem).
  { subst stem. apply Forall_take, Forall_forall. intros c Hc.
    apply list_elem_of_In, filter_In in Hc. tauto. }
  unfold file_id_format. destruct (Z.eqb_spec n 0) as [->|Hn0].
  - repeat apply conj.
    + apply Forall_app_2; [exact Hhc|]. apply Forall_app_2; [|exact Hsc].
      repeat constructor.
    + rewrite !length_app, Hh. cbn [lit length]. cbn. lia.
    + rewrite !length_app, Hh. cbn. lia.
    + intros _. rewrite !length_app, Hh. cbn. lia.
  - pose proof (format_03d_three n Hn) as Hf. repeat apply conj.
    + apply Forall_app_2; [exact Hhc|]. apply Forall_app_2; [repeat constructor|].
      apply Forall_app_2; [exact Hsc|].
      apply Forall_app_2; [repeat constructor | apply format_03d_id_chars].
    + rewrite !length_app, Hh. cbn. lia.
    + rewrite !length_app, Hh, Hf. cbn. lia.
    + intros ->. lia.
Qed.

End IdentifierMore.

(** ** A logic for traces *)

Section TraceLogic.
Context `{Services}.

Lemma wp_ret {A} (a : A) (post : list event -> result A -> Prop) :
  post [] (Ok a) -> wp (ret a) post.
Proof. intros Hp s. exists []. cbn. now rewrite app_nil_r. Qed.

Lemma wp_lift {A} (r : result A) (post : list event -> result A -> Prop) :
  post [] r -> wp (lift r) post.
Proof. intros Hp s. exists []. cbn. now rewrite app_nil_r. Qed.

Lemma wp_print (line : str) (post : list event -> result unit -> Prop) :
  post [EvPrint line] (Ok tt) -> wp (print line) post.
Proof. intros Hp s. exists [EvPrint line]. now split. Qed.

Lemma wp_sleep (n : Z) (post : list event -> result unit -> Prop) :
  post [EvSleep n] (Ok tt) -> wp (sleep n) post.
Proof. intros Hp s. exists [EvSleep n]. now split. Qed.

Lemma wp_call {A} (ev : event) (f : world -> result A * world)
    (post : list event -> result A -> Prop) :
  (forall r, post [ev] r) -> wp (call ev f) post.
Proof.
  intros Hp s. unfold call. destruct (f (st_world s)) as [r w].
  exists [ev]. split; [reflexivity | apply Hp].
Qed.

Lemma wp_try {A} (m : M A) (post : list event -> result (result A) -> Prop) :
  wp m (fun new r => post new (Ok r)) -> wp (try m) post.
Proof.
  intros Hm s. unfold try. destruct (Hm s) as (new & Ht & Hp).
  destruct (m s) as [r s1]. exists new. now split.
Qed.

Lemma wp_bind {A B} (m : M A) (k : A -> M B)
    (post : list event -> result B -> Prop) :
  wp m (fun new1 r1 =>
          match r1 with
          | Ok a => wp (k a) (fun new2 r => post (new1 ++ new2) r)
          | Raise e => post new1 (Raise e)
          end) ->
  wp (bind m k) post.
Proof.
  intros Hm s. unfold bind. destruct (Hm s) as (new1 & Ht1 & Hp1).
  destruct (m s) as [[a|e] s1]; cbn [fst snd] in *.
  - destruct (Hp1 s1) as (new2 & Ht2 & Hp2).
    exists (new1 ++ new2). rewrite Ht2, Ht1, app_assoc. now split.
  - exists new1. now split.
Qed.

Lemma wp_mono {A} (m : M A) (post post' : list event -> result A -> Prop) :
  wp m post -> (forall new r, post new r -> post' new r) -> wp m post'.
Proof.
  intros Hm Himp s. destruct (Hm s) as (new & Ht & Hp).
  exists new. split; [exact Ht | now apply Himp].
Qed.

(** Sequencing with a proved specification of the first part. *)
Lemma wp_bind_with {A B} (m : M A) (k : A -> M B)
    (spec : list event -> result A -> Prop)
    (post : list event -> result B -> Prop) :
  wp m spec ->
  (forall new1 a, spec new1 (Ok a) ->
                  wp (k a) (fun new2 r => post (new1 ++ new2) r)) ->
  (forall new1 e, spec new1 (Raise e) -> post new1 (Raise e)) ->
  wp (bind m k) post.
Proof.
  intros Hm Hok Hraise. apply wp_bind. eapply wp_mono; [exact Hm|].
  intros new1 [a|e] Hs; [now apply Hok | now apply Hraise].
Qed.


End TraceLogic.

(** ** Reading the file *)

Section Extract.
Context `{Unicode} `{OsPath} `{Tokenizer} `{Services}.
Local Open Scope py_scope.

Lemma reads_of_app (tr1 tr2 : list event) :
  reads_of (tr1 ++ tr2) = reads_of tr1 ++ reads_of tr2.
Proof. unfold reads_of. now rewrite flat_map_app. Qed.

Lemma upserts_of_app (tr1 tr2 : list event) :
  upserts_of (tr1 ++ tr2) = upserts_of tr1 ++ upserts_of tr2.
Proof. unfold upserts_of. now rewrite flat_map_app. Qed.

Lemma fetches_of_app (tr1 tr2 : list event) :
  fetches_of (tr1 ++ tr2) = fetches_of tr1 ++ fetches_of tr2.
Proof. unfold fetches_of. now rewrite flat_map_app. Qed.

Lemma sleeps_of_app (tr1 tr2 : list event) :
  sleeps_of (tr1 ++ tr2) = sleeps_of tr1 ++ sleeps_of tr2.
Proof. unfold sleeps_of. now rewrite flat_map_app. Qed.

Lemma quiet_app (tr1 tr2 : list event) :
  quiet tr1 -> quiet tr2 -> quiet (tr1 ++ tr2).
Proof. apply Forall_app_2. Qed.

Lemma quiet_silent (tr : list event) :
  quiet tr ->
  requests_of tr = [] /\ upserts_of tr = [] /\ fetches_of tr = []
  /\ sleeps_of tr = [].
Proof.
  induction 1 as [|ev tr Hev _ IH]; [now repeat split|].
  destruct ev; try contradiction; exact IH.
Qed.

Lemma reads_prefix_cons file_path enc rest new :
  reads_prefix file_path rest new ->
  reads_prefix file_path (enc :: rest) (EvRead file_path enc :: new).
Proof.
  intros (Hq & k & Hk & _ & Hr). split; [now constructor|].
  exists (Datatypes.S k). cbn [length take List.map reads_of flat_map app].
  fold (reads_of new). rewrite Hr. repeat split; (lia || reflexivity).
Qed.

Lemma reads_prefix_stop file_path enc rest new :
  quiet new -> reads_of new = [] ->
  reads_prefix file_path (enc :: rest) (EvRead file_path enc :: new).
Proof.
  intros Hq Hr. split; [now constructor|].
  exists 1%nat. cbn [length take List.map reads_of flat_map app].
  fold (reads_of new). rewrite Hr, take_0.
  repeat split; (lia || reflexivity).
Qed.

Lemma upload_reads file_path encs :
  wp (Upload.read_with_encodings file_path encs)
    (fun new _ => reads_prefix file_path encs new).
Proof.
  induction encs as [|enc rest IH]; cbn [Upload.read_with_encodings].
  - apply wp_ret. split; [constructor|]. exists 0%nat.
    repeat split; (lia || congruence || reflexivity).
  - apply wp_bind, wp_try, wp_call. intros [text|e].
    + apply wp_bind, wp_print, wp_ret.
      apply reads_prefix_stop; [repeat constructor | reflexivity].
    + destruct (String.eqb _ _).
      * eapply wp_mono; [exact IH|]. intros new r.
        apply reads_prefix_cons.
      * apply wp_lift.
        apply reads_prefix_stop; [repeat constructor | reflexivity].
Qed.

Lemma validate_reads file_path encs :
  wp (Validate.read_with_encodings file_path encs)
    (fun new _ => reads_prefix file_path encs new).
Proof.
  induction encs as [|enc rest IH]; cbn [Validate.read_with_encodings].
  - apply wp_ret. split; [constructor|]. exists 0%nat.
    repeat split; (lia || congruence || reflexivity).
  - apply wp_bind, wp_try, wp_call. intros [text|e].
    + apply wp_ret.
      apply reads_prefix_stop; [repeat constructor | reflexivity].
    + destruct (String.eqb _ _).
      * eapply wp_mono; [exact IH|]. intros new r.
        apply reads_prefix_cons.
      * apply wp_lift.
        apply reads_prefix_stop; [repeat constructor | reflexivity].
Qed.

Lemma reads_prefix_snoc_prints file_path new prints :
  reads_prefix file_path encodings new ->
  quiet prints -> reads_of prints = [] ->
  quiet (new ++ prints)
  /\ exists k, (1 <= k <= 4)%nat
               /\ reads_of (new ++ prints)
                  = List.map (pair file_path) (take k encodings).
Proof.
  intros (Hq & k & Hk & Hk1 & Hr) Hp Hrp. split; [now apply quiet_app|].
  exists k. rewrite reads_of_app, Hr, Hrp, app_nil_r.
  split; [|reflexivity]. cbn [encodings length] in Hk.
  split; [apply Hk1; discriminate | exact Hk].
Qed.

Lemma upload_extract_spec file_path :
  wp (Upload.extract_text_from_file file_path) (extract_spec file_path).
Proof.
  unfold Upload.extract_text_from_file.
  apply wp_bind, wp_print, wp_bind, wp_try.
  eapply wp_mono; [apply upload_reads|]. intros new r Hreads.
  fold encodings in Hreads.
  assert (Hall : forall text prints,
             quiet prints -> reads_of prints = [] ->
             extract_spec file_path
               ([EvPrint (lit " Extracting text from file...")]
                  ++ new ++ prints) (Ok text)).
  { intros text prints Hp Hrp.
    destruct (reads_prefix_snoc_prints file_path new prints Hreads Hp Hrp)
      as (Hq & Hk).
    split; [eauto|]. split; [constructor; [exact I | exact Hq] | exact Hk]. }
  destruct r as [[text|]|e].
  - apply wp_ret. apply (Hall text []); [constructor | reflexivity].
  - apply wp_bind, wp_print, wp_ret. rewrite app_nil_r.
    apply Hall; [repeat constructor | reflexivity].
  - apply wp_bind, wp_print, wp_ret. rewrite app_nil_r.
    apply Hall; [repeat constructor | reflexivity].
Qed.

Lemma validate_extract_spec file_path :
  wp (Validate.extract_text_from_file file_path) (extract_spec file_path).
Proof.
  unfold Validate.extract_text_from_file.
  apply wp_bind, wp_try.
  eapply wp_mono; [apply validate_reads|]. intros new r Hreads.
  fold encodings in Hreads.
  assert (Hall : forall text, extract_spec file_path (new ++ []) (Ok text)).
  { intros text.
    destruct (reads_prefix_snoc_prints file_path new [] Hreads)
      as (Hq & Hk); [constructor | reflexivity |].
    split; [eauto|]. now split. }
  destruct r as [[text|]|e]; apply wp_ret, Hall.
Qed.

(** X9. [extract_text_from_file] (of the uploader and of the validator)
    never raises: it always returns a text.  It reads the file with
    utf-8, utf-16, latin-1, cp1252 in that order, stopping at some point
    after the first and at the latest after the fourth read, and apart
    from these reads it only prints. *)
Theorem X9_extract_never_raises (file_path : str) :
  wp (Upload.extract_text_from_file file_path) (extract_spec file_path)
  /\ wp (Validate.extract_text_from_file file_path)
       (extract_spec file_path).
Proof.
  split; [apply upload_extract_spec | apply validate_extract_spec].
Qed.

Lemma read_with_encodings_agree file_path encs w tr tr' :
  fst (Upload.read_with_encodings file_path encs (State w tr))
  = fst (Validate.read_with_encodings file_path encs (State w tr'))
  /\ st_world (snd (Upload.read_with_encodings file_path encs (State w tr)))
     = st_world
         (snd (Validate.read_with_encodings file_path encs (State w tr'))).
Proof.
  revert w tr tr'. induction encs as [|enc rest IH]; intros w tr tr'.
  - now split.
  - cbn [Upload.read_with_encodings Validate.read_with_encodings].
    unfold bind, try, call. cbn [st_world st_trace].
    destruct (open_read file_path enc w) as [[text|e] w1].
    + now split.
    + destruct (String.eqb _ _); [apply IH | now split].
Qed.

Lemma extract_agree file_path w tr tr' :
  fst (Upload.extract_text_from_file file_path (State w tr))
  = fst (Validate.extract_text_from_file file_path (State w tr'))
  /\ st_world (snd (Upload.extract_text_from_file file_path (State w tr)))
     = st_world
         (snd (Validate.extract_text_from_file file_path (State w tr'))).
Proof.
  unfold Upload.extract_text_from_file, Validate.extract_text_from_file.
  unfold bind at 1, print, emit. cbn [st_world st_trace].
  unfold bind, try.
  pose proof (read_with_encodings_agree file_path
                [lit "utf-8"; lit "utf-16"; lit "latin-1"; lit "cp1252"]
                w (tr ++ [EvPrint (lit " Extracting text from file...")])
                tr') as [Hr Hw].
  destruct (Upload.read_with_encodings file_path _ _) as [r1 s1].
  destruct (Validate.read_with_encodings file_path _ _) as [r2 s2].
  cbn [fst snd] in Hr, Hw. subst r2.
  destruct r1 as [[text|]|e]; cbn; now split.
Qed.

(** X10. On the same file system, the uploader's and the validator's
    [extract_text_from_file] return the same text and leave the same
    world; they differ only in what they print. *)
Theorem X10_extract_same_text (file_path : str) (w : world)
    (tr tr' : list event) :
  fst (Upload.extract_text_from_file file_path (State w tr))
  = fst (Validate.extract_text_from_file file_path (State w tr'))
  /\ st_world (snd (Upload.extract_text_from_file file_path (State w tr)))
     = st_world
         (snd (Validate.extract_text_from_file file_path (State w tr'))).
Proof. apply extract_agree. Qed.

(** The text returned is [file_text], whatever the trace so far. *)
Lemma upload_extract_text file_path s :
  fst (Upload.extract_text_from_file file_path s)
  = Ok (file_text file_path (st_world s)).
Proof.
  destruct s as [w tr]. cbn [st_world]. unfold file_text.
  destruct (extract_agree file_path w tr []) as [-> _].
  destruct (extract_agree file_path w [] []) as [-> _].
  destruct (validate_extract_spec file_path (State w []))
    as (new & _ & (text & ->) & _).
  reflexivity.
Qed.

Lemma validate_extract_text file_path s :
  fst (Validate.extract_text_from_file file_path s)
  = Ok (file_text file_path (st_world s)).
Proof.
  destruct s as [w tr].
  destruct (extract_agree file_path w [] tr) as [<- _].
  apply (upload_extract_text file_path (State w [])).
Qed.

End Extract.

(** ** Exceptions of the embedding client *)

Section EmbeddingMore.
Context `{Unicode} `{OsPath} `{Tokenizer} `{Services}.
Import Upload.
Local Open Scope py_scope.

Lemma get_embedding_truncation_raises text e s :
  8190 < count_tokens text ->
  tk_encode text = Raise e ->
  get_embedding text s
  = (Raise e,
     State (st_world s)
       (st_trace s
        ++ [EvPrint (lit " Warning: Text has "
                       ++ str_of_int (count_tokens text)
                       ++ lit " tokens, truncating...")])).
Proof.
  intros Hgt Henc. unfold get_embedding, truncate_to_limit, bind.
  destruct (Z.gtb_spec (count_tokens text) 8190); [|lia].
  unfold print, emit, lift. now rewrite Henc.
Qed.

Lemma get_embedding_raise_cases text s e :
  fst (get_embedding text s) = Raise e ->
  8190 < count_tokens text /\ tk_encode text = Raise e.
Proof.
  intros Hraise.
  destruct (Z_le_dec (count_tokens text) 8190) as [Hle|Hgt].
  - rewrite get_embedding_within_limit, embedding_attempts_policy in Hraise
      by exact Hle.
    destruct (retry_policy_no_raise text s) as [r Hr]. congruence.
  - destruct (tk_encode text) as [tokens|e'] eqn:Henc.
    + rewrite (get_embedding_above_limit text tokens) in Hraise
        by (lia || assumption).
      match type of Hraise with
      | fst (retry_policy ?t ?s1) = _ =>
          destruct (retry_policy_no_raise t s1) as [r Hr]
      end. congruence.
    + rewrite (get_embedding_truncation_raises text e') in Hraise
        by (lia || assumption).
      cbn [fst] in Hraise. split; [lia | congruence].
Qed.

(** X11. [get_embedding] raises only in one case: the text has more than
    8190 tokens and [tokenizer.encode(text)] raises during the truncation;
    the exception is the tokenizer's, and no request has been made.  No
    failure of the embedding service ever leaves [get_embedding] as an
    exception. *)
Theorem X11_get_embedding_raises_iff (text : str) (s : state) (e : pyexn) :
  (fst (get_embedding text s) = Raise e
   <-> 8190 < count_tokens text /\ tk_encode text = Raise e)
  /\ (fst (get_embedding text s) = Raise e ->
      requests_of (st_trace (snd (get_embedding text s)))
      = requests_of (st_trace s)).
Proof.
  split; [split|].
  - apply get_embedding_raise_cases.
  - intros [Hgt Henc].
    now rewrite (get_embedding_truncation_raises text e) by assumption.
  - intros Hraise. apply get_embedding_raise_cases in Hraise as [Hgt Henc].
    rewrite (get_embedding_truncation_raises text e) by assumption.
    cbn [snd st_trace]. rewrite requests_of_app. cbn.
    now rewrite app_nil_r.
Qed.

End EmbeddingMore.

(** ** Uploading one file *)

Section UploadFile.
Context `{Unicode} `{OsPath} `{Tokenizer} `{Services}.
Import Upload.
Local Open Scope py_scope.

Ltac wp_step :=
  first [ apply wp_bind | apply wp_try | apply wp_print | apply wp_sleep
        | apply wp_ret | apply wp_lift | (apply wp_call; intros ?) ].

Lemma upserted_count_app (tr1 tr2 : list event) :
  upserted_count (tr1 ++ tr2) = upserted_count tr1 + upserted_count tr2.
Proof.
  unfold upserted_count, len. rewrite upserts_of_app, concat_app, length_app.
  lia.
Qed.

Lemma opened_app (tr1 tr2 : list event) :
  opened (tr1 ++ tr2) = opened tr1 ++ opened tr2.
Proof.
  unfold opened. now rewrite reads_of_app, List.filter_app, List.map_app.
Qed.

Lemma opened_no_reads (tr : list event) : reads_of tr = [] -> opened tr = [].
Proof. unfold opened. now intros ->. Qed.

Lemma count_tokens_nonneg (text : str) : 0 <= count_tokens text.
Proof.
  unfold count_tokens.
  destruct (tk_encode_ordinary text); unfold len;
    [lia | apply Z.div_pos; lia].
Qed.

(** The retry loop sends nothing to the index, reads no file, and never
    raises. *)
Lemma embedding_attempts_spec attempts max_retries retry_delay text :
  wp (embedding_attempts attempts max_retries retry_delay text)
     (fun new r => upserts_of new = [] /\ reads_of new = []
                   /\ exists o, r = Ok o).
Proof.
  induction attempts as [|attempt rest IH]; cbn [embedding_attempts].
  - wp_step. now eauto.
  - wp_step. wp_step. wp_step. destruct r as [emb|e].
    + wp_step. now eauto.
    + destruct (_ || _).
      * destruct (_ <? _).
        -- wp_step. wp_step. wp_step. wp_step.
           eapply wp_mono; [exact IH|].
           intros new r (Hu & Hr & Ho).
           rewrite !upserts_of_app, !reads_of_app, Hu, Hr. now eauto.
        -- wp_step. wp_step. wp_step. now eauto.
      * destruct (_ || _); wp_step; wp_step; wp_step; now eauto.
Qed.

Lemma get_embedding_spec text :
  count_tokens text <= 8190 ->
  wp (get_embedding text)
     (fun new r => upserts_of new = [] /\ reads_of new = []
                   /\ exists o, r = Ok o).
Proof.
  intros Hc. unfold get_embedding, truncate_to_limit.
  destruct (Z.gtb_spec (count_tokens text) 8190) as [Hgt|_]; [lia|].
  wp_step. wp_step. apply embedding_attempts_spec.
Qed.

Lemma vectors_of_nil file_path chunks items :
  vectors_of file_path chunks items [].
Proof. exists []. split; [apply sublist_nil_l | constructor]. Qed.

Lemma vectors_of_app file_path chunks items1 items2 vs1 vs2 :
  vectors_of file_path chunks items1 vs1 ->
  vectors_of file_path chunks items2 vs2 ->
  vectors_of file_path chunks (items1 ++ items2) (vs1 ++ vs2).
Proof.
  intros (p1 & Hs1 & Hv1) (p2 & Hs2 & Hv2). exists (p1 ++ p2).
  split; [now apply sublist_app | now apply Forall2_app].
Qed.

(** A step of the loop that adds no vector. *)
Lemma loop_spec_skip file_path chunks items vectors k new :
  len vectors < BATCH_SIZE ->
  upserts_of new = [] -> reads_of new = [] ->
  loop_spec file_path chunks items vectors k new (Ok (vectors, k)).
Proof.
  intros Hlen Hu Hr. unfold loop_spec. rewrite Hu, Hr.
  split; [reflexivity|]. split; [constructor|].
  exists [], vectors. split; [apply vectors_of_nil|].
  cbn. rewrite app_nil_r. repeat split; [exact Hlen | unfold len; cbn; lia].
Qed.

(** Two parts of the loop, one after the other. *)
Lemma loop_spec_seq file_path chunks items1 items2 vectors k new1 vectors' k'
    new2 r :
  loop_spec file_path chunks items1 vectors k new1 (Ok (vectors', k')) ->
  loop_spec file_path chunks items2 vectors' k' new2 r ->
  loop_spec file_path chunks (items1 ++ items2) vectors k (new1 ++ new2) r.
Proof.
  intros (Hr1 & Hb1 & a1 & p1 & Hv1 & Hc1 & -> & Hl1 & ->)
         (Hr2 & Hb2 & a2 & p2 & Hv2 & Hc2 & Hres).
  unfold loop_spec. rewrite reads_of_app, upserts_of_app, Hr1, Hr2.
  split; [reflexivity|]. split; [now apply Forall_app_2|].
  exists (a1 ++ a2), p2. split; [now apply vectors_of_app|].
  split.
  - rewrite concat_app, <- app_assoc, Hc2, !app_assoc, Hc1. reflexivity.
  - destruct r as [[v2 k2]|e]; [|exact Hres].
    destruct Hres as (-> & Hl2 & ->). repeat split; [exact Hl2|].
    unfold len. rewrite length_app. lia.
Qed.

(** One iteration of the loop. *)
Lemma upload_chunk_spec file_path chunks chunk_idx chunk vectors k :
  len vectors < BATCH_SIZE ->
  wp (upload_chunk file_path chunks chunk_idx chunk vectors k)
     (loop_spec file_path chunks [(chunk_idx, chunk)] vectors k).
Proof.
  intros Hlen. unfold upload_chunk.
  pose proof (count_tokens_nonneg chunk) as Hnn.
  assert (Hskip : forall line new1,
            upserts_of new1 = [] -> reads_of new1 = [] ->
            wp (print line ;; ret (vectors, k))
               (fun new2 r =>
                  loop_spec file_path chunks [(chunk_idx, chunk)] vectors k
                    (new1 ++ new2) r)).
  { intros line new1 Hu Hr. wp_step. wp_step. wp_step.
    apply loop_spec_skip; [exact Hlen | |].
    - now rewrite upserts_of_app, Hu.
    - now rewrite reads_of_app, Hr. }
  destruct (Z.eqb_spec (count_tokens chunk) 0) as [Hz|Hz];
    [now apply (Hskip _ [])|].
  destruct (Z.gtb_spec (count_tokens chunk) 8190) as [Hbig|Hsmall];
    [now apply (Hskip _ [])|].
  eapply wp_bind_with; [apply get_embedding_spec; lia | | ].
  - intros new1 emb (Hu & Hr & _). destruct emb as [emb|];
      [|now apply Hskip].
    apply wp_bind, wp_lift.
    destruct (chunk_vid file_path chunks chunk_idx) as [vid|e] eqn:Hvid.
    + set (v := Vector vid emb _).
      assert (Hv : vectors_of file_path chunks [(chunk_idx, chunk)] [v]).
      { exists [(chunk_idx, chunk)]. split; [reflexivity|].
        constructor; [|constructor]. unfold item_vector; cbn [fst snd v_id v_metadata v].
        repeat split; first [assumption | lia]. }
      assert (Hlen' : len (vectors ++ [v]) = len vectors + 1).
      { unfold len. rewrite length_app. cbn. lia. }
      unfold BATCH_SIZE in Hlen.
      destruct (Z.geb_spec (len (vectors ++ [v])) BATCH_SIZE) as [Hfull|Hroom];
        unfold BATCH_SIZE in Hfull || unfold BATCH_SIZE in Hroom.
      * wp_step. wp_step. wp_step.
        assert (Hsent : forall line,
                  wp (print line ;; ret ([] : list (vector embedding), k + 1))
                     (fun new2 r0 =>
                        loop_spec file_path chunks [(chunk_idx, chunk)]
                          vectors k
                          (new1 ++ [] ++ [EvUpsert (vectors ++ [v])] ++ new2)
                          r0)).
        { intros line. wp_step. wp_step. wp_step. unfold loop_spec.
          rewrite !upserts_of_app, !reads_of_app, Hu, Hr. cbn.
          split; [reflexivity|]. split.
          - constructor; [unfold BATCH_SIZE; lia | constructor].
          - exists [v], []. split; [exact Hv|]. rewrite !app_nil_r.
            repeat split; try (unfold BATCH_SIZE, len in *; cbn; lia). }
        destruct r; apply Hsent.
      * wp_step. unfold loop_spec.
        rewrite !upserts_of_app, !reads_of_app, Hu, Hr. cbn.
        split; [reflexivity|]. split; [constructor|].
        exists [v], (vectors ++ [v]). split; [exact Hv|].
        repeat split; try (unfold BATCH_SIZE, len in *; cbn; lia).
    + unfold loop_spec. rewrite app_nil_r, Hu, Hr.
      split; [reflexivity|]. split; [constructor|].
      exists [], vectors. split; [apply vectors_of_nil|].
      split; [cbn; now rewrite app_nil_r|].
      unfold chunk_vid in Hvid. destruct (_ >? _); eauto.
  - intros new1 e (_ & _ & o & Ho). discriminate.
Qed.

(** The whole loop. *)
Lemma upload_chunks_spec file_path chunks items : forall vectors k,
  len vectors < BATCH_SIZE ->
  wp (upload_chunks file_path chunks items vectors k)
     (loop_spec file_path chunks items vectors k).
Proof.
  induction items as [|[chunk_idx chunk] rest IH]; intros vectors k Hlen;
    cbn [upload_chunks].
  - wp_step. now apply loop_spec_skip.
  - eapply wp_bind_with; [now apply upload_chunk_spec | | ].
    + intros new1 [vectors' k'] Hs1. cbn beta iota.
      eapply wp_mono; [apply IH|].
      * now destruct Hs1 as (_ & _ & a & p & _ & _ & -> & Hl & _).
      * intros new2 r Hs2.
        apply (loop_spec_seq _ _ [(chunk_idx, chunk)] rest _ _ _ _ _ _ _
                 Hs1 Hs2).
    + intros new1 e (Hr1 & Hb1 & a & p & Hv & Hc & Hres).
      split; [exact Hr1|]. split; [exact Hb1|].
      exists a, p. split; [|now split].
      destruct Hv as (picked & Hsub & Hv). exists picked.
      split; [|exact Hv].
      change ((chunk_idx, chunk) :: rest) with ([(chunk_idx, chunk)] ++ rest).
      rewrite <- (app_nil_r picked).
      apply sublist_app; [exact Hsub | apply sublist_nil_l].
Qed.

Lemma wpw_of_wp {A} (m : M A)
    (post : world -> list event -> result A -> Prop) :
  (forall w, wp m (post w)) -> wpw m post.
Proof. intros Hm s. exact (Hm (st_world s) s). Qed.

Lemma wpw_mono {A} (m : M A)
    (post post' : world -> list event -> result A -> Prop) :
  wpw m post -> (forall w new r, post w new r -> post' w new r) ->
  wpw m post'.
Proof.
  intros Hm Himp s. destruct (Hm s) as (new & Ht & Hp).
  exists new. split; [exact Ht | now apply Himp].
Qed.

Lemma wpw_conj {A} (m : M A)
    (post1 post2 : world -> list event -> result A -> Prop) :
  wpw m post1 -> wpw m post2 ->
  wpw m (fun w new r => post1 w new r /\ post2 w new r).
Proof.
  intros Hm1 Hm2 s. destruct (Hm1 s) as (new1 & Ht1 & Hp1).
  destruct (Hm2 s) as (new2 & Ht2 & Hp2).
  rewrite Ht1 in Ht2. apply app_inv_head in Ht2. subst new2.
  exists new1. now repeat split.
Qed.

Lemma wpw_forget {A} (m : M A)
    (post : world -> list event -> result A -> Prop)
    (post' : list event -> result A -> Prop) :
  wpw m post -> (forall w new r, post w new r -> post' new r) -> wp m post'.
Proof.
  intros Hm Himp s. destruct (Hm s) as (new & Ht & Hp).
  exists new. split; [exact Ht | now apply (Himp (st_world s))].
Qed.

Lemma wpw_print_then {B} (line : str) (k : unit -> M B)
    (post : world -> list event -> result B -> Prop) :
  wpw (k tt) (fun w new r => post w ([EvPrint line] ++ new) r) ->
  wpw (bind (print line) k) post.
Proof.
  intros Hk [w tr]. unfold bind, print, emit. cbn [st_world st_trace].
  destruct (Hk (State w (tr ++ [EvPrint line]))) as (new & Ht & Hp).
  exists ([EvPrint line] ++ new). cbn [st_world st_trace] in *.
  rewrite Ht, <- app_assoc. now split.
Qed.

Lemma wpw_upload_extract {B} (file_path : str) (k : str -> M B)
    (post : world -> list event -> result B -> Prop) :
  (forall w new1,
     extract_spec file_path new1 (Ok (file_text file_path w)) ->
     wp (k (file_text file_path w))
        (fun new2 r => post w (new1 ++ new2) r)) ->
  wpw (bind (Upload.extract_text_from_file file_path) k) post.
Proof.
  intros Hk s. destruct (upload_extract_spec file_path s) as (new1 & Ht & Hs).
  pose proof (upload_extract_text file_path s) as Htext. unfold bind.
  destruct (Upload.extract_text_from_file file_path s) as [r1 s1].
  cbn [fst snd] in *. subst r1.
  destruct (Hk _ _ Hs s1) as (new2 & Ht2 & Hp).
  exists (new1 ++ new2). rewrite Ht2, Ht, app_assoc. now split.
Qed.

Lemma extract_spec_opened file_path new r :
  extract_spec file_path new r ->
  opened new = [file_path]
  /\ requests_of new = [] /\ upserts_of new = [] /\ fetches_of new = []
  /\ sleeps_of new = [].
Proof.
  intros (_ & Hq & k & Hk & Hr). split; [|now apply quiet_silent].
  unfold opened. rewrite Hr.
  destruct k as [|[|[|[|[|]]]]]; try lia; reflexivity.
Qed.

Lemma generate_file_id_ok_raise file_path n m vid e :
  generate_file_id file_path n = Ok vid ->
  generate_file_id file_path m = Raise e -> False.
Proof.
  unfold generate_file_id. destruct (encode_utf8 file_path); [|discriminate].
  intros _. destruct (m >? 0); discriminate.
Qed.

Lemma vectors_of_ok file_path chunks items vs v :
  vectors_of file_path chunks items vs -> In v vs ->
  exists n, generate_file_id file_path n = Ok (v_id v).
Proof.
  intros (picked & _ & Hv) Hin.
  induction Hv as [|item v' picked vs Hitem _ IH]; [contradiction|].
  destruct Hin as [->|Hin]; [|now apply IH].
  destruct Hitem as (Hid & _). unfold chunk_vid in Hid.
  destruct (_ >? _); eauto.
Qed.

Lemma no_batches (batches : list (list (vector embedding))) :
  Forall (fun vs => 1 <= len vs <= BATCH_SIZE) batches ->
  concat batches = [] -> batches = [].
Proof.
  intros Hb Hc. destruct batches as [|vs rest]; [reflexivity|].
  apply Forall_inv in Hb. cbn in Hc. apply app_eq_nil in Hc as [-> _].
  unfold len in Hb. cbn in Hb. lia.
Qed.

(** The upload of the vectors left after the loop. *)
Lemma flush_spec (vectors : list (vector embedding)) :
  wp (if truthy vectors then
        r <- try (call (EvUpsert vectors) (index_upsert vectors)) ;;
        match r with
        | Ok _ =>
            print (lit "  " ++ [0x2192%N] ++ lit " Uploaded "
                     ++ str_of_int (len vectors) ++ lit " vectors")
        | Raise e => print (lit "  Upload error: " ++ exn_msg e)
        end
      else ret tt)
     (fun new r =>
        r = Ok tt /\ reads_of new = []
        /\ upserts_of new = (if truthy vectors then [vectors] else [])).
Proof.
  destruct (truthy vectors).
  - wp_step. wp_step. wp_step. destruct r; wp_step; now repeat split.
  - wp_step. now repeat split.
Qed.

Lemma upserts_of_print line : upserts_of [EvPrint line] = [].
Proof. reflexivity. Qed.

Lemma opened_print line : opened [EvPrint line] = [].
Proof. reflexivity. Qed.

(** [upload_text_file] meets [file_spec]. *)
Lemma upload_text_file_spec file_path :
  wpw (upload_text_file file_path) (file_spec file_path).
Proof.
  unfold upload_text_file. apply wpw_print_then, wpw_upload_extract.
  intros w new1 Hex.
  destruct (extract_spec_opened _ _ _ Hex) as (Ho & _ & Hu & _).
  unfold file_spec. cbn zeta.
  set (text := file_text file_path w).
  destruct (negb (truthy (strip text))) eqn:Hblank.
  - wp_step.
    rewrite !opened_app, !upserts_of_app, !upserts_of_print, !opened_print,
      Ho, Hu.
    repeat split; [constructor|].
    rewrite !app_assoc. apply last_snoc.
  - wp_step. wp_step. wp_step. wp_step.
    destruct (chunk_text_by_tokens text MAX_TOKENS OVERLAP_TOKENS)
      as [chunks|e] eqn:Hch.
    + wp_step. wp_step.
      eapply wp_bind_with;
        [apply upload_chunks_spec; unfold BATCH_SIZE, len; cbn; lia | |].
      * intros new3 [pending k']
          (Hr3 & Hb3 & added & pending' & Hv & Hc & -> & Hl & ->).
        cbn beta iota.
        eapply wp_bind_with; [apply flush_spec | |].
        -- intros newf [] (_ & Hrf & Huf). wp_step.
           assert (Hall : concat (upserts_of new3
                                    ++ (if truthy pending' then [pending']
                                        else []))
                          = added).
           { cbn [app] in Hc. rewrite concat_app, <- Hc. f_equal.
             destruct pending'; cbn; [reflexivity | now rewrite app_nil_r]. }
           match goal with
           | |- opened ?t = _ /\ _ =>
               assert (Hups : upserts_of t
                              = upserts_of new3
                                  ++ (if truthy pending' then [pending']
                                      else []))
                 by (rewrite !upserts_of_app, !upserts_of_print, Hu, Huf;
                     cbn [app]; now rewrite ?app_nil_r);
               assert (Hop : opened t = [file_path])
                 by (rewrite !opened_app, !opened_print, Ho,
                       (opened_no_reads _ Hr3), (opened_no_reads _ Hrf);
                     reflexivity)
           end.
           unfold upserted_count. rewrite Hups, Hop, Hall.
           split; [reflexivity|]. split; [|split].
           ++ apply Forall_app_2; [exact Hb3|].
              destruct pending' as [|v vs]; cbn [truthy]; constructor;
                [|constructor].
              unfold BATCH_SIZE, len in *. cbn [length] in *. lia.
           ++ exact Hv.
           ++ unfold completed_line. rewrite Z.add_0_l.
              rewrite !app_assoc. apply last_snoc.
        -- intros newf e (Hf & _). discriminate.
      * intros new3 e (Hr3 & Hb3 & added & pending & Hv & Hc & n & Hn).
        assert (Hadded : added = []).
        { destruct added as [|v vs]; [reflexivity|]. exfalso.
          destruct (vectors_of_ok _ _ _ _ v Hv) as (m & Hm); [now left|].
          exact (generate_file_id_ok_raise _ _ _ _ _ Hm Hn). }
        subst added. cbn [app] in Hc. apply app_eq_nil in Hc as [Hc _].
        apply (no_batches _ Hb3) in Hc.
        rewrite !opened_app, !upserts_of_app, !upserts_of_print,
          !opened_print, Ho, Hu, (opened_no_reads _ Hr3), Hc.
        repeat split; [constructor|].
        unfold generate_file_id in Hn.
        destruct (encode_utf8 file_path) as [data|e'];
          [destruct (n >? 0); discriminate | now injection Hn as ->].
    + rewrite !opened_app, !upserts_of_app, !upserts_of_print,
        !opened_print, Ho, Hu.
      repeat split; constructor.
Qed.

(** *** The reads of one file *)

Lemma extract_spec_reads file_path new r :
  extract_spec file_path new r -> reads_file file_path (reads_of new).
Proof. intros (_ & _ & k & Hk & Hr). now exists k. Qed.

Lemma reads_file_frame file_path (before mid after : list event) :
  reads_of before = [] -> reads_file file_path (reads_of mid) ->
  reads_of after = [] ->
  reads_file file_path (reads_of (before ++ mid ++ after)).
Proof.
  intros Hb Hm Ha. now rewrite !reads_of_app, Hb, Ha, app_nil_r.
Qed.


(** *** What the specification gives *)

Lemma combine_zip {A B} (l : list A) (k : list B) : combine l k = zip l k.
Proof.
  revert k. induction l as [|x l IH]; intros [|y k]; cbn; try reflexivity.
Qed.

Lemma enumerate_lookup {A} (l : list A) (i : nat) (z : Z) (c : A) :
  enumerate l !! i = Some (z, c) <-> z = Z.of_nat i /\ l !! i = Some c.
Proof.
  unfold enumerate. rewrite combine_zip, lookup_zip_with_Some. split.
  - intros (x & y & Heq & Hx & Hy). injection Heq as -> ->.
    split; [|exact Hy]. apply lookup_lt_Some in Hy.
    rewrite range_lookup in Hx by (unfold len; lia). congruence.
  - intros [-> Hc]. exists (Z.of_nat i), c. repeat split; [|exact Hc].
    apply lookup_lt_Some in Hc. apply range_lookup. unfold len. lia.
Qed.

Lemma enumerate_length {A} (l : list A) : length (enumerate l) = length l.
Proof.
  unfold enumerate. rewrite length_combine, range_length. unfold len. lia.
Qed.

Lemma ids_to_check_enumerate file_path chunks ids :
  Validate.ids_to_check file_path chunks = Ok ids -> chunks <> [] ->
  Forall2 (fun item vid => chunk_vid file_path chunks (fst item) = Ok vid)
    (enumerate chunks) ids.
Proof.
  intros Hids Hne. apply Forall2_same_length_lookup_2.
  - rewrite enumerate_length.
    destruct (ids_to_check_distinct _ _ _ Hids) as [_ ->].
    destruct chunks; [contradiction | cbn [length]; lia].
  - intros i [z c] vid Hi Hv. apply enumerate_lookup in Hi as [-> Hc].
    apply lookup_lt_Some in Hc.
    destruct (ids_to_check_are_upload_ids _ _ _ i Hids Hc)
      as (vid' & Hv' & Hcv).
    cbn [fst]. congruence.
Qed.

Lemma picked_ids_sublist file_path chunks items ids picked vs :
  Forall2 (fun item vid => chunk_vid file_path chunks (fst item) = Ok vid)
    items ids ->
  sublist picked items ->
  Forall2 (item_vector file_path chunks) picked vs ->
  sublist (List.map v_id vs) ids.
Proof.
  intros Hids Hsub. revert ids Hids vs.
  induction Hsub as [|item l1 l2 Hsub IH|item l1 l2 Hsub IH];
    intros ids Hids vs Hv.
  - apply Forall2_nil_inv_l in Hv as ->. apply sublist_nil_l.
  - apply Forall2_cons_inv_l in Hids as (vid & ids' & Hid & Hids & ->).
    apply Forall2_cons_inv_l in Hv as (v & vs' & (Hvid & _) & Hv & ->).
    cbn [List.map]. assert (v_id v = vid) as -> by congruence.
    apply sublist_skip. now apply IH.
  - apply Forall2_cons_inv_l in Hids as (vid & ids' & Hid & Hids & ->).
    apply sublist_cons. now apply IH.
Qed.

(** The identifiers of the vectors of a document are a subsequence of the
    identifiers the validator checks for it. *)
Lemma vectors_of_ids_sublist file_path chunks ids vs :
  Validate.ids_to_check file_path chunks = Ok ids ->
  vectors_of file_path chunks (enumerate chunks) vs ->
  sublist (List.map v_id vs) ids.
Proof.
  intros Hids (picked & Hsub & Hv). destruct chunks as [|c chunks].
  - apply sublist_nil_r in Hsub as ->. apply Forall2_nil_inv_l in Hv as ->.
    apply sublist_nil_l.
  - eapply picked_ids_sublist; [|exact Hsub|exact Hv].
    now apply ids_to_check_enumerate.
Qed.

Lemma ids_to_check_ok file_path chunks n vid :
  generate_file_id file_path n = Ok vid ->
  exists ids, Validate.ids_to_check file_path chunks = Ok ids.
Proof.
  intros Hn.
  assert (Hgen : forall m, exists v,
                   Validate.generate_file_id file_path m = Ok v).
  { intros m. unfold generate_file_id in Hn.
    unfold Validate.generate_file_id.
    destruct (encode_utf8 file_path); [|discriminate].
    destruct (m >? 0); eauto. }
  unfold Validate.ids_to_check. destruct (_ >? _).
  - induction (range (len chunks)) as [|i rest IH]; cbn [Validate.chunk_ids];
      [eauto|].
    destruct (Hgen (i + 1)) as [v ->]. destruct IH as [ids ->]. eauto.
  - destruct (Hgen 0) as [v ->]. eauto.
Qed.

Lemma vectors_of_NoDup file_path chunks vs :
  vectors_of file_path chunks (enumerate chunks) vs ->
  NoDup (List.map v_id vs).
Proof.
  intros Hv. destruct vs as [|v vs]; [constructor|].
  destruct (vectors_of_ok _ _ _ _ v Hv) as (n & Hn); [now left|].
  destruct (ids_to_check_ok file_path chunks n _ Hn) as [ids Hids].
  pose proof (vectors_of_ids_sublist _ _ _ _ Hids Hv) as Hsub.
  pose proof (ids_to_check_distinct _ _ _ Hids) as [Hnd _].
  eapply sublist_NoDup; eassumption.
Qed.

(** The two cases of [file_spec] for the vectors sent. *)
Lemma file_spec_vectors file_path w new r chunks :
  file_spec file_path w new r ->
  chunk_text_by_tokens (file_text file_path w) MAX_TOKENS OVERLAP_TOKENS
  = Ok chunks ->
  vectors_of file_path chunks (enumerate chunks) (concat (upserts_of new)).
Proof.
  intros (_ & _ & Hcase) Hch. cbn zeta in Hcase. rewrite Hch in Hcase.
  destruct (negb _).
  - destruct Hcase as (_ & -> & _). apply vectors_of_nil.
  - destruct r as [[]|e]; [apply Hcase|].
    destruct Hcase as (_ & ->). apply vectors_of_nil.
Qed.

Lemma file_spec_no_chunks file_path w new r e :
  file_spec file_path w new r ->
  chunk_text_by_tokens (file_text file_path w) MAX_TOKENS OVERLAP_TOKENS
  = Raise e ->
  upserts_of new = [].
Proof.
  intros (_ & _ & Hcase) Hch. cbn zeta in Hcase. rewrite Hch in Hcase.
  destruct (negb _); [apply Hcase | apply Hcase].
Qed.

Lemma picked_vectors {A B} (P : A -> Prop) (R : A -> B -> Prop)
    (picked items : list A) (vs : list B) :
  sublist picked items -> Forall P items -> Forall2 R picked vs ->
  Forall (fun v => exists item, P item /\ R item v) vs.
Proof.
  intros Hsub. revert vs.
  induction Hsub as [|item l1 l2 Hsub IH|item l1 l2 Hsub IH];
    intros vs HP HR.
  - apply Forall2_nil_inv_l in HR as ->. constructor.
  - apply Forall2_cons_inv_l in HR as (v & vs' & Hv & HR & ->).
    apply Forall_cons in HP as [Hitem HP].
    constructor; [now exists item | now apply IH].
  - apply Forall_cons in HP as [_ HP]. now apply IH.
Qed.

(** Every vector of a document is the vector of one of its chunks. *)
Lemma vectors_of_items file_path chunks vs :
  vectors_of file_path chunks (enumerate chunks) vs ->
  Forall (fun v => exists (i : nat) (chunk : str),
                     chunks !! i = Some chunk
                     /\ item_vector file_path chunks (Z.of_nat i, chunk) v)
    vs.
Proof.
  intros (picked & Hsub & Hv).
  eapply Forall_impl;
    [apply (picked_vectors
              (fun item => exists i : nat,
                   fst item = Z.of_nat i /\ chunks !! i = Some (snd item))
              (item_vector file_path chunks) _ _ _ Hsub)|].
  - apply Forall_lookup. intros i [z c] Hi.
    apply enumerate_lookup in Hi as [-> Hc]. now exists i.
  - exact Hv.
  - intros v ([z c] & (i & Hz & Hc) & Hitem). cbn [fst snd] in *. subst z.
    now exists i, c.
Qed.

(** X12. The vectors [upload_text_file] hands to [index.upsert], over all
    its batches and in order, are vectors of chunks of the text of the
    file: there is a selection of the items of [enumerate(chunks)], in
    their order and each taken once, such that the k-th vector carries the
    identifier and the metadata [upload_text_file] builds for the k-th
    item selected, whose chunk has between 1 and 8190 tokens.  Every batch
    has between 1 and [BATCH_SIZE] vectors. *)
Theorem X12_upserts_are_vectors_of_the_chunks (file_path : str) :
  wpw (upload_text_file file_path)
    (fun w new r =>
       Forall (fun vs => 1 <= len vs <= BATCH_SIZE) (upserts_of new)
       /\ forall chunks,
            chunk_text_by_tokens (file_text file_path w) MAX_TOKENS
              OVERLAP_TOKENS = Ok chunks ->
            vectors_of file_path chunks (enumerate chunks)
              (concat (upserts_of new))).
Proof.
  eapply wpw_mono; [apply upload_text_file_spec|].
  intros w new r Hspec. split; [apply Hspec|].
  intros chunks Hch. exact (file_spec_vectors _ _ _ _ _ Hspec Hch).
Qed.

(** X13. No two vectors [upload_text_file] hands to [index.upsert] for a
    file have the same identifier, within a batch or across batches. *)
Theorem X13_upserted_ids_distinct (file_path : str) :
  wpw (upload_text_file file_path)
    (fun w new r => NoDup (List.map v_id (concat (upserts_of new)))).
Proof.
  eapply wpw_mono; [apply upload_text_file_spec|].
  intros w new r Hspec.
  destruct (chunk_text_by_tokens (file_text file_path w) MAX_TOKENS
              OVERLAP_TOKENS) as [chunks|e] eqn:Hch.
  - apply (vectors_of_NoDup file_path chunks).
    exact (file_spec_vectors _ _ _ _ _ Hspec Hch).
  - rewrite (file_spec_no_chunks _ _ _ _ _ Hspec Hch). constructor.
Qed.

(** X14. Every vector [upload_text_file] hands to [index.upsert] belongs
    to one chunk of the text, at a position [i] (from 0): its metadata has
    the base name of the file as source and the first 10000 characters of
    the chunk as text; for a text of more than one chunk it has
    [chunk = i + 1] and [total_chunks = len(chunks)] and the identifier
    is the one of chunk number [i + 1]; for a single chunk it has neither
    key and the identifier is the one without a chunk number. *)
Theorem X14_upserted_metadata (file_path : str) :
  wpw (upload_text_file file_path)
    (fun w new r =>
       forall chunks,
         chunk_text_by_tokens (file_text file_path w) MAX_TOKENS
           OVERLAP_TOKENS = Ok chunks ->
         Forall
           (fun v => exists (i : nat) (chunk : str),
              chunks !! i = Some chunk
              /\ md_source (v_metadata v) = basename file_path
              /\ md_text (v_metadata v) = prefix chunk 10000
              /\ len (md_text (v_metadata v)) <= 10000
              /\ if len chunks >? 1
                 then md_chunk (v_metadata v) = Some (Z.of_nat i + 1)
                      /\ md_total_chunks (v_metadata v) = Some (len chunks)
                      /\ generate_file_id file_path (Z.of_nat i + 1)
                         = Ok (v_id v)
                 else md_chunk (v_metadata v) = None
                      /\ md_total_chunks (v_metadata v) = None
                      /\ generate_file_id file_path 0 = Ok (v_id v))
           (concat (upserts_of new))).
Proof.
  eapply wpw_mono; [apply upload_text_file_spec|].
  intros w new r Hspec chunks Hch.
  eapply Forall_impl;
    [apply vectors_of_items, (file_spec_vectors _ _ _ _ _ Hspec Hch)|].
  intros v (i & chunk & Hc & Hid & Hmd & _). cbn [fst snd] in *.
  exists i, chunk. rewrite Hmd. unfold chunk_metadata, chunk_vid in *.
  pose proof (prefix_length_le chunk 10000) as Hlen.
  destruct (len chunks >? 1); cbn [md_source md_text md_chunk md_total_chunks];
    repeat split; try assumption; unfold len; lia.
Qed.

(** X15. The identifiers of the vectors [upload_text_file] hands to
    [index.upsert] for a file are, in order, a subsequence of the list of
    identifiers [validate_directory] fetches for the same file and the
    same text. *)
Theorem X15_upserted_ids_are_checked (file_path : str) :
  wpw (upload_text_file file_path)
    (fun w new r =>
       forall chunks ids,
         Validate.chunk_text_by_tokens (file_text file_path w) 6000 100
         = Ok chunks ->
         Validate.ids_to_check file_path chunks = Ok ids ->
         sublist (List.map v_id (concat (upserts_of new))) ids).
Proof.
  eapply wpw_mono; [apply upload_text_file_spec|].
  intros w new r Hspec chunks ids Hch Hids.
  rewrite validate_chunk_text_by_tokens_eq in Hch.
  apply (vectors_of_ids_sublist file_path chunks); [exact Hids|].
  now apply (file_spec_vectors _ w _ r).
Qed.

(** X16. When [upload_text_file] returns, the last line it printed is the
    no-text line if the text of the file is blank, and otherwise the
    completion line, whose first number is the number of vectors handed to
    [index.upsert] (whether the upserts succeeded or not) and whose second
    number is the number of chunks; the first is at most the second. *)
Theorem X16_completed_line_counts_upserted_vectors (file_path : str) :
  wpw (upload_text_file file_path)
    (fun w new r =>
       r = Ok tt ->
       if negb (truthy (strip (file_text file_path w))) then
         last new = Some (EvPrint (lit " No text extracted" ++ [10%N]))
       else
         exists chunks,
           chunk_text_by_tokens (file_text file_path w) MAX_TOKENS
             OVERLAP_TOKENS = Ok chunks
           /\ last new
              = Some (EvPrint (completed_line (upserted_count new)
                                 (len chunks)))
           /\ 0 <= upserted_count new <= len chunks).
Proof.
  eapply wpw_mono; [apply upload_text_file_spec|].
  intros w new r (_ & _ & Hcase) ->. cbn zeta in Hcase.
  destruct (negb _); [apply Hcase|].
  destruct (chunk_text_by_tokens _ _ _) as [chunks|e];
    [|now destruct Hcase].
  destruct Hcase as [(picked & Hsub & Hv) Hlast].
  exists chunks. repeat split; [exact Hlast | apply len_nonneg |].
  apply sublist_length in Hsub. apply Forall2_length in Hv.
  rewrite enumerate_length in Hsub. unfold upserted_count, len. lia.
Qed.


(** *** A directory *)


Lemma snd_combine {A B} (l : list A) (k : list B) :
  length l = length k -> List.map snd (combine l k) = k.
Proof.
  revert k. induction l as [|x l IH]; intros [|y k] Hlen;
    try discriminate; [reflexivity|].
  cbn. f_equal. apply IH. now injection Hlen.
Qed.



End UploadFile.

(** ** The validator, file by file *)

Section ValidateFiles.
Context `{Unicode} `{OsPath} `{Tokenizer} `{Services}.
Import Validate.
Local Open Scope py_scope.

Ltac wp_step :=
  first [ apply wp_bind | apply wp_try | apply wp_print | apply wp_sleep
        | apply wp_ret | apply wp_lift | (apply wp_call; intros ?) ].

Ltac trace_simpl :=
  rewrite ?opened_app, ?requests_of_app, ?upserts_of_app, ?fetches_of_app,
    ?sleeps_of_app;
  cbn [opened requests_of upserts_of fetches_of sleeps_of reads_of flat_map
       app List.filter List.map].

Lemma wpw_validate_extract {B} (file_path : str) (k : str -> M B)
    (post : world -> list event -> result B -> Prop) :
  (forall w new1,
     extract_spec file_path new1 (Ok (file_text file_path w)) ->
     wp (k (file_text file_path w))
        (fun new2 r => post w (new1 ++ new2) r)) ->
  wpw (bind (Validate.extract_text_from_file file_path) k) post.
Proof.
  intros Hk s.
  destruct (validate_extract_spec file_path s) as (new1 & Ht & Hs).
  pose proof (validate_extract_text file_path s) as Htext. unfold bind.
  destruct (Validate.extract_text_from_file file_path s) as [r1 s1].
  cbn [fst snd] in *. subst r1.
  destruct (Hk _ _ Hs s1) as (new2 & Ht2 & Hp).
  exists (new1 ++ new2). rewrite Ht2, Ht, app_assoc. now split.
Qed.

Lemma wpw_begin_validation {B} n_files idx (file_path : str) (k : str -> M B)
    (post : world -> list event -> result B -> Prop) :
  (forall w new1,
     extract_spec file_path new1 (Ok (file_text file_path w)) ->
     wp (k (file_text file_path w))
        (fun new2 r =>
           post w ([EvPrint (lit "[" ++ str_of_int idx ++ lit "/"
                               ++ str_of_int n_files ++ lit "] Validating: "
                               ++ basename file_path)]
                     ++ new1 ++ new2) r)) ->
  wpw (bind (begin_validation n_files idx file_path) k) post.
Proof.
  intros Hk [w tr].
  set (line := EvPrint (lit "[" ++ str_of_int idx ++ lit "/"
                          ++ str_of_int n_files ++ lit "] Validating: "
                          ++ basename file_path)) in *.
  change (bind (begin_validation n_files idx file_path) k (State w tr))
    with (bind (Validate.extract_text_from_file file_path) k
            (State w (tr ++ [line]))).
  destruct (wpw_validate_extract file_path k
              (fun w new r => post w ([line] ++ new) r) Hk
              (State w (tr ++ [line]))) as (new & Ht & Hp).
  exists ([line] ++ new). cbn [st_world st_trace] in *.
  rewrite Ht, <- app_assoc. now split.
Qed.

Lemma chunk_ids_raises file_path indices e :
  chunk_ids file_path indices = Raise e -> encode_utf8 file_path = Raise e.
Proof.
  induction indices as [|i rest IH]; cbn [chunk_ids]; [discriminate|].
  unfold Validate.generate_file_id at 1.
  destruct (encode_utf8 file_path) as [data|e'];
    [|now intros [= ->]].
  destruct (_ >? _).
  - destruct (chunk_ids file_path rest); [discriminate|].
    intros [= ->]. now apply IH.
  - destruct (chunk_ids file_path rest); [discriminate|].
    intros [= ->]. now apply IH.
Qed.

Lemma ids_to_check_raises file_path chunks e :
  ids_to_check file_path chunks = Raise e -> encode_utf8 file_path = Raise e.
Proof.
  unfold ids_to_check. destruct (_ >? _); [apply chunk_ids_raises|].
  unfold Validate.generate_file_id.
  destruct (encode_utf8 file_path) as [data|e']; [|now intros [= ->]].
  destruct (_ >? _); discriminate.
Qed.

(** One iteration of the loop of [validate_directory] meets
    [validate_spec]. *)
Lemma validate_file_spec n_files idx file_path found not_found :
  wpw (validate_file n_files idx file_path found not_found)
    (validate_spec file_path found not_found).
Proof.
  unfold validate_file. apply wpw_begin_validation. intros w new1 Hex.
  destruct (extract_spec_opened _ _ _ Hex) as (Ho & Hq & Hu & Hf & Hs).
  unfold validate_spec. cbn zeta. set (text := file_text file_path w).
  destruct (negb (truthy (strip text))).
  - wp_step. wp_step. wp_step. trace_simpl.
    rewrite Ho, Hq, Hu, Hf, Hs. now repeat split.
  - wp_step. wp_step.
    destruct (chunk_text_by_tokens text 6000 100) as [chunks|e].
    + wp_step. wp_step.
      destruct (ids_to_check file_path chunks) as [ids|e].
      * wp_step. wp_step. wp_step. wp_step.
        destruct r as [vectors|e];
          [destruct (negb (bool_decide (vectors = ∅)))|];
          wp_step; wp_step; wp_step; cbn beta iota;
          wp_step; wp_step; wp_step; trace_simpl;
          rewrite Ho, Hq, Hu, Hf, Hs; repeat split; auto.
      * trace_simpl. rewrite Ho, Hq, Hu, Hf, Hs. now repeat split.
    + trace_simpl. rewrite Ho, Hq, Hu, Hf, Hs. now repeat split.
Qed.

Lemma validate_file_wp n_files idx file_path found not_found :
  wp (validate_file n_files idx file_path found not_found)
     (fun new r =>
        requests_of new = [] /\ upserts_of new = [] /\ sleeps_of new = []
        /\ opened new = [file_path]
        /\ match r with
           | Ok (found', not_found') =>
               found <= found' /\ not_found <= not_found'
               /\ found' + not_found'
                  = found + not_found + len (fetches_of new)
               /\ len (fetches_of new) <= 1
           | Raise e => escapes e
           end).
Proof.
  eapply wpw_forget; [apply validate_file_spec|].
  intros w new r (Ho & Hq & Hu & Hs & Hcase). cbn zeta in Hcase.
  repeat (split; [assumption|]).
  destruct (negb _).
  - destruct Hcase as [-> ->]. unfold len. cbn. lia.
  - unfold Validate.chunk_text_by_tokens in Hcase.
    destruct (tk_encode (file_text file_path w)) as [tokens|e] eqn:Htk.
    + assert (Hch : exists chunks,
                (if len tokens <=? 6000 then Ok [file_text file_path w]
                 else Ok (chunk_loop tokens 6000 100 0 []))
                = Ok chunks) by (destruct (_ <=? _); eauto).
      destruct Hch as [chunks Hch]. rewrite Hch in Hcase.
      destruct (ids_to_check file_path chunks) as [ids|e] eqn:Hids.
      * destruct Hcase as [-> [-> | ->]]; unfold len; cbn; lia.
      * destruct Hcase as [-> _]. left.
        apply ids_to_check_raises in Hids.
        apply (generate_file_id_raises file_path 0).
        unfold Upload.generate_file_id. now rewrite Hids.
    + destruct Hcase as [-> _]. right. eauto.
Qed.

Lemma validate_files_wp n_files files : forall found not_found,
  wp (validate_files n_files files found not_found)
     (fun new r =>
        requests_of new = [] /\ upserts_of new = [] /\ sleeps_of new = []
        /\ match r with
           | Ok (found', not_found') =>
               opened new = List.map snd files
               /\ found <= found' /\ not_found <= not_found'
               /\ found' + not_found'
                  = found + not_found + len (fetches_of new)
               /\ len (fetches_of new) <= len files
           | Raise e =>
               escapes e
               /\ exists k, opened new = take k (List.map snd files)
           end).
Proof.
  induction files as [|[idx file_path] rest IH]; intros found not_found;
    cbn [validate_files].
  - wp_step. unfold len. cbn. repeat split; lia.
  - eapply wp_bind_with; [apply validate_file_wp | |].
    + intros new1 [found1 not_found1] (Hq & Hu & Hs & Ho & Hf1 & Hn1 & Hsum & Hl).
      cbn beta iota. eapply wp_mono; [apply IH|].
      intros new2 r (Hq2 & Hu2 & Hs2 & Hcase).
      rewrite requests_of_app, upserts_of_app, sleeps_of_app, Hq, Hu, Hs,
        Hq2, Hu2, Hs2.
      repeat (split; [reflexivity|]).
      destruct r as [[found2 not_found2]|e].
      * destruct Hcase as (Ho2 & Hf2 & Hn2 & Hsum2 & Hl2).
        rewrite opened_app, fetches_of_app, Ho, Ho2.
        unfold len in *. rewrite length_app. cbn [length List.map app].
        repeat split; try reflexivity; lia.
      * destruct Hcase as [He [k Hk]]. split; [exact He|].
        exists (Datatypes.S k). rewrite opened_app, Ho, Hk. reflexivity.
    + intros new1 e (Hq & Hu & Hs & Ho & He).
      repeat (split; [assumption|]).
      exists 1%nat. rewrite Ho. reflexivity.
Qed.

(** The whole of [validate_directory]. *)
Lemma validate_directory_spec directory_path :
  wpw (validate_directory directory_path)
    (fun w new r =>
       requests_of new = [] /\ upserts_of new = [] /\ sleeps_of new = []
       /\ match r with
          | Ok (found, not_found) =>
              opened new = glob_txt directory_path w
              /\ 0 <= found /\ 0 <= not_found
              /\ found + not_found = len (fetches_of new)
              /\ len (fetches_of new) <= len (glob_txt directory_path w)
              /\ exists before,
                   new = before
                         ++ [EvPrint ([10%N] ++ lit "Validation Complete.");
                             EvPrint (lit "Found: " ++ str_of_int found);
                             EvPrint (lit "Not Found: "
                                        ++ str_of_int not_found)]
          | Raise e =>
              escapes e
              /\ exists k, opened new = take k (glob_txt directory_path w)
          end).
Proof.
  intros s. unfold validate_directory. cbn zeta.
  set (text_files := glob_txt directory_path (st_world s)).
  set (files := combine _ text_files).
  assert (Hfiles : List.map snd files = text_files).
  { apply snd_combine. rewrite length_map, range_length. unfold len. lia. }
  assert (Hlen : len files = len text_files).
  { unfold len. now rewrite <- Hfiles, length_map. }
  cut (wp (print (lit "Found " ++ str_of_int (len text_files)
                    ++ lit " text files to validate." ++ [10%N]) ;;
           ' (found_count, not_found_count) <-
             validate_files (len text_files) files 0 0 ;;
           print ([10%N] ++ lit "Validation Complete.") ;;
           print (lit "Found: " ++ str_of_int found_count) ;;
           print (lit "Not Found: " ++ str_of_int not_found_count) ;;
           ret (found_count, not_found_count))
          (fun new r =>
             requests_of new = [] /\ upserts_of new = []
             /\ sleeps_of new = []
             /\ match r with
                | Ok (found, not_found) =>
                    opened new = text_files
                    /\ 0 <= found /\ 0 <= not_found
                    /\ found + not_found = len (fetches_of new)
                    /\ len (fetches_of new) <= len text_files
                    /\ exists before,
                         new = before
                               ++ [EvPrint ([10%N]
                                              ++ lit "Validation Complete.");
                                   EvPrint (lit "Found: "
                                              ++ str_of_int found);
                                   EvPrint (lit "Not Found: "
                                              ++ str_of_int not_found)]
                | Raise e =>
                    escapes e /\ exists k, opened new = take k text_files
                end)); [intros Hwp; exact (Hwp s)|].
  wp_step. wp_step. eapply wp_bind_with; [apply validate_files_wp | |].
  - intros new1 [found not_found] (Hq & Hu & Hs & Ho & Hf & Hn & Hsum & Hl).
    cbn beta iota. wp_step. wp_step. wp_step. wp_step. wp_step. wp_step.
    wp_step.
    rewrite !requests_of_app, !upserts_of_app, !sleeps_of_app,
      !opened_app, !fetches_of_app, Hq, Hu, Hs, Ho, Hfiles.
    cbn [opened requests_of upserts_of fetches_of sleeps_of reads_of
         flat_map app List.filter List.map].
    rewrite !app_nil_r. rewrite Hlen in Hl.
    do 8 (split; [reflexivity || lia|]).
    now exists (EvPrint (lit "Found " ++ str_of_int (len text_files)
                           ++ lit " text files to validate." ++ [10%N])
                  :: new1).
  - intros new1 e (Hq & Hu & Hs & He & k & Hk).
    rewrite !requests_of_app, !upserts_of_app, !sleeps_of_app,
      !opened_app, Hq, Hu, Hs, Hk, Hfiles.
    cbn [opened requests_of upserts_of fetches_of sleeps_of reads_of
         flat_map app List.filter List.map].
    repeat (split; [reflexivity|]). split; [exact He|]. now exists k.
Qed.

(** *** The reads of the validator *)

Lemma validate_file_reads n_files idx file_path found not_found :
  wp (validate_file n_files idx file_path found not_found)
     (fun new _ => reads_file file_path (reads_of new)).
Proof.
  unfold validate_file, begin_validation.
  apply wp_bind, wp_bind, wp_print.
  eapply wp_mono; [apply validate_extract_spec|].
  intros new1 [text|e] Hex; [|now destruct Hex as ((text & Hr) & _)].
  apply extract_spec_reads in Hex.
  destruct (negb (truthy (strip text))).
  - wp_step. wp_step. wp_step. rewrite <- ?app_assoc; now apply reads_file_frame.
  - wp_step. wp_step.
    destruct (chunk_text_by_tokens text 6000 100) as [chunks|e];
      [|rewrite <- ?app_assoc; now apply reads_file_frame].
    wp_step. wp_step.
    destruct (ids_to_check file_path chunks) as [ids|e];
      [|rewrite <- ?app_assoc; now apply reads_file_frame].
    wp_step. wp_step. wp_step. wp_step.
    destruct r as [vectors|e];
      [destruct (negb (bool_decide (vectors = ∅)))|];
      wp_step; wp_step; wp_step; cbn beta iota;
      wp_step; wp_step; wp_step;
      rewrite <- ?app_assoc; now apply reads_file_frame.
Qed.

Lemma validate_files_reads n_files files : forall found not_found,
  wp (validate_files n_files files found not_found)
     (fun new r =>
        forall counters, r = Ok counters ->
          reads_files (List.map snd files) (reads_of new)).
Proof.
  induction files as [|[idx file_path] rest IH]; intros found not_found;
    cbn [validate_files].
  - wp_step. now intros counters _.
  - eapply wp_bind_with; [apply validate_file_reads | |].
    + intros new1 [found1 not_found1] Hr1. cbn beta iota.
      eapply wp_mono; [apply IH|].
      intros new2 r Hr2 counters Hok. rewrite reads_of_app.
      cbn [List.map reads_files snd].
      exists (reads_of new1), (reads_of new2).
      split; [reflexivity|]. split; [exact Hr1 | now apply (Hr2 counters)].
    + intros new1 e _ counters. discriminate.
Qed.

Lemma validate_directory_reads directory_path :
  wpw (validate_directory directory_path)
    (fun w new r =>
       forall counters, r = Ok counters ->
         reads_files (glob_txt directory_path w) (reads_of new)).
Proof.
  intros s. unfold validate_directory. cbn zeta.
  set (text_files := glob_txt directory_path (st_world s)).
  set (files := combine _ text_files).
  assert (Hfiles : List.map snd files = text_files).
  { apply snd_combine. rewrite length_map, range_length. unfold len. lia. }
  cut (wp (print (lit "Found " ++ str_of_int (len text_files)
                    ++ lit " text files to validate." ++ [10%N]) ;;
           ' (found_count, not_found_count) <-
             validate_files (len text_files) files 0 0 ;;
           print ([10%N] ++ lit "Validation Complete.") ;;
           print (lit "Found: " ++ str_of_int found_count) ;;
           print (lit "Not Found: " ++ str_of_int not_found_count) ;;
           ret (found_count, not_found_count))
          (fun new r =>
             forall counters, r = Ok counters ->
               reads_files text_files (reads_of new)));
    [intros Hwp; exact (Hwp s)|].
  wp_step. wp_step. eapply wp_bind_with; [apply validate_files_reads | |].
  - intros new1 [found not_found] Hr1. cbn beta iota.
    wp_step. wp_step. wp_step. wp_step. wp_step. wp_step. wp_step.
    intros counters _. rewrite !reads_of_app.
    cbn [reads_of flat_map app]. rewrite !app_nil_r, <- Hfiles.
    now apply (Hr1 (found, not_found)).
  - intros new1 e _ counters. discriminate.
Qed.

(** X19. One iteration of the loop of [validate_directory], by the text of
    the file: for a blank text there is no fetch and the counters are
    unchanged; if the tokenizer refuses the text, or the path cannot be
    encoded, that exception leaves the loop and there was no fetch;
    otherwise there is exactly one fetch, of the identifiers of all the
    chunks of the text, and exactly one of the two counters goes up by
    one. *)
Theorem X19_validation_fetches_the_chunk_ids (n_files idx : Z)
    (file_path : str) (found not_found : Z) :
  wpw (validate_file n_files idx file_path found not_found)
    (fun w new r =>
       let text := file_text file_path w in
       if negb (truthy (strip text)) then
         r = Ok (found, not_found) /\ fetches_of new = []
       else
         match Validate.chunk_text_by_tokens text 6000 100 with
         | Raise e => r = Raise e /\ fetches_of new = []
         | Ok chunks =>
             match ids_to_check file_path chunks with
             | Raise e => r = Raise e /\ fetches_of new = []
             | Ok ids =>
                 fetches_of new = [ids]
                 /\ (r = Ok (found + 1, not_found)
                     \/ r = Ok (found, not_found + 1))
             end
         end).
Proof.
  eapply wpw_mono; [apply validate_file_spec|].
  intros w new r (_ & _ & _ & _ & Hcase). exact Hcase.
Qed.

(** X20. [validate_directory] only reads: whatever happens, it makes no
    embedding request, hands nothing to [index.upsert] and never
    sleeps. *)
Theorem X20_validate_directory_read_only (directory_path : str) :
  wpw (validate_directory directory_path)
    (fun w new r =>
       requests_of new = [] /\ upserts_of new = [] /\ sleeps_of new = []).
Proof.
  eapply wpw_mono; [apply validate_directory_spec|].
  intros w new r (Hq & Hu & Hs & _). now repeat split.
Qed.

(** X21. When [validate_directory] returns, it has read the files of the
    listing, in the order of the listing, and no other file: each with
    utf-8 first and then with the next encodings, up to the one that ends
    the reading, that is one to four reads per file.  Its last three
    lines are the summary with the two counters; the counters are not
    negative and add up to the number of fetches made, which is at most
    the number of files (files with a blank text are in neither
    counter). *)
Theorem X21_validate_directory_counters (directory_path : str) :
  wpw (validate_directory directory_path)
    (fun w new r =>
       forall found not_found, r = Ok (found, not_found) ->
         reads_files (glob_txt directory_path w) (reads_of new)
         /\ 0 <= found /\ 0 <= not_found
         /\ found + not_found = len (fetches_of new)
         /\ len (fetches_of new) <= len (glob_txt directory_path w)
         /\ exists before,
              new = before
                    ++ [EvPrint ([10%N] ++ lit "Validation Complete.");
                        EvPrint (lit "Found: " ++ str_of_int found);
                        EvPrint (lit "Not Found: "
                                   ++ str_of_int not_found)]).
Proof.
  eapply wpw_mono;
    [apply (wpw_conj _ _ _ (validate_directory_spec directory_path)
              (validate_directory_reads directory_path))|].
  intros w new r [(_ & _ & _ & Hcase) Hreads] found not_found ->.
  split; [now apply (Hreads (found, not_found))|]. apply Hcase.
Qed.


End ValidateFiles.

(** ** Index set-up *)

Section IndexSetUp.
Context `{IndexAdmin}.
Import Upload.
Local Open Scope adm_scope.

Lemma describes_of_app (tr1 tr2 : list admin_event) :
  describes_of (tr1 ++ tr2) = describes_of tr1 ++ describes_of tr2.
Proof. unfold describes_of. now rewrite flat_map_app. Qed.

Lemma admin_sleeps_of_app (tr1 tr2 : list admin_event) :
  admin_sleeps_of (tr1 ++ tr2) = admin_sleeps_of tr1 ++ admin_sleeps_of tr2.
Proof. unfold admin_sleeps_of. now rewrite flat_map_app. Qed.

Lemma creates_of_app (tr1 tr2 : list admin_event) :
  creates_of (tr1 ++ tr2) = creates_of tr1 ++ creates_of tr2.
Proof. unfold creates_of. now rewrite flat_map_app. Qed.

(** The three ways out of the end of a pass of the loop. *)
Lemma wait_tail_cases index_name timeout poll start vars s :
  (wait_tail index_name timeout poll start vars s
   = (Raise (TimeoutError index_name timeout), s))
  \/ (vars = None
      /\ wait_tail index_name timeout poll start vars s
         = (Raise UnboundLocalError, s))
  \/ (exists ready state,
        vars = Some (ready, state)
        /\ fst (wait_tail index_name timeout poll start vars s) = Ok tt
        /\ ad_trace (snd (wait_tail index_name timeout poll start vars s))
           = ad_trace s
               ++ [AdPrint (lit "Waiting for index... (State: " ++ show state
                              ++ lit ", Ready: " ++ show ready ++ lit ")");
                   AdSleep poll]).
Proof.
  unfold wait_tail, abind, anow, araise.
  destruct (elapsed_exceeds _ _ _); [now left|right].
  destruct vars as [[ready state]|]; [right|now left].
  exists ready, state. unfold aprint, asleep. cbn.
  rewrite <- app_assoc. now repeat split.
Qed.

Lemma waiting_silent (tr : list admin_event) :
  waiting tr -> creates_of tr = [] /\ forall name, ~ In (AdIndex name) tr.
Proof.
  induction 1 as [|ev tr Hev _ [IHc IHi]]; [split; [reflexivity | tauto]|].
  destruct ev; try contradiction; (split; [exact IHc|]);
    intros nm [Heq|Hin]; (discriminate || now apply (IHi nm)).
Qed.

(** A pass that goes on: the end of the pass, then the rest of the loop. *)
Lemma wait_pass_continue passes index_name timeout poll start vars vars'
    outcome pre s s2 :
  (forall vars s, exists new,
     ad_trace (snd (wait_loop passes index_name timeout poll start vars s))
     = ad_trace s ++ new
     /\ wait_spec index_name timeout poll passes vars new
          (fst (wait_loop passes index_name timeout poll start vars s))) ->
  reports_ready outcome = false ->
  describes_of pre = [outcome] -> waiting pre ->
  admin_sleeps_of pre = [] ->
  (vars' = None -> vars = None /\ exists e', outcome = Raise e') ->
  (vars = None -> forall e', outcome = Raise e' -> vars' = None) ->
  ad_trace s2 = ad_trace s ++ pre ->
  exists new,
    ad_trace
      (snd ((wait_tail index_name timeout poll start vars' ;;
             wait_loop passes index_name timeout poll start vars') s2))
    = ad_trace s ++ new
    /\ wait_spec index_name timeout poll (Datatypes.S passes) vars new
         (fst ((wait_tail index_name timeout poll start vars' ;;
                wait_loop passes index_name timeout poll start vars') s2)).
Proof.
  intros IH Hnot Hd Hw Hsl Hvars Hfirst Ht. unfold abind.
  destruct (wait_tail_cases index_name timeout poll start vars' s2)
    as [-> | [[Hnone ->] | (ready & state & Hsome & Hr & Htr)]].
  - exists pre. cbn [fst snd]. split; [exact Ht|]. split; [exact Hw|].
    split.
    + exists [], outcome. rewrite Hd, Hsl.
      repeat split; [now repeat constructor | now left].
    + intros _ e' rest Hrest. rewrite Hd in Hrest.
      injection Hrest as _ <-. now eauto.
  - exists pre. cbn [fst snd]. split; [exact Ht|]. split; [exact Hw|].
    split.
    + exists [], outcome. rewrite Hd, Hsl.
      destruct (Hvars Hnone) as [-> He'].
      repeat split; [now repeat constructor | now right].
    + intros _ e' rest Hrest. rewrite Hd in Hrest.
      injection Hrest as _ <-. now eauto.
  - destruct (wait_tail index_name timeout poll start vars' s2) as [rt s3].
    cbn [fst snd] in Hr, Htr. subst rt.
    destruct (IH vars' s3) as (new & Ht3 & Hw3 & Hcase & _).
    eexists. split; [rewrite Ht3, Htr, Ht, <- !app_assoc; reflexivity|].
    unfold wait_spec.
    rewrite !describes_of_app, !admin_sleeps_of_app, Hd, Hsl.
    cbn [describes_of admin_sleeps_of flat_map app].
    split; [|split].
    + apply Forall_app_2; [exact Hw|].
      constructor; [exact I|]. constructor; [exact I | exact Hw3].
    + destruct (fst (wait_loop _ _ _ _ _ _ _)) as [[[]|]|e].
      * destruct Hcase as (outcomes & last & -> & Hl & Hall & ->).
        exists (outcome :: outcomes), last.
        split; [reflexivity|]. split; [exact Hl|].
        split; [now constructor | reflexivity].
      * destruct Hcase as (Hlen & Hall & ->). cbn [length repeat].
        split; [now f_equal|]. split; [now constructor | reflexivity].
      * destruct Hcase as (outcomes & last & -> & Hall & -> & He).
        exists (outcome :: outcomes), last.
        split; [reflexivity|]. split; [now constructor|].
        split; [reflexivity|].
        destruct He as [-> | (_ & Hnone & _)]; [now left | congruence].
    + intros Hnone e' rest [= -> _].
      rewrite (Hfirst Hnone e' eq_refl) in Hsome. discriminate.
Qed.

(** One pass of the loop. *)
Lemma wait_loop_pass passes index_name timeout poll start vars s :
  wait_loop (Datatypes.S passes) index_name timeout poll start vars s
  = let '(outcome, w1) := describe_index index_name (ad_world s) in
    let s1 :=
      AdminState w1 (ad_trace s ++ [AdDescribe index_name outcome]) in
    match outcome with
    | Ok (ready, state) =>
        if is_True ready || eq_str state (lit "Ready") then
          (Ok (Some tt),
           AdminState w1
             (ad_trace s1
                ++ [AdPrint (lit "Index " ++ index_name
                               ++ lit " is ready.")]))
        else
          (wait_tail index_name timeout poll start (Some (ready, state)) ;;
           wait_loop passes index_name timeout poll start
             (Some (ready, state))) s1
    | Raise e =>
        (wait_tail index_name timeout poll start vars ;;
         wait_loop passes index_name timeout poll start vars)
          (AdminState w1
             (ad_trace s1
                ++ [AdPrint (lit "Error describing index (will retry): "
                               ++ exn_msg e)]))
    end.
Proof.
  cbn [wait_loop]. unfold abind at 1, atry, adescribe.
  destruct (describe_index index_name (ad_world s)) as [[[ready state]|e] w1];
    [destruct (_ || _)|]; reflexivity.
Qed.

(** The loop of [_wait_until_ready], whatever its outcome. *)
Lemma wait_loop_spec passes index_name timeout poll start : forall vars s,
  exists new,
    ad_trace (snd (wait_loop passes index_name timeout poll start vars s))
    = ad_trace s ++ new
    /\ wait_spec index_name timeout poll passes vars new
         (fst (wait_loop passes index_name timeout poll start vars s)).
Proof.
  induction passes as [|passes IH]; intros vars s.
  - exists []. cbn [wait_loop]. unfold aret, wait_spec. cbn [fst snd].
    rewrite app_nil_r. split; [reflexivity|]. split; [constructor|].
    split; [now repeat split | discriminate].
  - rewrite wait_loop_pass.
    destruct (describe_index index_name (ad_world s)) as [outcome w1].
    cbv zeta. destruct outcome as [[ready state]|e].
    + destruct (is_True ready || eq_str state (lit "Ready")) eqn:Hready.
      * exists [AdDescribe index_name (Ok (ready, state));
                AdPrint (lit "Index " ++ index_name ++ lit " is ready.")].
        cbn [fst snd ad_trace]. rewrite <- app_assoc.
        split; [reflexivity|]. split; [now repeat constructor|].
        split; [|discriminate].
        exists [], (Ok (ready, state)).
        split; [reflexivity|]. split; [exact Hready|].
        split; [constructor | reflexivity].
      * apply (wait_pass_continue _ _ _ _ _ vars _ (Ok (ready, state))
                 [AdDescribe index_name (Ok (ready, state))] s);
          try (exact IH || reflexivity || assumption || discriminate);
          now repeat constructor.
    + apply (wait_pass_continue _ _ _ _ _ vars _ (Raise e)
               [AdDescribe index_name (Raise e);
                AdPrint (lit "Error describing index (will retry): "
                           ++ exn_msg e)] s);
        try (exact IH || reflexivity || assumption).
      * now repeat constructor.
      * intros ->. eauto.
      * now intros -> e' _.
      * cbn [ad_trace]. now rewrite <- app_assoc.
Qed.

Lemma wait_until_ready_spec passes index_name timeout poll s :
  exists new,
    ad_trace (snd (wait_until_ready passes index_name timeout poll s))
    = ad_trace s ++ new
    /\ wait_spec index_name timeout poll passes None new
         (fst (wait_until_ready passes index_name timeout poll s)).
Proof.
  change (wait_until_ready passes index_name timeout poll s)
    with (wait_loop passes index_name timeout poll (time_time (ad_world s))
            None s).
  apply wait_loop_spec.
Qed.

(** X23. When [_wait_until_ready] returns, the last describe call it made
    reported the index ready ([ready is True] or [state == "Ready"]), no
    call before it did, and it slept [poll] seconds once after each of
    those earlier calls.  Apart from describe calls, prints and sleeps it
    does nothing. *)
Theorem X23_wait_until_ready_returns_after_ready (passes : nat)
    (index_name : str) (timeout poll : Z) (s : admin_state) :
  exists new,
    ad_trace (snd (wait_until_ready passes index_name timeout poll s))
    = ad_trace s ++ new
    /\ waiting new
    /\ (fst (wait_until_ready passes index_name timeout poll s)
        = Ok (Some tt) ->
        exists outcomes last,
          describes_of new = outcomes ++ [last]
          /\ reports_ready last = true
          /\ Forall (fun o => reports_ready o = false) outcomes
          /\ admin_sleeps_of new = repeat poll (length outcomes)).
Proof.
  destruct (wait_until_ready_spec passes index_name timeout poll s)
    as (new & Ht & Hw & Hcase & _).
  exists new. split; [exact Ht|]. split; [exact Hw|].
  intros Hr. now rewrite Hr in Hcase.
Qed.

(** X24. [_wait_until_ready] raises [TimeoutError] or
    [UnboundLocalError], nothing else.  If its first describe call
    raises, the call is not retried, whatever the line printed says:
    there is no other describe call and no sleep, and the loop raises
    (the timeout, or the [UnboundLocalError] of the progress line, whose
    variables were never assigned).  [UnboundLocalError] is raised in
    that case only. *)
Theorem X24_wait_until_ready_first_error_not_retried (passes : nat)
    (index_name : str) (timeout poll : Z) (s : admin_state) :
  exists new,
    ad_trace (snd (wait_until_ready passes index_name timeout poll s))
    = ad_trace s ++ new
    /\ (forall e,
          fst (wait_until_ready passes index_name timeout poll s) = Raise e ->
          e = TimeoutError index_name timeout
          \/ (e = UnboundLocalError
              /\ exists e', describes_of new = [Raise e']))
    /\ (forall e' rest,
          describes_of new = Raise e' :: rest ->
          rest = [] /\ admin_sleeps_of new = []
          /\ (fst (wait_until_ready passes index_name timeout poll s)
              = Raise (TimeoutError index_name timeout)
              \/ fst (wait_until_ready passes index_name timeout poll s)
                 = Raise UnboundLocalError)).
Proof.
  destruct (wait_until_ready_spec passes index_name timeout poll s)
    as (new & Ht & Hw & Hcase & Hfirst).
  exists new. split; [exact Ht|].
  assert (Hraise : forall e,
            fst (wait_until_ready passes index_name timeout poll s) = Raise e ->
            e = TimeoutError index_name timeout
            \/ (e = UnboundLocalError
                /\ exists e', describes_of new = [Raise e'])).
  { intros e Hr. rewrite Hr in Hcase.
    destruct Hcase as (outcomes & last & Hd & _ & _ & He).
    destruct He as [-> | (-> & _ & -> & e' & ->)]; [now left | right].
    split; [reflexivity | now exists e']. }
  split; [exact Hraise|].
  intros e' rest Hd. destruct (Hfirst eq_refl e' rest Hd) as (-> & Hs & e & He).
  split; [reflexivity|]. split; [exact Hs|].
  destruct (Hraise e He) as [-> | [-> _]]; [now left | now right].
Qed.

Lemma existsb_In (index_name : str) (existing : list str) :
  existsb (fun name => bool_decide (index_name = name)) existing = true
  <-> In index_name existing.
Proof.
  rewrite existsb_exists. split.
  - intros (name & Hin & Heq). apply bool_decide_eq_true in Heq. now subst.
  - intros Hin. exists index_name. split; [exact Hin|].
    now apply bool_decide_eq_true.
Qed.

Lemma create_index_listing passes index_name region s :
  create_index passes index_name region s
  = match list_index_names (ad_world s) with
    | (Raise e, w1) => (Raise e, AdminState w1 (ad_trace s ++ [AdList]))
    | (Ok existing, w1) =>
        (waited <-
           (if negb (existsb (fun name => bool_decide (index_name = name))
                       existing)
            then
              aprint (lit "Creating new index: " ++ index_name) ;;
              acall (AdCreate index_name EMBEDDING_DIMENSION (lit "cosine")
                       (lit "aws") region)
                (pc_create_index index_name EMBEDDING_DIMENSION
                   (lit "cosine") (lit "aws") region) ;;
              wait_until_ready passes index_name 15 2
            else
              aprint (lit "Connecting to existing index: " ++ index_name) ;;
              aret (Some tt)) ;;
         match waited with
         | None => aret None
         | Some _ =>
             acall (AdIndex index_name) (pc_Index index_name) ;;
             aprint (lit "Index is ready.") ;;
             aret (Some tt)
         end) (AdminState w1 (ad_trace s ++ [AdList]))
    end.
Proof.
  unfold create_index. unfold abind at 1, acall at 1.
  now destruct (list_index_names (ad_world s)) as [[existing|e] w1].
Qed.

(** X25. [create_index] by the listing of the indexes:
    - if listing raises, that exception leaves and nothing else is done;
    - if the name is listed, no index is created and no describe call is
      made: the handle is taken at once;
    - otherwise one index is created, with the name, dimension 3072,
      metric cosine, cloud aws and the region; no other index is created,
      and the handle is taken only after a describe call has reported the
      index ready. *)
Theorem X25_create_index_only_if_not_listed (passes : nat)
    (index_name region : str) (s : admin_state) :
  exists new,
    ad_trace (snd (create_index passes index_name region s))
    = ad_trace s ++ new
    /\ match fst (list_index_names (ad_world s)) with
       | Raise e =>
           fst (create_index passes index_name region s) = Raise e
           /\ new = [AdList]
       | Ok existing =>
           (In index_name existing ->
            exists tail,
              new = [AdList;
                     AdPrint (lit "Connecting to existing index: "
                                ++ index_name);
                     AdIndex index_name] ++ tail
              /\ (tail = [] \/ tail = [AdPrint (lit "Index is ready.")]))
           /\ (~ In index_name existing ->
               exists rest,
                 new = [AdList;
                        AdPrint (lit "Creating new index: " ++ index_name);
                        AdCreate index_name 3072 (lit "cosine") (lit "aws")
                          region] ++ rest
                 /\ creates_of rest = []
                 /\ (In (AdIndex index_name) rest ->
                     exists outcomes last,
                       describes_of rest = outcomes ++ [last]
                       /\ reports_ready last = true))
       end.
Proof.
  rewrite create_index_listing.
  destruct (list_index_names (ad_world s)) as [[existing|e] w1]; cbn [fst];
    [|exists [AdList]; now repeat split].
  set (s1 := AdminState w1 (ad_trace s ++ [AdList])).
  destruct (existsb _ existing) eqn:Hex; cbn [negb].
  - apply existsb_In in Hex.
    unfold abind, aprint, aret, acall. cbn [ad_world ad_trace s1].
    destruct (pc_Index index_name w1) as [[[]|e] w2]; cbn [fst snd ad_trace];
      eexists; (split; [rewrite <- !app_assoc; reflexivity|]);
      (split; [|now intros Hn]); intros _.
    + exists [AdPrint (lit "Index is ready.")]. split; [reflexivity | now right].
    + exists []. split; [reflexivity | now left].
  - assert (Hnot : ~ In index_name existing).
    { intros Hin. apply existsb_In in Hin. congruence. }
    unfold abind at 1. unfold abind at 1, aprint at 1.
    cbn [ad_world ad_trace s1].
    unfold abind at 1, acall at 1. cbn [ad_world ad_trace].
    unfold EMBEDDING_DIMENSION.
    destruct (pc_create_index index_name 3072 (lit "cosine") (lit "aws")
                region w1) as [[[]|e] w2].
    + set (s2 := AdminState w2 _).
      destruct (wait_until_ready_spec passes index_name 15 2 s2)
        as (neww & Htw & Hw & Hcase & _).
      destruct (wait_until_ready passes index_name 15 2 s2)
        as [[[[]|]|e] s3]; cbn [fst snd] in *.
      * unfold abind, acall, aprint, aret.
        destruct (pc_Index index_name (ad_world s3)) as [[[]|e] w4];
          cbn [fst snd ad_trace]; rewrite Htw; cbn [s2 ad_trace];
          eexists; (split; [rewrite <- !app_assoc; reflexivity|]);
          (split; [now intros Hin|]); intros _; eexists;
          (split; [reflexivity|]);
          destruct (waiting_silent _ Hw) as [Hc Hi];
          rewrite !creates_of_app, !describes_of_app, Hc;
          (split; [reflexivity|]); intros _;
          destruct Hcase as (outcomes & last & Hd & Hl & _);
          exists outcomes, last; rewrite Hd;
          cbn [describes_of flat_map app]; rewrite app_nil_r;
          now split.
      * unfold aret. cbn [fst snd]. rewrite Htw. cbn [s2 ad_trace].
        eexists. split; [rewrite <- !app_assoc; reflexivity|].
        split; [now intros Hin|]. intros _. exists neww.
        destruct (waiting_silent _ Hw) as [Hc Hi].
        split; [reflexivity|]. split; [exact Hc|].
        intros Hin. now apply Hi in Hin.
      * rewrite Htw. cbn [s2 ad_trace].
        eexists. split; [rewrite <- !app_assoc; reflexivity|].
        split; [now intros Hin|]. intros _. exists neww.
        destruct (waiting_silent _ Hw) as [Hc Hi].
        split; [reflexivity|]. split; [exact Hc|].
        intros Hin. now apply Hi in Hin.
    + cbn [fst snd ad_trace]. eexists.
      split; [rewrite <- !app_assoc; reflexivity|].
      split; [now intros Hin|]. intros _. exists [].
      split; [reflexivity|]. split; [reflexivity|]. intros [].
Qed.

End IndexSetUp.

(** ** Configuration *)

Section Configuration.
Import Upload.

Lemma env_or_nonempty (a : option str) (b : str) : b <> [] -> env_or a b <> [].
Proof. intros Hb. destruct a as [[|c v]|]; cbn; (exact Hb || discriminate). Qed.

(** X26. The configuration read at import: it is accepted only when both
    keys are set and not empty (an empty value counts as missing), the
    OpenAI key being checked first; the region is never empty: it is
    [PINECONE_REGION] if that is set and not empty, otherwise
    [PINECONE_ENVIRONMENT] if that is set and not empty, otherwise
    us-east-1. *)
Theorem X26_configuration (getenv : str -> option str) :
  let missing (v : option str) := v = None \/ v = Some [] in
  PINECONE_REGION getenv <> []
  /\ (~ missing (getenv (lit "PINECONE_REGION")) ->
      getenv (lit "PINECONE_REGION") = Some (PINECONE_REGION getenv))
  /\ (missing (getenv (lit "PINECONE_REGION")) ->
      ~ missing (getenv (lit "PINECONE_ENVIRONMENT")) ->
      getenv (lit "PINECONE_ENVIRONMENT") = Some (PINECONE_REGION getenv))
  /\ (missing (getenv (lit "PINECONE_REGION")) ->
      missing (getenv (lit "PINECONE_ENVIRONMENT")) ->
      PINECONE_REGION getenv = lit "us-east-1")
  /\ match load_config getenv with
     | Ok (openai_key, pinecone_key, region) =>
         getenv (lit "OPENAI_API_KEY") = Some openai_key
         /\ openai_key <> []
         /\ getenv (lit "PINECONE_API_KEY") = Some pinecone_key
         /\ pinecone_key <> []
         /\ region = PINECONE_REGION getenv
     | Raise e =>
         exn_class e = "ValueError"%string
         /\ (missing (getenv (lit "OPENAI_API_KEY"))
             /\ exn_msg e = lit "OPENAI_API_KEY not found in environment"
             \/ ~ missing (getenv (lit "OPENAI_API_KEY"))
                /\ missing (getenv (lit "PINECONE_API_KEY"))
                /\ exn_msg e
                   = lit "PINECONE_API_KEY not found in environment")
     end.
Proof.
  intros missing. unfold load_config, PINECONE_REGION.
  split; [apply env_or_nonempty, env_or_nonempty; discriminate|].
  split; [|split; [|split]].
  - destruct (getenv (lit "PINECONE_REGION")) as [[|c v]|]; cbn [env_or];
      unfold missing; intuition congruence.
  - destruct (getenv (lit "PINECONE_REGION")) as [[|c v]|];
      destruct (getenv (lit "PINECONE_ENVIRONMENT")) as [[|c' v']|];
      cbn [env_or]; unfold missing; intuition congruence.
  - destruct (getenv (lit "PINECONE_REGION")) as [[|c v]|];
      destruct (getenv (lit "PINECONE_ENVIRONMENT")) as [[|c' v']|];
      cbn [env_or]; unfold missing; intuition congruence.
  - destruct (getenv (lit "OPENAI_API_KEY")) as [[|c k]|].
    + split; [reflexivity|]. left. split; [now right | reflexivity].
    + destruct (getenv (lit "PINECONE_API_KEY")) as [[|c' k']|].
      * split; [reflexivity|]. right.
        split; [intros [Hm|Hm]; discriminate|].
        split; [now right | reflexivity].
      * now repeat split.
      * split; [reflexivity|]. right.
        split; [intros [Hm|Hm]; discriminate|].
        split; [now left | reflexivity].
    + split; [reflexivity|]. left. split; [now left | reflexivity].
Qed.

End Configuration.

(** ** The code on concrete inputs *)

#[local] Existing Instance latin1.
#[local] Existing Instance PosixPath.os_path.
#[local] Existing Instance char_tokenizer.
#[local] Existing Instance sim_services.

Example generate_file_id_single :
  Upload.generate_file_id demo_path 0 = Ok (lit "f8b24b6a_report2024").
Proof. vm_compute. reflexivity. Qed.

Example generate_file_id_chunk_7 :
  Upload.generate_file_id demo_path 7
  = Ok (lit "f8b24b6a_report2024_chunk_007").
Proof. vm_compute. reflexivity. Qed.

Example generate_file_id_chunk_1234 :
  Upload.generate_file_id (lit "a/b/.hidden") 1234
  = Ok (lit "fe48300a_hidden_chunk_1234").
Proof. vm_compute. reflexivity. Qed.

Example md5_two_blocks :
  MD5.hexdigest (repeat 97 100) = lit "36a92cc94a9e0fa21f625f8bfb007adf".
Proof. vm_compute. reflexivity. Qed.

Example md5_non_ascii_path :
  Upload.generate_file_id [0xE9%N; 47%N; 0xFC%N; 46%N; 116%N; 120%N; 116%N] 0
  = Ok (lit "0352688e_" ++ [0xFC%N]).
Proof. vm_compute. reflexivity. Qed.

(** A path with a lone surrogate cannot be encoded: both scripts raise. *)
Example generate_file_id_surrogate :
  Upload.generate_file_id (lit "docs/" ++ [0xDC80%N] ++ lit ".txt") 0
  = Raise UnicodeEncodeError.
Proof. vm_compute. reflexivity. Qed.

(** The embedding service answers with a rate-limit error twice, then with
    an embedding: the third attempt succeeds after sleeps of 5 s and 10 s. *)
Example rate_limited_twice :
  let busy := Raise (PyExn "RateLimitError" (lit "Error code: 429")) in
  let w := SimWorld [busy; busy; Ok [1; 2; 3]] [] ∅ [] 0 in
  let '(r, s) := Upload.get_embedding (lit "some text")
                   (@State sim_services w []) in
  r = Ok (Some [1; 2; 3])
  /\ requests_of (st_trace s)
     = [lit "some text"; lit "some text"; lit "some text"]
  /\ sleeps_of (st_trace s) = [5; 10]
  /\ sw_clock (st_world s) = 15.
Proof. vm_compute. repeat split. Qed.

(** A context-length error ends the attempts at once. *)
Example context_length_error :
  let too_long :=
    Raise (PyExn "BadRequestError"
             (lit "Error code: 400 - maximum context length")) in
  let w := SimWorld [too_long; Ok [1; 2; 3]] [] ∅ [] 0 in
  let '(r, s) := Upload.get_embedding (lit "some text")
                   (@State sim_services w []) in
  r = Ok None /\ requests_of (st_trace s) = [lit "some text"]
  /\ sleeps_of (st_trace s) = [].
Proof. vm_compute. repeat split. Qed.

(** A document whose only chunk was never uploaded is Not Found; after
    [upload_text_file] the same validation reports Found. *)
Example not_found_then_found :
  let w := SimWorld [Ok [1; 2; 3]] [] ∅ [(demo_path, lit "hello world")] 0 in
  let s0 := @State sim_services w [] in
  let '(before, _) := Validate.validate_directory (lit "docs") s0 in
  let '(_, s1) := Upload.upload_text_file demo_path s0 in
  let '(after, _) := Validate.validate_directory (lit "docs") s1 in
  before = Ok (0, 1) /\ after = Ok (1, 0)
  /\ dom (sw_store (st_world s1)) = {[ lit "f8b24b6a_report2024" ]}.
Proof. vm_compute. repeat split. Qed.

(** The fetch for the first of two files fails: the run still ends, with
    both files counted as Not Found. *)
Example validate_directory_outage :
  fst (Validate.validate_directory (lit "docs") outage_start) = Ok (0, 2).
Proof. vm_compute. reflexivity. Qed.

(** *** The theorems at concrete inputs *)

Lemma C7_witness :
  encode_utf8 demo_path = Ok demo_path_bytes
  /\ Upload.generate_file_id demo_path 2
     = Ok (lit "f8b24b6a_report2024_chunk_002").
Proof.
  assert (Henc : encode_utf8 demo_path = Ok demo_path_bytes)
    by (vm_compute; reflexivity).
  split; [exact Henc|].
  destruct (C7_generate_file_id_format demo_path demo_path_bytes 2 Henc)
    as [Hid _]; [lia|].
  rewrite Hid. vm_compute. reflexivity.
Defined.

Lemma C4_witness :
  Upload.chunk_text_by_tokens (lit "hello world") 6000 100
  = Ok [lit "hello world"]
  /\ Upload.chunk_vid demo_path [lit "hello world"] 0
     = Ok (lit "f8b24b6a_report2024").
Proof.
  destruct (C4_single_chunk (lit "hello world")
              (List.map Z.of_N (lit "hello world")) 6000 100 demo_path)
    as (Hchunks & _ & _ & Hvid & _ & Hid).
  - reflexivity.
  - vm_compute. discriminate.
  - split; [exact Hchunks|].
    rewrite Hvid, (Hid demo_path_bytes) by (vm_compute; reflexivity).
    vm_compute. reflexivity.
Defined.

Lemma C5_witness :
  exists c1 c2 c3,
    Upload.chunk_text_by_tokens text_15000 6000 100 = Ok [c1; c2; c3]
    /\ Upload.chunk_vid demo_path [c1; c2; c3] 0
       = Ok (lit "f8b24b6a_report2024_chunk_001")
    /\ Upload.chunk_vid demo_path [c1; c2; c3] 1
       = Ok (lit "f8b24b6a_report2024_chunk_002")
    /\ Upload.chunk_vid demo_path [c1; c2; c3] 2
       = Ok (lit "f8b24b6a_report2024_chunk_003").
Proof.
  destruct (C5_three_windows text_15000 (List.map Z.of_N text_15000)
              demo_path demo_path_bytes)
    as (_ & _ & Hthree).
  - reflexivity.
  - vm_compute. reflexivity.
  - vm_compute. reflexivity.
  - destruct Hthree as (Hc & _ & H1 & H2 & H3).
    1-3: vm_compute; discriminate.
    eexists _, _, _. split; [exact Hc|].
    rewrite H1, H2, H3. repeat apply conj; vm_compute; reflexivity.
Defined.

Lemma C5_counterexample :
  tk_encode text_blank_tail = Ok (List.map Z.of_N text_blank_tail)
  /\ len (List.map Z.of_N text_blank_tail) = 15000
  /\ Upload.chunk_text_by_tokens text_blank_tail 6000 100
     = Ok [repeat 97%N 6000; repeat 97%N 100]
  /\ length [repeat 97%N 6000; repeat 97%N 100] = 2%nat
  /\ tk_decode (slice (List.map Z.of_N text_blank_tail) 11800 15000)
     = repeat 32%N 3200.
Proof.
  assert (Hlen : len (List.map Z.of_N text_blank_tail) = 15000)
    by (vm_compute; reflexivity).
  split; [reflexivity|]. split; [exact Hlen|]. split.
  - rewrite (chunk_text_by_tokens_windows _ (List.map Z.of_N text_blank_tail));
      [|reflexivity|rewrite Hlen; reflexivity].
    rewrite windows_15000 by exact Hlen.
    vm_compute. reflexivity.
  - split; [reflexivity|]. vm_compute. reflexivity.
Qed.

Lemma C6_witness :
  last_tokens 2 [1; 2; 3; 4] = first_tokens 2 [3; 4; 5; 6].
Proof.
  apply (C6_overlap_between_windows [1; 2; 3; 4; 5; 6; 7] 4 2 0).
  - lia.
  - vm_compute. reflexivity.
  - vm_compute. reflexivity.
  - vm_compute. discriminate.
Defined.

(** Seven tokens, windows of 4 overlapping by 2: the last window has one
    token, fewer than the overlap. *)
Lemma C6_counterexample :
  Upload.chunk_text_by_tokens (lit "abcdefg") 4 2
  = Ok [lit "abcd"; lit "cdef"; lit "efg"; lit "g"]
  /\ Upload.token_windows (List.map Z.of_N (lit "abcdefg")) 4 2
     = [List.map Z.of_N (lit "abcd"); List.map Z.of_N (lit "cdef");
        List.map Z.of_N (lit "efg"); List.map Z.of_N (lit "g")]
  /\ tk_encode (lit "efg") = Ok (List.map Z.of_N (lit "efg"))
  /\ tk_encode (lit "g") = Ok (List.map Z.of_N (lit "g"))
  /\ last_tokens 2 (List.map Z.of_N (lit "efg"))
     <> first_tokens 2 (List.map Z.of_N (lit "g")).
Proof.
  repeat apply conj; try (vm_compute; reflexivity).
  vm_compute. discriminate.
Qed.


(** A context-length error whose message has the digits 429 in it is
    taken for a rate-limit error: three requests, with sleeps of 5 s and
    10 s, before the failure is returned. *)
Lemma C3_counterexample :
  contains (lit "maximum context length") (exn_msg context_length_14290)
  = true
  /\ contains (lit "400") (exn_msg context_length_14290) = true
  /\ fst (Upload.get_embedding (lit "some text") context_length_start)
     = Ok None
  /\ requests_of
       (st_trace
          (snd (Upload.get_embedding (lit "some text")
                  context_length_start)))
     = [lit "some text"; lit "some text"; lit "some text"]
  /\ sleeps_of
       (st_trace
          (snd (Upload.get_embedding (lit "some text")
                  context_length_start)))
     = [5; 10].
Proof. repeat apply conj; vm_compute; reflexivity. Qed.

Lemma C9_witness :
  sw_store partial_world !! chunk_1_id = None
  /\ exists s',
       Validate.validate_file 1 1 demo_path 0 0 partial_start
       = (Ok (1, 0), s').
Proof.
  split; [vm_compute; reflexivity|].
  destruct (C9_found_iff_fetch_returns_a_vector 1 1 demo_path 0 0
              partial_start two_chunk_text
              (@State sim_services partial_world
                 [EvPrint (lit "[1/1] Validating: report 2024.txt");
                  EvRead demo_path (lit "utf-8")])
              [repeat 97%N 6000; repeat 97%N 101]
              [chunk_1_id; chunk_2_id]
              (Ok (store_fetch (sw_store partial_world)
                     [chunk_1_id; chunk_2_id]))
              partial_world)
    as (f' & nf' & s' & Hrun & _ & _ & Hfound & _).
  - vm_compute. reflexivity.
  - vm_compute. reflexivity.
  - vm_compute. reflexivity.
  - vm_compute. reflexivity.
  - vm_compute. reflexivity.
  - destruct Hfound as (-> & -> & _).
    + eexists. split; [reflexivity|]. vm_compute. discriminate.
    + exists s'. exact Hrun.
Defined.

Lemma C10_witness :
  exists s',
    Validate.validate_file 2 1 demo_path 0 0 outage_start
    = (Ok (0, 1), s')
    /\ Validate.validate_files 2
         [(1, demo_path); (2, lit "docs/second.txt")] 0 0
         outage_start
       = Validate.validate_files 2 [(2, lit "docs/second.txt")] 0 1 s'
    /\ In (EvPrint (lit "  - Error fetching file: (503) Service Unavailable"))
         (st_trace s').
Proof.
  eexists. 
  destruct (C10_fetch_error_is_not_found 2 1 demo_path
              [(2, lit "docs/second.txt")] 0 0
              outage_start (lit "first")
              (@State sim_services outage_world
                 [EvPrint (lit "[1/2] Validating: report 2024.txt");
                  EvRead demo_path (lit "utf-8")])
              [lit "first"] [lit "f8b24b6a_report2024"] outage
              (SimWorld [] [] ∅ (sw_files outage_world) 0))
    as (Hfile & Hloop).
  - vm_compute. reflexivity.
  - vm_compute. reflexivity.
  - vm_compute. reflexivity.
  - vm_compute. reflexivity.
  - vm_compute. reflexivity.
  - split; [exact Hfile|]. split; [exact Hloop|].
    cbn [st_trace]. apply in_or_app. right. right. left. reflexivity.
Defined.

(** *** The further properties at concrete inputs *)

Lemma X1_witness :
  Forall (fun c =>
            c <> [] /\ strip c = c
            /\ (forall x, head c = Some x -> isspace x = false)
            /\ (forall x, last c = Some x -> isspace x = false))
    [lit "ab"; lit "cd"; lit "d e"; lit "ef"].
Proof.
  apply (X1_chunks_nonempty_and_stripped (lit "ab cd ef")
           (List.map Z.of_N (lit "ab cd ef")) 3 1).
  - reflexivity.
  - vm_compute. reflexivity.
  - vm_compute. reflexivity.
Defined.

Lemma X2_witness :
  Forall (fun w => 1 <= len w <= 4)
    (Upload.token_windows [1; 2; 3; 4; 5; 6; 7] 4 2).
Proof. apply (X2_window_size_bounds [1; 2; 3; 4; 5; 6; 7] 4 2). lia. Defined.

Lemma X3_witness :
  flat_map (take (Z.to_nat (4 - 2)))
    (Upload.token_windows [1; 2; 3; 4; 5; 6; 7] 4 2)
  = [1; 2; 3; 4; 5; 6; 7].
Proof.
  apply (X3_windows_cover_all_tokens [1; 2; 3; 4; 5; 6; 7] 4 2). lia.
Defined.

Lemma X4_witness :
  len (Upload.token_windows (List.map Z.of_N (lit "abcdefg")) 4 2)
  = (len (List.map Z.of_N (lit "abcdefg")) + (4 - 2) - 1) / (4 - 2)
  /\ len [lit "abcd"; lit "cdef"; lit "efg"; lit "g"]
     <= (len (List.map Z.of_N (lit "abcdefg")) + (4 - 2) - 1) / (4 - 2).
Proof.
  apply (X4_window_count (lit "abcdefg") (List.map Z.of_N (lit "abcdefg"))
           4 2 [lit "abcd"; lit "cdef"; lit "efg"; lit "g"]).
  - lia.
  - reflexivity.
  - vm_compute. reflexivity.
  - vm_compute. reflexivity.
Defined.

Lemma X6_witness :
  Upload.generate_file_id demo_path 7
  = Ok (lit "f8b24b6a_report2024_chunk_007")
  /\ 7 = 7.
Proof.
  split; [exact generate_file_id_chunk_7|].
  apply (X6_identifier_determines_chunk_index demo_path 7 7
           (lit "f8b24b6a_report2024_chunk_007"));
    (lia || exact generate_file_id_chunk_7).
Defined.

Lemma X7_witness :
  NoDup [lit "f8b24b6a_report2024_chunk_001";
         lit "f8b24b6a_report2024_chunk_002";
         lit "f8b24b6a_report2024_chunk_003"]
  /\ length [lit "f8b24b6a_report2024_chunk_001";
             lit "f8b24b6a_report2024_chunk_002";
             lit "f8b24b6a_report2024_chunk_003"]
     = Nat.max 1 (length [lit "one"; lit "two"; lit "three"]).
Proof.
  apply (X7_ids_to_check_distinct demo_path
           [lit "one"; lit "two"; lit "three"]).
  vm_compute. reflexivity.
Defined.

Lemma X8_witness :
  Forall (fun c => id_char c = true) (lit "f8b24b6a_report2024_chunk_007")
  /\ (9 <= length (lit "f8b24b6a_report2024_chunk_007") <= 69)%nat
  /\ (7 = 0 -> (length (lit "f8b24b6a_report2024_chunk_007") <= 59)%nat).
Proof.
  apply (X8_identifier_alphabet_and_length demo_path 7);
    [lia | exact generate_file_id_chunk_7].
Defined.


(** Two files that are read with latin-1, after utf-8 and utf-16 have
    failed: three reads each. *)
Example upload_directory_fallback_reads :
  reads_of
    (st_trace
       (snd (@Upload.upload_directory latin1 PosixPath.os_path
               char_tokenizer legacy_services (lit "docs")
               two_files_start)))
  = [(demo_path, lit "utf-8"); (demo_path, lit "utf-16");
     (demo_path, lit "latin-1");
     (lit "docs/second.txt", lit "utf-8");
     (lit "docs/second.txt", lit "utf-16");
     (lit "docs/second.txt", lit "latin-1")].
Proof. vm_compute. reflexivity. Qed.

